(** * The Berghain admission controller (src/game.py), embedded in Rocq

    The decision engine of [GameController] is translated function by
    function.  Python [int]s are [Z]; Python [float]s are the kernel's
    binary64 floats, so every product, quotient and square root rounds as
    CPython rounds it; a [dict] the code iterates over is an association
    list in insertion order, a [dict] it only indexes is a [gmap]; an
    exception is a value of [exn] threaded through the [result] monad. *)

From Stdlib Require Import ZArith Floats Lia Ascii.
From stdpp Require Import gmap strings list fin_maps pretty.

Set Warnings "-inexact-float".
Open Scope Z_scope.

(** ** Exceptions and the error monad *)

Inductive exn :=
  | KeyError (key : string)
  | OverflowError
  | ZeroDivisionError
  | ValueError.

Inductive result (A : Type) :=
  | Ok (a : A)
  | Raise (e : exn).
Arguments Ok {A} a.
Arguments Raise {A} e.

#[global] Instance result_ret : MRet result := fun _ a => Ok a.
#[global] Instance result_bind : MBind result := fun _ _ f m =>
  match m with
  | Ok a => f a
  | Raise e => Raise e
  end.

Definition returns {A} (m : result A) : Prop := exists a, m = Ok a.

(** [d[k]] on a dict that is only indexed. *)
Definition getitem {V} (d : gmap string V) (k : string) : result V :=
  match d !! k with
  | Some v => Ok v
  | None => Raise (KeyError k)
  end.

(** ** Insertion-ordered dicts *)

Module PyDict.
Definition t (V : Type) := list (string * V).

Fixpoint get {V} (d : t V) (k : string) : option V :=
  match d with
  | [] => None
  | (k', v) :: d' => if String.eqb k' k then Some v else get d' k
  end.

Definition keys {V} (d : t V) : list string := map fst d.

Definition mem {V} (k : string) (d : t V) : bool :=
  match get d k with
  | Some _ => true
  | None => false
  end.

Definition getitem {V} (d : t V) (k : string) : result V :=
  match get d k with
  | Some v => Ok v
  | None => Raise (KeyError k)
  end.
End PyDict.

(** ** Python arithmetic on [int] and [float] *)

Module Py.
(** [float(z)]: round to nearest even; [OverflowError] when the rounded
    value is not finite. *)
Definition float_of_int (z : Z) : result float :=
  match binary_normalize prec emax z 0 false with
  | S754_infinity _ => Raise OverflowError
  | s => Ok (SF2Prim s)
  end.

(** [z * f], [z + f], [z - f] and [z / f] with an [int] on the left. *)
Definition int_mul_float (z : Z) (f : float) : result float :=
  x ← float_of_int z; Ok (x * f)%float.

Definition int_add_float (z : Z) (f : float) : result float :=
  x ← float_of_int z; Ok (x + f)%float.

Definition int_sub_float (z : Z) (f : float) : result float :=
  x ← float_of_int z; Ok (x - f)%float.

Definition int_div_float (z : Z) (f : float) : result float :=
  x ← float_of_int z;
  if (f =? 0)%float then Raise ZeroDivisionError else Ok (x / f)%float.

(** Comparing a [float] with an [int] is exact in CPython: the float is
    not rounded and the int is not converted.  [None] is a NaN. *)
Definition float_cmp_int (f : float) (n : Z) : option comparison :=
  match Prim2SF f with
  | S754_nan => None
  | S754_infinity s => Some (if s then Lt else Gt)
  | S754_zero _ => Some (0 ?= n)
  | S754_finite s m e =>
      let v := if s then Z.neg m else Z.pos m in
      Some (if 0 <=? e then v * 2 ^ e ?= n else v ?= n * 2 ^ (- e))
  end.

Definition float_lt_int (f : float) (n : Z) : bool :=
  match float_cmp_int f n with
  | Some Lt => true
  | _ => false
  end.

Definition float_gt_int (f : float) (n : Z) : bool :=
  match float_cmp_int f n with
  | Some Gt => true
  | _ => false
  end.

(** [math.sqrt]: a NaN result from an argument that is not a NaN is a
    domain error. *)
Definition math_sqrt (x : float) : result float :=
  let r := sqrt x in
  if is_nan r && negb (is_nan x) then Raise ValueError else Ok r.

(** A number that is an [int] or a [float], as [score] is. *)
Inductive num :=
  | Int (z : Z)
  | Float (f : float).

Definition num_add_float (s : num) (f : float) : result num :=
  match s with
  | Int z => x ← int_add_float z f; Ok (Float x)
  | Float g => Ok (Float (g + f)%float)
  end.

Definition num_gt_int (s : num) (n : Z) : bool :=
  match s with
  | Int z => n <? z
  | Float f => float_gt_int f n
  end.
End Py.

(** ** The controller's state *)

Record AttributeStatistics := {
  relativeFrequencies : PyDict.t float;
  correlations : PyDict.t (PyDict.t float)
}.

Record Constraint := {
  attribute : string;
  minCount : Z
}.

Record GameController := {
  game_uuid : string;
  constraints : list Constraint;
  attribute_statistics : AttributeStatistics;
  N : Z;
  accepted_counts : gmap string Z;
  remaining_required : gmap string Z;
  R : Z;
  rejects : Z;
  MAX_REJECTS : Z;
  p_a : PyDict.t float;
  P11 : PyDict.t (PyDict.t float)
}.

Record Person := {
  personIndex : Z;
  attributes : PyDict.t bool
}.

Definition epsilon : float := 1e-9%float.

(** [__init__]: an empty controller. *)
Definition init : GameController := {|
  game_uuid := "";
  constraints := [];
  attribute_statistics := {| relativeFrequencies := []; correlations := [] |};
  N := 1000;
  accepted_counts := ∅;
  remaining_required := ∅;
  R := 1000;
  rejects := 0;
  MAX_REJECTS := 20000;
  p_a := [];
  P11 := []
|}.

Definition set_R (r : Z) (st : GameController) : GameController :=
  {| game_uuid := game_uuid st; constraints := constraints st;
     attribute_statistics := attribute_statistics st; N := N st;
     accepted_counts := accepted_counts st;
     remaining_required := remaining_required st;
     R := r; rejects := rejects st; MAX_REJECTS := MAX_REJECTS st;
     p_a := p_a st; P11 := P11 st |}.

Definition set_rejects (n : Z) (st : GameController) : GameController :=
  {| game_uuid := game_uuid st; constraints := constraints st;
     attribute_statistics := attribute_statistics st; N := N st;
     accepted_counts := accepted_counts st;
     remaining_required := remaining_required st;
     R := R st; rejects := n; MAX_REJECTS := MAX_REJECTS st;
     p_a := p_a st; P11 := P11 st |}.

Definition set_accepted_counts (m : gmap string Z) (st : GameController)
  : GameController :=
  {| game_uuid := game_uuid st; constraints := constraints st;
     attribute_statistics := attribute_statistics st; N := N st;
     accepted_counts := m;
     remaining_required := remaining_required st;
     R := R st; rejects := rejects st; MAX_REJECTS := MAX_REJECTS st;
     p_a := p_a st; P11 := P11 st |}.

Definition set_remaining_required (m : gmap string Z) (st : GameController)
  : GameController :=
  {| game_uuid := game_uuid st; constraints := constraints st;
     attribute_statistics := attribute_statistics st; N := N st;
     accepted_counts := accepted_counts st;
     remaining_required := m;
     R := R st; rejects := rejects st; MAX_REJECTS := MAX_REJECTS st;
     p_a := p_a st; P11 := P11 st |}.

Definition set_probabilities (p : PyDict.t float) (j : PyDict.t (PyDict.t float))
    (st : GameController) : GameController :=
  {| game_uuid := game_uuid st; constraints := constraints st;
     attribute_statistics := attribute_statistics st; N := N st;
     accepted_counts := accepted_counts st;
     remaining_required := remaining_required st;
     R := R st; rejects := rejects st; MAX_REJECTS := MAX_REJECTS st;
     p_a := p; P11 := j |}.

Definition set_game (uuid : string) (cs : list Constraint)
    (stats : AttributeStatistics) (st : GameController) : GameController :=
  {| game_uuid := uuid; constraints := cs;
     attribute_statistics := stats; N := N st;
     accepted_counts := accepted_counts st;
     remaining_required := remaining_required st;
     R := R st; rejects := rejects st; MAX_REJECTS := MAX_REJECTS st;
     p_a := p_a st; P11 := P11 st |}.

(** ** The probability model *)

(** The body of the inner loop of [_initialize_probabilities]: the entry
    [P11[a][b]]. *)
Definition joint_entry (p : PyDict.t float) (corr : PyDict.t (PyDict.t float))
    (a b : string) : result float :=
  if String.eqb a b then PyDict.getitem p a
  else
    row ← PyDict.getitem corr a;
    rho ← PyDict.getitem row b;
    p_a_val ← PyDict.getitem p a;
    p_b_val ← PyDict.getitem p b;
    qa ← Py.int_sub_float 1 p_a_val;
    qb ← Py.int_sub_float 1 p_b_val;
    r ← Py.math_sqrt (p_a_val * qa * p_b_val * qb)%float;
    Ok (rho * r + p_a_val * p_b_val)%float.

Fixpoint joint_row (p : PyDict.t float) (corr : PyDict.t (PyDict.t float))
    (a : string) (attrs : list string) : result (PyDict.t float) :=
  match attrs with
  | [] => Ok []
  | b :: attrs' =>
      v ← joint_entry p corr a b;
      row ← joint_row p corr a attrs';
      Ok ((b, v) :: row)
  end.

Fixpoint joint_table (p : PyDict.t float) (corr : PyDict.t (PyDict.t float))
    (outer attrs : list string) : result (PyDict.t (PyDict.t float)) :=
  match outer with
  | [] => Ok []
  | a :: outer' =>
      row ← joint_row p corr a attrs;
      rows ← joint_table p corr outer' attrs;
      Ok ((a, row) :: rows)
  end.

Definition _initialize_probabilities (st : GameController)
  : result GameController :=
  let p := relativeFrequencies (attribute_statistics st) in
  let corr := correlations (attribute_statistics st) in
  let attrs := PyDict.keys p in
  j ← joint_table p corr attrs attrs;
  Ok (set_probabilities p j st).

(** ** Initial counters *)

Definition _initialize_game_state (st : GameController) : GameController :=
  let attrs := PyDict.keys (p_a st) in
  let zeros : gmap string Z :=
    foldl (fun m a => <[a := 0]> m) ∅ attrs in
  let required : gmap string Z :=
    foldl (fun m c => <[attribute c := minCount c]> m) ∅ (constraints st) in
  set_remaining_required required (set_accepted_counts zeros st).

(** [start], from the answer to the new-game request on: [None] is an
    answer that is not a 200 or does not parse, after which [start]
    returns with the controller untouched. *)
Definition start
    (game_data : option (string * list Constraint * AttributeStatistics))
    (st : GameController) : result GameController :=
  match game_data with
  | None => Ok st
  | Some (game_id, cs, stats) =>
      st' ← _initialize_probabilities (set_game game_id cs stats st);
      Ok (_initialize_game_state st')
  end.

(** ** The decision engine *)

(** [{a: self.R * self.p_a[a] for a in self.p_a.keys()}] *)
Fixpoint expected_future_of (r : Z) (p : PyDict.t float) (attrs : list string)
  : result (PyDict.t float) :=
  match attrs with
  | [] => Ok []
  | a :: attrs' =>
      pa ← PyDict.getitem p a;
      v ← Py.int_mul_float r pa;
      rest ← expected_future_of r p attrs';
      Ok ((a, v) :: rest)
  end.

Definition _compute_expected_future_supply (st : GameController)
  : result (PyDict.t float) :=
  expected_future_of (R st) (p_a st) (PyDict.keys (p_a st)).

(** [max(0, self.remaining_required[a] - self.accepted_counts[a])] *)
Definition remaining_req (st : GameController) (a : string) : result Z :=
  required ← getitem (remaining_required st) a;
  accepted ← getitem (accepted_counts st) a;
  Ok (Z.max 0 (required - accepted)).

(** The weight of one attribute: the body of the loop of
    [_compute_alphas]. *)
Definition alpha (st : GameController) (a : string) : result float :=
  need ← remaining_req st a;
  denom ← Py.int_add_float (R st) epsilon;
  Py.int_div_float need denom.

Fixpoint alphas_of (st : GameController) (attrs : list string)
  : result (PyDict.t float) :=
  match attrs with
  | [] => Ok []
  | a :: attrs' =>
      v ← alpha st a;
      rest ← alphas_of st attrs';
      Ok ((a, v) :: rest)
  end.

Definition _compute_alphas (st : GameController) : result (PyDict.t float) :=
  alphas_of st (PyDict.keys (p_a st)).

(** The loop of [_should_force_accept] over the keys still to visit. *)
Fixpoint force_accept_loop (st : GameController)
    (person_attributes : PyDict.t bool) (expected_future : PyDict.t float)
    (todo : list string) : result bool :=
  match todo with
  | [] => Ok false
  | attr :: todo' =>
      if PyDict.mem attr person_attributes
         && default false (PyDict.get person_attributes attr)
      then
        need ← remaining_req st attr;
        supply ← PyDict.getitem expected_future attr;
        if Py.float_lt_int supply need then Ok true
        else force_accept_loop st person_attributes expected_future todo'
      else force_accept_loop st person_attributes expected_future todo'
  end.

Definition _should_force_accept (st : GameController)
    (person_attributes : PyDict.t bool) (expected_future : PyDict.t float)
  : result bool :=
  force_accept_loop st person_attributes expected_future
    (PyDict.keys person_attributes).

(** The loop of [_compute_score] over the items still to visit. *)
Fixpoint score_loop (alphas : PyDict.t float) (score : Py.num)
    (items : list (string * bool)) : result Py.num :=
  match items with
  | [] => Ok score
  | (attr, has_attr) :: items' =>
      if has_attr && PyDict.mem attr alphas then
        alpha ← PyDict.getitem alphas attr;
        score' ← Py.num_add_float score alpha;
        score_loop alphas score' items'
      else score_loop alphas score items'
  end.

Definition _compute_score (st : GameController)
    (person_attributes : PyDict.t bool) : result Py.num :=
  alphas ← _compute_alphas st;
  score_loop alphas (Py.Int 0) person_attributes.

Definition make_decision (st : GameController) (person_data : Person)
  : result bool :=
  let person_attributes := attributes person_data in
  expected_future ← _compute_expected_future_supply st;
  must_accept ← _should_force_accept st person_attributes expected_future;
  if (must_accept : bool) then Ok true
  else
    score ← _compute_score st person_attributes;
    Ok (Py.num_gt_int score 0 && (0 <? R st)).

(** The loop of [update_state] on an accepted person. *)
Fixpoint count_loop (counts : gmap string Z) (items : list (string * bool))
  : gmap string Z :=
  match items with
  | [] => counts
  | (attr, has_attr) :: items' =>
      match has_attr, counts !! attr with
      | true, Some c => count_loop (<[attr := c + 1]> counts) items'
      | _, _ => count_loop counts items'
      end
  end.

Definition update_state (accepted : bool) (person_attributes : PyDict.t bool)
    (st : GameController) : GameController :=
  if accepted then
    let st' := set_R (R st - 1) st in
    set_accepted_counts (count_loop (accepted_counts st') person_attributes) st'
  else set_rejects (rejects st + 1) st.

(** ** The session driver *)

Record Response := {
  status : string;
  nextPerson : option Person;
  rejectedCount : option Z;
  reason : option string
}.

(** A request of [get_next_person_and_decide]: the person index and the
    decision reported with it, if any. *)
Definition Request : Type := Z * option bool.

(** The game service, as the driver sees it: the answer to the latest
    request given all requests sent so far (latest first); [None] is a
    response that is not a 200 or does not parse. *)
Definition Service : Type := list Request -> option Response.

Record Session := {
  controller : GameController;
  sent : list Request;
  response : option Response
}.

Definition get_next_person_and_decide (service : Service) (s : Session)
    (person_index : Z) (accept : option bool) : Session :=
  let sent' := (person_index, accept) :: sent s in
  {| controller := controller s; sent := sent'; response := service sent' |}.

(** The condition of the [while] loop of [run_game]. *)
Definition loop_guard (s : Session) : bool :=
  match response s with
  | None => false
  | Some r =>
      String.eqb (status r) "running"
      && (0 <? R (controller s))
      && (rejects (controller s) <? MAX_REJECTS (controller s))
  end.

(** One pass through the body of the loop. *)
Definition loop_body (service : Service) (s : Session) : result Session :=
  match response s with
  | None => Raise (KeyError "nextPerson")
  | Some r =>
      match nextPerson r with
      | None => Raise (KeyError "nextPerson")
      | Some person_data =>
          let person_index := personIndex person_data in
          should_accept ← make_decision (controller s) person_data;
          let st' :=
            update_state should_accept (attributes person_data) (controller s) in
          Ok (get_next_person_and_decide service
                {| controller := st'; sent := sent s; response := response s |}
                person_index (Some should_accept))
      end
  end.

Fixpoint run_loop (fuel : nat) (service : Service) (s : Session)
  : result Session :=
  match fuel with
  | O => Ok s
  | S fuel' =>
      if loop_guard s then
        s' ← loop_body service s;
        run_loop fuel' service s'
      else Ok s
  end.

(** Every pass lowers [R] or raises [rejects] by one, so this many passes
    are enough for the guard to fail. *)
Definition passes_left (s : Session) : nat :=
  Z.to_nat (R (controller s)
            + (MAX_REJECTS (controller s) - rejects (controller s))).

Definition run_game (service : Service) (st : GameController)
  : result Session :=
  let s0 :=
    get_next_person_and_decide service
      {| controller := st; sent := []; response := None |} 0 None in
  match response s0 with
  | None => Ok s0
  | Some r =>
      if negb (String.eqb (status r) "running") then Ok s0
      else run_loop (passes_left s0) service s0
  end.

(** The sessions the loop of [run_game] passes through. *)
Inductive reachable (service : Service) (s0 : Session) : Session -> Prop :=
  | reachable_start : reachable service s0 s0
  | reachable_pass s s' :
      reachable service s0 s ->
      loop_guard s = true ->
      loop_body service s = Ok s' ->
      reachable service s0 s'.

(** ** Vocabulary of the properties *)

(** The person carries [a]: [person_attributes[a]] is true. *)
Definition carries (person_attributes : PyDict.t bool) (a : string) : Prop :=
  PyDict.get person_attributes a = Some true.

(** Decide for a person, then apply the decision. *)
Definition process (st : GameController) (person_data : Person)
  : result (bool * GameController) :=
  should_accept ← make_decision st person_data;
  Ok (should_accept, update_state should_accept (attributes person_data) st).

(** The first two steps of [make_decision]: the expected supply, then
    the forced-accept check on it. *)
Definition forced (st : GameController) (person_attributes : PyDict.t bool)
  : result bool :=
  expected_future ← _compute_expected_future_supply st;
  _should_force_accept st person_attributes expected_future.

(** The controller can look [a] up wherever the check indexes by it. *)
Definition tracked (st : GameController) (a : string) : Prop :=
  is_Some (PyDict.get (p_a st) a)
  /\ is_Some (remaining_required st !! a)
  /\ is_Some (accepted_counts st !! a).

(** The expected supply of [a] is below what is still required of it:
    [R * p_a[a] < max(0, remaining_required[a] - accepted_counts[a])]. *)
Definition scarce (st : GameController) (a : string) : Prop :=
  exists (p : float) (required accepted : Z) (supply : float),
    PyDict.get (p_a st) a = Some p
    /\ remaining_required st !! a = Some required
    /\ accepted_counts st !! a = Some accepted
    /\ Py.int_mul_float (R st) p = Ok supply
    /\ Py.float_lt_int supply (Z.max 0 (required - accepted)) = true.

(** The weight of an attribute in the words of the specification:
    [max(0, required - accepted) / (capacity_remaining + 1e-9)], the
    difference taken on integers and the quotient in binary64. *)
Definition weight (required accepted capacity_remaining : Z) : result float :=
  need ← Py.float_of_int (Z.max 0 (required - accepted));
  capacity ← Py.float_of_int capacity_remaining;
  Ok (need / (capacity + 1e-9))%float.

(** The score in the words of the specification: the sum, over the
    attributes the person carries and in the order of the person's
    dict, of their weights, starting from the integer 0; with no table
    of weights and no membership test. *)
Fixpoint score_sum (st : GameController) (score : Py.num)
    (items : list (string * bool)) : result Py.num :=
  match items with
  | [] => Ok score
  | (a, has_attr) :: items' =>
      if has_attr then
        required ← getitem (remaining_required st) a;
        accepted ← getitem (accepted_counts st) a;
        w ← weight required accepted (R st);
        score' ← Py.num_add_float score w;
        score_sum st score' items'
      else score_sum st score items'
  end.


(** [marginal(a)] and [joint(a, b)] of the probability model: [p_a[a]]
    and [P11[a][b]]. *)
Definition marginal (st : GameController) (a : string) : result float :=
  PyDict.getitem (p_a st) a.

Definition joint (st : GameController) (a b : string) : result float :=
  row ← PyDict.getitem (P11 st) a;
  PyDict.getitem row b.

Definition correlation (st : GameController) (a b : string) : result float :=
  row ← PyDict.getitem (correlations (attribute_statistics st)) a;
  PyDict.getitem row b.

(** The number under the square root of [P11[a][b]]. *)
Definition radicand (p_a_val p_b_val : float) : float :=
  (p_a_val * (1 - p_a_val) * p_b_val * (1 - p_b_val))%float.

(** The errors [_initialize_probabilities] can end in. *)
Definition lookup_error (e : exn) : Prop :=
  (exists k, e = KeyError k) \/ e = ValueError.

(** ** Sample sessions *)

(** One attribute with marginal 0.5, of which two are required. *)
Definition one_attribute : AttributeStatistics :=
  {| relativeFrequencies := [("A"%string, 0.5%float)];
     correlations := [("A"%string, [("A"%string, 1%float)])] |}.

Definition scenario_of (capacity : Z) : GameController :=
  {| game_uuid := "game"; 
     constraints := [ {| attribute := "A"; minCount := 2 |} ];
     attribute_statistics := one_attribute;
     N := 1000;
     accepted_counts := {[ "A"%string := 0 ]};
     remaining_required := {[ "A"%string := 2 ]};
     R := capacity; rejects := 0; MAX_REJECTS := 20000;
     p_a := [("A"%string, 0.5%float)];
     P11 := [("A"%string, [("A"%string, 0.5%float)])] |}.

Definition person_of (attrs : PyDict.t bool) : Person :=
  {| personIndex := 0; attributes := attrs |}.

(** Two attributes with a symmetric correlation matrix. *)
Definition two_attributes (p q rho : float) : AttributeStatistics :=
  {| relativeFrequencies := [("A"%string, p); ("B"%string, q)];
     correlations :=
       [("A"%string, [("A"%string, 1%float); ("B"%string, rho)]);
        ("B"%string, [("A"%string, rho); ("B"%string, 1%float)])] |}.

(** Statistics with "A" and "B" but a constraint on "A" only. *)
Definition unconstrained_B : GameController :=
  {| game_uuid := "game";
     constraints := [ {| attribute := "A"; minCount := 1 |} ];
     attribute_statistics := two_attributes 0.5 0.5 0;
     N := 1000;
     accepted_counts := {[ "A"%string := 0; "B"%string := 0 ]};
     remaining_required := {[ "A"%string := 1 ]};
     R := 3; rejects := 0; MAX_REJECTS := 20000;
     p_a := [("A"%string, 0.5%float); ("B"%string, 0.5%float)];
     P11 := [("A"%string, [("A"%string, 0.5%float); ("B"%string, 0.25%float)]);
             ("B"%string, [("A"%string, 0.25%float); ("B"%string, 0.5%float)])]
  |}.

(** A service that sends two persons carrying "A" and then reports the
    game completed. *)
Definition two_persons : Service := fun sent =>
  if (length sent <=? 2)%nat then
    Some {| status := "running";
            nextPerson :=
              Some {| personIndex := Z.of_nat (length sent);
                      attributes := [("A"%string, true)] |};
            rejectedCount := None; reason := None |}
  else
    Some {| status := "completed"; nextPerson := None;
            rejectedCount := Some 0; reason := None |}.

(** ** Binary64 rounding, on integers *)

(** The quotient of [m] by [2 ^ n], rounded to the nearest integer, ties
    to even: what [round_nearest_even] makes of [m] shifted right [n]
    times. *)
Definition rne (m n : Z) : Z :=
  let q := m / 2 ^ n in
  match 2 * (m mod 2 ^ n) ?= 2 ^ n with
  | Lt => q
  | Eq => if Z.even q then q else q + 1
  | Gt => q + 1
  end.

(** The float [binary_round_aux] returns for a rounded mantissa [r] at
    exponent [E]. *)
Definition round_result (s : bool) (r E : Z) : spec_float :=
  if r <? 2 ^ 53 then
    match r with
    | Z0 => S754_zero s
    | Z.pos mr => if E <=? 971 then S754_finite s mr E else S754_infinity s
    | Z.neg _ => S754_nan
    end
  else if E + 1 <=? 971 then S754_finite s (2 ^ 52)%positive (E + 1)
       else S754_infinity s.

(** With [2 ^ - K] as the unit: the exponent binary64 gives a number of
    the size of [V], [V] rounded to a multiple of it, and the same for a
    signed [v]. *)
Definition round_exp (K V : Z) : Z := Z.max (Z.log2 V + 1 - 53) (K - 1074).

Definition round_mag (K V : Z) : Z :=
  rne V (round_exp K V) * 2 ^ round_exp K V.

Definition round_val (K v : Z) : Z := Z.sgn v * round_mag K (Z.abs v).

(** Integers with the two infinities. *)
Inductive ext :=
  | NegInf
  | Finite (v : Z)
  | PosInf.

Definition ext_le (a b : ext) : Prop :=
  match a, b with
  | NegInf, _ => True
  | _, PosInf => True
  | Finite x, Finite y => x <= y
  | _, _ => False
  end.

Definition ext_lt_int (K : Z) (v : ext) (n : Z) : bool :=
  match v with
  | NegInf => true
  | Finite v => v <? n * 2 ^ K
  | PosInf => false
  end.

(** [v] rounded to binary64, overflow included. *)
Definition round_ext (K v : Z) : ext :=
  if round_mag K (Z.abs v) <? 2 ^ (1024 + K) then Finite (round_val K v)
  else if v <? 0 then NegInf else PosInf.

Definition signed (s : bool) (v : Z) : Z := if s then - v else v.

(** The value of a float in units of [2 ^ - K]; [None] is a NaN. *)
Definition xval (K : Z) (x : spec_float) : option ext :=
  match x with
  | S754_nan => None
  | S754_zero _ => Some (Finite 0)
  | S754_infinity s => Some (if s then NegInf else PosInf)
  | S754_finite s m e => Some (Finite (signed s (Z.pos m) * 2 ^ (e + K)))
  end.

(** The value of a finite float in units of [2 ^ -1074], an integer. *)
Definition sval (x : spec_float) : Z :=
  match x with
  | S754_finite s m e => signed s (Z.pos m) * 2 ^ (e + 1074)
  | _ => 0
  end.

Definition is_finite_SF (x : spec_float) : bool :=
  match x with
  | S754_zero _ | S754_finite _ _ _ => true
  | _ => false
  end.

(** ** Vocabulary of the further properties *)

(** A float that is greater than zero, and one that is not below it
    (a NaN is neither). *)
Definition is_positive (x : spec_float) : bool :=
  match x with
  | S754_finite false _ _ | S754_infinity false => true
  | _ => false
  end.

Definition is_nonneg (x : spec_float) : bool :=
  match x with
  | S754_zero _ | S754_finite false _ _ | S754_infinity false => true
  | _ => false
  end.

(** The largest finite binary64 float and [1e-9], in units of
    [2 ^ -1074]. *)
Definition top_scaled : Z := (2 ^ 53 - 1) * 2 ^ 2045.
Definition eps_scaled : Z := 4835703278458517 * 2 ^ 992.

(** More of [a] is required than was accepted. *)
Definition needed (st : GameController) (a : string) : Prop :=
  exists required accepted,
    remaining_required st !! a = Some required
    /\ accepted_counts st !! a = Some accepted
    /\ accepted < required.

(** A score that is the integer 0 or a float that is not negative. *)
Definition score_nonneg (score : Py.num) : Prop :=
  match score with
  | Py.Int z => z = 0
  | Py.Float g => is_nonneg (Prim2SF g) = true
  end.

(** The items of a person's dict whose value is true. *)
Definition carried_items (person_attributes : PyDict.t bool)
  : PyDict.t bool :=
  List.filter snd person_attributes.

(** The number of requests in [sent] that report the decision [accept]. *)
Fixpoint reported (accept : bool) (sent : list Request) : Z :=
  match sent with
  | [] => 0
  | (_, Some b) :: sent' =>
      (if Bool.eqb b accept then 1 else 0) + reported accept sent'
  | (_, None) :: sent' => reported accept sent'
  end.

(** The session after the first request of [run_game]. *)
Definition first_request (service : Service) (st : GameController)
  : Session :=
  get_next_person_and_decide service
    {| controller := st; sent := []; response := None |} 0 None.

(** Every person the service presents is a dict: its keys are distinct. *)
Definition serves_dicts (service : Service) : Prop :=
  forall sent r p,
    service sent = Some r -> nextPerson r = Some p ->
    NoDup (PyDict.keys (attributes p)).

(** The service presents persons with attributes of the statistics
    only, and a person with every response that says "running". *)
Definition serves_known (service : Service) (st : GameController) : Prop :=
  forall sent r,
    service sent = Some r ->
    (status r = "running"%string -> is_Some (nextPerson r))
    /\ forall p a,
         nextPerson r = Some p -> carries (attributes p) a ->
         a ∈ PyDict.keys (p_a st).

(** [str(b)] of a bool, and [s.lower()] on ASCII. *)
Definition str_of_bool (b : bool) : string :=
  if b then "True" else "False".

Definition lower_char (c : ascii) : ascii :=
  let n := nat_of_ascii c in
  if (65 <=? n)%nat && (n <=? 90)%nat then ascii_of_nat (n + 32) else c.

Fixpoint lower (s : string) : string :=
  match s with
  | EmptyString => EmptyString
  | String c s' => String (lower_char c) (lower s')
  end.

(** The URL [get_next_person_and_decide] requests.  [str] of an int is
    its decimal notation; CPython refuses to print an int of more than
    4300 digits, and the properties below stay under that. *)
Definition decide_and_next_url (game_uuid : string) (person_index : Z)
    (accept : option bool) : string :=
  let url :=
    "https://berghain.challenges.listenlabs.ai/decide-and-next?gameId="
    +:+ game_uuid +:+ "&personIndex=" +:+ pretty person_index in
  match accept with
  | None => url
  | Some b => url +:+ "&accept=" +:+ lower (str_of_bool b)
  end.

(** No character of [s] is an ampersand. *)
Fixpoint no_ampersand (s : string) : bool :=
  match s with
  | EmptyString => true
  | String c s' => negb (Ascii.eqb c "&") && no_ampersand s'
  end.

(** The part of a query after the digits: nothing, or a parameter. *)
Definition parameter (s : string) : Prop :=
  s = EmptyString \/ exists s', s = String "&" s'.

(** * Properties *)

(** ** The error monad and dicts *)

Lemma bind_Ok {A B} (m : result A) (f : A -> result B) (b : B) :
  m ≫= f = Ok b <-> exists a, m = Ok a /\ f a = Ok b.
Proof.
  destruct m as [a|e]; simpl; split.
  - intros H. exists a. auto.
  - intros (a' & Ha & Hf). congruence.
  - discriminate.
  - intros (a' & Ha & _). discriminate.
Qed.

Lemma bind_Raise {A B} (m : result A) (f : A -> result B) (e : exn) :
  m ≫= f = Raise e <-> m = Raise e \/ exists a, m = Ok a /\ f a = Raise e.
Proof.
  destruct m as [a|e']; simpl; split.
  - intros H. right. exists a. auto.
  - intros [H|(a' & Ha & Hf)]; congruence.
  - intros H. left. congruence.
  - intros [H|(a' & Ha & _)]; congruence.
Qed.

Ltac unbind H :=
  let a := fresh "v" in
  let Ha := fresh "Hv" in
  apply bind_Ok in H; destruct H as (a & Ha & H).

Lemma getitem_Ok {V} (d : gmap string V) (k : string) (v : V) :
  getitem d k = Ok v <-> d !! k = Some v.
Proof.
  unfold getitem. destruct (d !! k); split; congruence.
Qed.

Lemma getitem_Raise {V} (d : gmap string V) (k : string) (e : exn) :
  getitem d k = Raise e <-> d !! k = None /\ e = KeyError k.
Proof.
  unfold getitem. destruct (d !! k); split; try congruence.
  - intros [? _]. congruence.
  - intros H. split; congruence.
  - intros [_ ->]. reflexivity.
Qed.

Lemma PyDict_getitem_Ok {V} (d : PyDict.t V) (k : string) (v : V) :
  PyDict.getitem d k = Ok v <-> PyDict.get d k = Some v.
Proof.
  unfold PyDict.getitem. destruct (PyDict.get d k); split; congruence.
Qed.

Lemma PyDict_getitem_Raise {V} (d : PyDict.t V) (k : string) (e : exn) :
  PyDict.getitem d k = Raise e <-> PyDict.get d k = None /\ e = KeyError k.
Proof.
  unfold PyDict.getitem. destruct (PyDict.get d k); split; try congruence.
  - intros [? _]. congruence.
  - intros H. split; congruence.
  - intros [_ ->]. reflexivity.
Qed.

Lemma PyDict_get_keys {V} (d : PyDict.t V) (k : string) :
  k ∈ PyDict.keys d <-> is_Some (PyDict.get d k).
Proof.
  induction d as [|[k' v] d IH]; simpl.
  - split; [intros H; inversion H | intros [? H]; discriminate].
  - destruct (String.eqb_spec k' k) as [->|Hne].
    + split; [eauto | intros _; left].
    + rewrite <- IH. split.
      * intros H. inversion H; subst; [congruence | assumption].
      * intros H. right. exact H.
Qed.

Lemma PyDict_get_None {V} (d : PyDict.t V) (k : string) :
  k ∉ PyDict.keys d <-> PyDict.get d k = None.
Proof.
  rewrite PyDict_get_keys, <- eq_None_not_Some. reflexivity.
Qed.

Lemma PyDict_mem_true {V} (d : PyDict.t V) (k : string) :
  PyDict.mem k d = true <-> k ∈ PyDict.keys d.
Proof.
  rewrite PyDict_get_keys. unfold PyDict.mem.
  destruct (PyDict.get d k); split; eauto; try discriminate.
  intros [? H]; discriminate.
Qed.

Lemma PyDict_get_app_fresh {V} (pre post : PyDict.t V) (k : string) :
  k ∉ PyDict.keys pre -> PyDict.get (pre ++ post) k = PyDict.get post k.
Proof.
  induction pre as [|[k' v] pre IH]; simpl; [reflexivity|].
  intros Hk. destruct (String.eqb_spec k' k) as [->|Hne].
  - exfalso. apply Hk. left.
  - apply IH. intros Hin. apply Hk. right. exact Hin.
Qed.

(** ** The state transition *)

Lemma count_loop_fresh (items : PyDict.t bool) (counts : gmap string Z)
    (a : string) :
  a ∉ PyDict.keys items -> count_loop counts items !! a = counts !! a.
Proof.
  revert counts. induction items as [|[k h] items IH]; intros counts Ha;
    simpl; [reflexivity|].
  assert (k <> a) by (intros ->; apply Ha; left).
  assert (a ∉ PyDict.keys items) by (intros Hin; apply Ha; right; exact Hin).
  destruct h, (counts !! k) eqn:Hk; rewrite IH by assumption;
    try reflexivity.
  apply lookup_insert_ne. assumption.
Qed.

Lemma count_loop_lookup (items : PyDict.t bool) (counts : gmap string Z)
    (a : string) :
  NoDup (PyDict.keys items) ->
  count_loop counts items !! a =
    match counts !! a, PyDict.get items a with
    | Some c, Some true => Some (c + 1)
    | old, _ => old
    end.
Proof.
  revert counts. induction items as [|[k h] items IH]; intros counts Hnd.
  - simpl. destruct (counts !! a); reflexivity.
  - simpl in Hnd. apply NoDup_cons in Hnd as [Hk Hnd]. simpl.
    destruct (String.eqb_spec k a) as [->|Hne].
    + destruct h, (counts !! a) eqn:Ha;
        rewrite count_loop_fresh by assumption; try rewrite Ha; try reflexivity.
      apply lookup_insert_eq.
    + destruct h, (counts !! k) eqn:Hck; rewrite IH by assumption;
        try reflexivity.
      rewrite lookup_insert_ne by assumption. reflexivity.
Qed.

(** C4.  Processing a person either takes a slot ([R] falls by one and
    the count of every carried attribute the controller counts rises by
    one) or counts a rejection ([rejects] rises by one), never both and
    never neither, and leaves every other field as it was. *)
Theorem process_changes_one_counter (st st' : GameController)
    (person_data : Person) (should_accept : bool) :
  NoDup (PyDict.keys (attributes person_data)) ->
  process st person_data = Ok (should_accept, st') ->
  ((should_accept = true
    /\ R st' = R st - 1 /\ rejects st' = rejects st
    /\ forall a,
         accepted_counts st' !! a =
           match accepted_counts st !! a,
                 PyDict.get (attributes person_data) a with
           | Some c, Some true => Some (c + 1)
           | old, _ => old
           end)
   \/ (should_accept = false
       /\ R st' = R st /\ rejects st' = rejects st + 1
       /\ accepted_counts st' = accepted_counts st))
  /\ game_uuid st' = game_uuid st
  /\ constraints st' = constraints st
  /\ attribute_statistics st' = attribute_statistics st
  /\ N st' = N st
  /\ remaining_required st' = remaining_required st
  /\ MAX_REJECTS st' = MAX_REJECTS st
  /\ p_a st' = p_a st
  /\ P11 st' = P11 st.
Proof.
  intros Hnd Hp. unfold process in Hp. unbind Hp.
  injection Hp as <- <-.
  destruct v; simpl.
  - split; [left|repeat split].
    repeat split. intros a. apply count_loop_lookup. exact Hnd.
  - split; [right|]; repeat split.
Qed.

(** ** The driver loop *)

Lemma loop_guard_true (s : Session) :
  loop_guard s = true <->
  (exists r, response s = Some r /\ status r = "running"%string)
  /\ 0 < R (controller s)
  /\ rejects (controller s) < MAX_REJECTS (controller s).
Proof.
  unfold loop_guard. destruct (response s) as [r|].
  - rewrite !andb_true_iff, String.eqb_eq, !Z.ltb_lt. split.
    + intros [[Hs Hr] Hj]. eauto.
    + intros [(r' & Hr' & Hs) [Hr Hj]]. injection Hr' as <-. auto.
  - split; [discriminate|]. intros [(r & Hr & _) _]. discriminate.
Qed.

Lemma update_state_counters (accepted : bool) (attrs : PyDict.t bool)
    (st : GameController) :
  R (update_state accepted attrs st) = (if accepted then R st - 1 else R st)
  /\ rejects (update_state accepted attrs st) =
       (if accepted then rejects st else rejects st + 1)
  /\ MAX_REJECTS (update_state accepted attrs st) = MAX_REJECTS st.
Proof. destruct accepted; repeat split. Qed.

Lemma loop_body_counters (service : Service) (s s' : Session) :
  loop_body service s = Ok s' ->
  exists accepted : bool,
    R (controller s') =
      (if accepted then R (controller s) - 1 else R (controller s))
    /\ rejects (controller s') =
         (if accepted then rejects (controller s)
          else rejects (controller s) + 1)
    /\ MAX_REJECTS (controller s') = MAX_REJECTS (controller s).
Proof.
  unfold loop_body. destruct (response s) as [r|]; [|discriminate].
  destruct (nextPerson r) as [person_data|]; [|discriminate].
  intros H. unbind H. injection H as <-. exists v. simpl.
  apply update_state_counters.
Qed.

Lemma reachable_capacity (service : Service) (s0 s : Session) :
  0 <= R (controller s0) ->
  reachable service s0 s ->
  0 <= R (controller s)
  /\ MAX_REJECTS (controller s) = MAX_REJECTS (controller s0).
Proof.
  intros H0 Hr. induction Hr as [|s s' _ [IHR IHM] Hg Hb]; [auto|].
  apply loop_guard_true in Hg as (_ & HR & _).
  apply loop_body_counters in Hb as ([|] & -> & _ & ->); lia.
Qed.

Lemma run_loop_reachable (service : Service) (fuel : nat) (s0 s s' : Session) :
  reachable service s0 s ->
  run_loop fuel service s = Ok s' ->
  reachable service s0 s'.
Proof.
  revert s. induction fuel as [|fuel IH]; intros s Hr; simpl.
  - intros [= <-]. exact Hr.
  - destruct (loop_guard s) eqn:Hg; [|intros [= <-]; exact Hr].
    intros H. unbind H. eapply IH; [|exact H].
    eapply reachable_pass; eassumption.
Qed.

Lemma run_loop_exits (service : Service) (fuel : nat) (s s' : Session) :
  (passes_left s <= fuel)%nat ->
  run_loop fuel service s = Ok s' ->
  loop_guard s' = false.
Proof.
  revert s. induction fuel as [|fuel IH]; intros s Hfuel; simpl.
  - intros [= <-]. destruct (loop_guard s) eqn:Hg; [|reflexivity].
    apply loop_guard_true in Hg as (_ & HR & Hj).
    unfold passes_left in Hfuel. lia.
  - destruct (loop_guard s) eqn:Hg; [|intros [= <-]; exact Hg].
    intros H. unbind H. apply (IH v); [|exact H].
    apply loop_guard_true in Hg as (_ & HR & Hj).
    apply loop_body_counters in Hv as ([|] & HR' & Hj' & HM');
      unfold passes_left in *; rewrite HR', Hj', HM'; lia.
Qed.

Lemma start_counters
    (game_data : option (string * list Constraint * AttributeStatistics))
    (st st' : GameController) :
  start game_data st = Ok st' ->
  R st' = R st /\ rejects st' = rejects st
  /\ MAX_REJECTS st' = MAX_REJECTS st.
Proof.
  unfold start. destruct game_data as [[[game_id cs] stats]|].
  - intros H. unbind H. injection H as <-.
    unfold _initialize_probabilities in Hv. unbind Hv. injection Hv as <-.
    repeat split.
  - intros [= <-]. repeat split.
Qed.

(** C5.  The loop of [run_game] makes a pass only while the last response
    says "running", a slot is left and fewer than [MAX_REJECTS] persons
    were rejected; [MAX_REJECTS] is 20000 and [R] is 1000 when the game
    starts.  So [R] is never negative in a session the loop passes
    through, and once [R] is 0 the loop decides nobody else. *)
Theorem run_game_loop_guard (service : Service) (st : GameController) :
  0 <= R st ->
  let s0 :=
    get_next_person_and_decide service
      {| controller := st; sent := []; response := None |} 0 None in
  (forall game_data st',
     start game_data init = Ok st' ->
     R st' = 1000 /\ rejects st' = 0 /\ MAX_REJECTS st' = 20000)
  /\ (forall s,
        loop_guard s = true <->
        (exists r, response s = Some r /\ status r = "running"%string)
        /\ 0 < R (controller s)
        /\ rejects (controller s) < MAX_REJECTS (controller s))
  /\ (forall s fuel,
        loop_guard s = false -> run_loop fuel service s = Ok s)
  /\ (forall s,
        reachable service s0 s ->
        0 <= R (controller s)
        /\ MAX_REJECTS (controller s) = MAX_REJECTS st
        /\ (R (controller s) = 0 ->
            loop_guard s = false
            /\ forall fuel, run_loop fuel service s = Ok s))
  /\ (forall s_end,
        run_game service st = Ok s_end ->
        reachable service s0 s_end /\ loop_guard s_end = false).
Proof.
  intros HR s0.
  assert (Hstop : forall s fuel,
             loop_guard s = false -> run_loop fuel service s = Ok s).
  { intros s [|fuel] Hg; simpl; [reflexivity|]. rewrite Hg. reflexivity. }
  split; [intros game_data st' Hs; apply (start_counters _ _ _ Hs)|].
  split; [exact loop_guard_true|].
  split; [exact Hstop|]. split.
  - intros s Hs. destruct (reachable_capacity service s0 s HR Hs) as [H1 H2].
    split; [exact H1|]. split; [exact H2|]. intros Hz.
    assert (Hg : loop_guard s = false).
    { destruct (loop_guard s) eqn:Hg; [|reflexivity].
      apply loop_guard_true in Hg as (_ & Hpos & _). lia. }
    split; [exact Hg|]. intros fuel. apply Hstop. exact Hg.
  - intros s_end. unfold run_game. fold s0.
    destruct (response s0) as [r|] eqn:Hresp.
    + destruct (String.eqb (status r) "running") eqn:Hst; simpl.
      * intros H. split.
        -- eapply run_loop_reachable; [apply reachable_start|exact H].
        -- eapply run_loop_exits; [|exact H]. reflexivity.
      * intros [= <-]. split; [apply reachable_start|].
        unfold loop_guard. rewrite Hresp, Hst. reflexivity.
    + intros [= <-]. split; [apply reachable_start|].
      unfold loop_guard. rewrite Hresp. reflexivity.
Qed.

(** ** The forced-accept check *)

Lemma remaining_req_Ok (st : GameController) (a : string) (need : Z) :
  remaining_req st a = Ok need <->
  exists required accepted,
    remaining_required st !! a = Some required
    /\ accepted_counts st !! a = Some accepted
    /\ need = Z.max 0 (required - accepted).
Proof.
  unfold remaining_req. split.
  - intros H. unbind H. unbind H. injection H as <-.
    apply getitem_Ok in Hv, Hv0. eauto.
  - intros (r & c & Hr & Hc & ->).
    apply getitem_Ok in Hr, Hc. rewrite Hr, Hc. reflexivity.
Qed.

Lemma remaining_req_Raise (st : GameController) (a : string) (e : exn) :
  remaining_req st a = Raise e -> e = KeyError a.
Proof.
  unfold remaining_req. intros H.
  apply bind_Raise in H as [H|(r & _ & H)].
  - apply getitem_Raise in H as [_ ->]. reflexivity.
  - apply bind_Raise in H as [H|(c & _ & H)]; [|discriminate].
    apply getitem_Raise in H as [_ ->]. reflexivity.
Qed.

Lemma make_decision_forced (st : GameController) (person_data : Person) :
  make_decision st person_data =
    must_accept ← forced st (attributes person_data);
    if (must_accept : bool) then Ok true
    else
      score ← _compute_score st (attributes person_data);
      Ok (Py.num_gt_int score 0 && (0 <? R st)).
Proof.
  unfold make_decision, forced.
  destruct (_compute_expected_future_supply st); reflexivity.
Qed.

Lemma expected_future_get (r : Z) (p : PyDict.t float) (attrs : list string)
    (ef : PyDict.t float) (a : string) (v : float) :
  expected_future_of r p attrs = Ok ef ->
  PyDict.get ef a = Some v <->
  a ∈ attrs /\ exists pa, PyDict.get p a = Some pa
                          /\ Py.int_mul_float r pa = Ok v.
Proof.
  revert ef. induction attrs as [|a0 attrs IH]; intros ef; simpl.
  - intros [= <-]. simpl. split; [discriminate|]. intros [H _]. inversion H.
  - intros H. unbind H. unbind H. unbind H. injection H as <-.
    apply PyDict_getitem_Ok in Hv. simpl.
    destruct (String.eqb_spec a0 a) as [->|Hne].
    + split.
      * intros [= <-]. split; [left|eauto].
      * intros [_ (pa & Hpa & Hmul)]. congruence.
    + rewrite (IH v2 Hv1). split.
      * intros [Hin Hrest]. split; [right; exact Hin|exact Hrest].
      * intros [Hin Hrest]. split; [|exact Hrest].
        inversion Hin; subst; [congruence|assumption].
Qed.

Lemma expected_future_returns (r : Z) (p : PyDict.t float)
    (attrs : list string) (x : float) :
  Py.float_of_int r = Ok x ->
  (forall a, a ∈ attrs -> a ∈ PyDict.keys p) ->
  returns (expected_future_of r p attrs).
Proof.
  intros Hx. induction attrs as [|a0 attrs IH]; intros Hin; simpl.
  - eexists; reflexivity.
  - destruct (proj1 (PyDict_get_keys p a0) (Hin a0 ltac:(left))) as [pa Hpa].
    apply PyDict_getitem_Ok in Hpa. rewrite Hpa. simpl.
    unfold Py.int_mul_float. rewrite Hx. simpl.
    destruct IH as [rest ->]; [intros a Ha; apply Hin; right; exact Ha|].
    eexists; reflexivity.
Qed.

Lemma carried_cond (person_attributes : PyDict.t bool) (attr : string) :
  PyDict.mem attr person_attributes
  && default false (PyDict.get person_attributes attr) = true
  <-> carries person_attributes attr.
Proof.
  unfold carries, PyDict.mem.
  destruct (PyDict.get person_attributes attr) as [[|]|]; simpl;
    split; congruence.
Qed.

Lemma force_accept_loop_true (st : GameController) (pa : PyDict.t bool)
    (ef : PyDict.t float) (todo : list string) :
  force_accept_loop st pa ef todo = Ok true ->
  exists a need supply,
    a ∈ todo /\ carries pa a /\ remaining_req st a = Ok need
    /\ PyDict.get ef a = Some supply
    /\ Py.float_lt_int supply need = true.
Proof.
  induction todo as [|attr todo IH]; simpl; [discriminate|].
  destruct (PyDict.mem attr pa && default false (PyDict.get pa attr))
    eqn:Hc.
  - apply carried_cond in Hc. intros H. unbind H. unbind H.
    apply PyDict_getitem_Ok in Hv0.
    destruct (Py.float_lt_int v0 v) eqn:Hlt.
    + exists attr, v, v0. repeat split; auto. left.
    + destruct (IH H) as (a & need & supply & Hin & Hrest).
      exists a, need, supply. split; [right; exact Hin|exact Hrest].
  - intros H. destruct (IH H) as (a & need & supply & Hin & Hrest).
    exists a, need, supply. split; [right; exact Hin|exact Hrest].
Qed.

Lemma force_accept_loop_false (st : GameController) (pa : PyDict.t bool)
    (ef : PyDict.t float) (todo : list string) :
  force_accept_loop st pa ef todo = Ok false ->
  forall a, a ∈ todo -> carries pa a ->
  exists need supply,
    remaining_req st a = Ok need /\ PyDict.get ef a = Some supply
    /\ Py.float_lt_int supply need = false.
Proof.
  induction todo as [|attr todo IH]; simpl.
  - intros _ a Ha. inversion Ha.
  - destruct (PyDict.mem attr pa && default false (PyDict.get pa attr))
      eqn:Hc.
    + intros H. unbind H. unbind H. apply PyDict_getitem_Ok in Hv0.
      destruct (Py.float_lt_int v0 v) eqn:Hlt; [discriminate|].
      intros a Ha Hca. inversion Ha; subst; [eauto|]. apply IH; assumption.
    + intros H a Ha Hca. inversion Ha; subst.
      * apply carried_cond in Hca. congruence.
      * apply IH; assumption.
Qed.

Lemma force_accept_loop_short_circuit (st : GameController)
    (pa : PyDict.t bool) (ef : PyDict.t float) (pre post : list string)
    (a : string) (need : Z) (supply : float) :
  (forall b, b ∈ pre -> carries pa b ->
     returns (remaining_req st b) /\ is_Some (PyDict.get ef b)) ->
  carries pa a ->
  remaining_req st a = Ok need ->
  PyDict.get ef a = Some supply ->
  Py.float_lt_int supply need = true ->
  force_accept_loop st pa ef (pre ++ a :: post) = Ok true.
Proof.
  intros Hpre Ha Hneed Hsup Hlt.
  induction pre as [|b pre IH]; simpl.
  - apply carried_cond in Ha. rewrite Ha, Hneed. simpl.
    apply PyDict_getitem_Ok in Hsup. rewrite Hsup. simpl.
    rewrite Hlt. reflexivity.
  - assert (IH' : force_accept_loop st pa ef (pre ++ a :: post) = Ok true).
    { apply IH. intros c Hc. apply Hpre. right. exact Hc. }
    destruct (PyDict.mem b pa && default false (PyDict.get pa b)) eqn:Hc;
      [|exact IH'].
    apply carried_cond in Hc.
    destruct (Hpre b ltac:(left) Hc) as [[nb ->] [sb Hsb]].
    apply PyDict_getitem_Ok in Hsb. simpl. rewrite Hsb. simpl.
    destruct (Py.float_lt_int sb nb); [reflexivity|exact IH'].
Qed.

Lemma scarce_supply (st : GameController) (a : string) :
  scarce st a ->
  exists need supply,
    remaining_req st a = Ok need
    /\ (forall ef, _compute_expected_future_supply st = Ok ef ->
                   PyDict.get ef a = Some supply)
    /\ Py.float_lt_int supply need = true
    /\ returns (_compute_expected_future_supply st).
Proof.
  intros (p & r & c & supply & Hp & Hr & Hc & Hmul & Hlt).
  exists (Z.max 0 (r - c)), supply. split; [|split; [|split]].
  - apply remaining_req_Ok. eauto.
  - intros ef Hef. eapply expected_future_get; [exact Hef|].
    split; [apply PyDict_get_keys; eauto|eauto].
  - exact Hlt.
  - unfold Py.int_mul_float in Hmul. unbind Hmul.
    eapply expected_future_returns; [exact Hv|auto].
Qed.

Lemma tracked_supply (st : GameController) (ef : PyDict.t float) (b : string) :
  _compute_expected_future_supply st = Ok ef ->
  PyDict.keys (p_a st) <> [] ->
  tracked st b ->
  returns (remaining_req st b) /\ is_Some (PyDict.get ef b).
Proof.
  intros Hef Hne ([p Hp] & [r Hr] & [c Hc]). split.
  - exists (Z.max 0 (r - c)). apply remaining_req_Ok. eauto.
  - unfold _compute_expected_future_supply in Hef.
    destruct (Py.int_mul_float (R st) p) as [v|e] eqn:Hmul.
    + exists v. eapply expected_future_get; [exact Hef|].
      split; [apply PyDict_get_keys; eauto|eauto].
    + exfalso. destruct (PyDict.keys (p_a st)) as [|a0 attrs] eqn:Hk;
        [congruence|].
      simpl in Hef. unbind Hef. unbind Hef.
      unfold Py.int_mul_float in Hv0, Hmul.
      destruct (Py.float_of_int (R st)); discriminate.
Qed.

Lemma forced_false_tracked (st : GameController) (pa : PyDict.t bool) :
  forced st pa = Ok false ->
  forall a, carries pa a -> tracked st a.
Proof.
  unfold forced, _should_force_accept. intros H a Ha. unbind H.
  assert (Hin : a ∈ PyDict.keys pa)
    by (apply PyDict_get_keys; eexists; exact Ha).
  destruct (force_accept_loop_false _ _ _ _ H a Hin Ha)
    as (need & supply & Hneed & Hsup & _).
  apply remaining_req_Ok in Hneed as (r & c & Hr & Hc & _).
  eapply expected_future_get in Hsup as [_ (p & Hp & _)]; [|exact Hv].
  repeat split; eauto.
Qed.

Lemma force_accept_loop_returns (st : GameController) (pa : PyDict.t bool)
    (ef : PyDict.t float) (todo : list string) :
  (forall b, b ∈ todo -> carries pa b ->
     returns (remaining_req st b) /\ is_Some (PyDict.get ef b)) ->
  returns (force_accept_loop st pa ef todo).
Proof.
  induction todo as [|b todo IH]; intros Hall; simpl.
  - eexists. reflexivity.
  - assert (IH' : returns (force_accept_loop st pa ef todo)).
    { apply IH. intros c Hc. apply Hall. right. exact Hc. }
    destruct (PyDict.mem b pa && default false (PyDict.get pa b)) eqn:Hc;
      [|exact IH'].
    apply carried_cond in Hc.
    destruct (Hall b ltac:(left) Hc) as [[nb ->] [sb Hsb]].
    apply PyDict_getitem_Ok in Hsb. simpl. rewrite Hsb. simpl.
    destruct (Py.float_lt_int sb nb); [eexists; reflexivity|exact IH'].
Qed.

(** The check returns when every attribute the person carries is
    tracked. *)
Lemma forced_returns (st : GameController) (pa : PyDict.t bool) :
  returns (_compute_expected_future_supply st) ->
  (forall b, carries pa b -> tracked st b) ->
  returns (forced st pa).
Proof.
  intros [ef Hef] Hall. unfold forced, _should_force_accept. rewrite Hef.
  simpl. apply force_accept_loop_returns. intros b _ Hb.
  pose proof (Hall b Hb) as Ht.
  eapply tracked_supply; [exact Hef| |exact Ht].
  destruct Ht as ([p Hp] & _).
  assert (Hin : b ∈ PyDict.keys (p_a st)) by (apply PyDict_get_keys; eauto).
  intros Hnil. rewrite Hnil in Hin. inversion Hin.
Qed.

(** A person the check accepts carries a scarce attribute. *)
Lemma forced_true_scarce (st : GameController) (pa : PyDict.t bool) :
  forced st pa = Ok true -> exists a, carries pa a /\ scarce st a.
Proof.
  unfold forced, _should_force_accept. intros H. unbind H.
  apply force_accept_loop_true in H
    as (a & need & supply & _ & Hca & Hneed & Hsup & Hlt).
  exists a. split; [exact Hca|].
  apply remaining_req_Ok in Hneed as (r & c & Hr & Hc & ->).
  eapply expected_future_get in Hsup as [_ (p & Hp & Hmul)]; [|exact Hv].
  exists p, r, c, supply. auto.
Qed.

(** The check accepts at the first scarce attribute it reaches. *)
Lemma forced_at_first_scarce (st : GameController) (pa : PyDict.t bool)
    (pre post : list string) (a : string) :
  PyDict.keys pa = pre ++ a :: post ->
  (forall b, b ∈ pre -> carries pa b -> tracked st b) ->
  carries pa a ->
  scarce st a ->
  forced st pa = Ok true.
Proof.
  intros Hkeys Hpre Ha Hsc.
  assert (Hne : PyDict.keys (p_a st) <> []).
  { destruct Hsc as (p & _ & _ & _ & Hp & _).
    assert (Hin : a ∈ PyDict.keys (p_a st))
      by (apply PyDict_get_keys; eauto).
    intros Hnil. rewrite Hnil in Hin. inversion Hin. }
  destruct (scarce_supply st a Hsc)
    as (need & supply & Hneed & Hsup & Hlt & [ef Hef]).
  unfold forced, _should_force_accept. rewrite Hef, Hkeys. simpl.
  eapply force_accept_loop_short_circuit; eauto.
  intros b Hb Hcb. eapply tracked_supply; eauto.
Qed.

Lemma forced_steps (st : GameController) (pa : PyDict.t bool)
    (expected_future : PyDict.t float) (must_accept : bool) :
  _compute_expected_future_supply st = Ok expected_future ->
  _should_force_accept st pa expected_future = Ok must_accept ->
  forced st pa = Ok must_accept.
Proof. intros Hef Hf. unfold forced. rewrite Hef. exact Hf. Qed.

(** C1.  On a person whose carried attributes are all tracked,
    [make_decision] returns accept, whatever the score would be and even
    when scoring would fail, when some attribute the person carries is
    scarce: its expected supply [R * p_a[a]], with [R] as it is before the
    decision is applied, is below
    [max(0, remaining_required[a] - accepted_counts[a])]; when none is,
    the decision is the one of the scoring rule.  The check stops at the
    first scarce attribute, so only the carried attributes before it have
    to be tracked; and whenever the check returns, it returns True
    exactly when a carried attribute is scarce.  A carried attribute that
    is not tracked and comes before the first scarce one breaks the rule:
    with "B" unknown, the person [{"B": True, "A": True}] carries the
    scarce "A", and [make_decision] raises [KeyError] for "B", while
    [{"A": True, "B": True}] is accepted. *)
Theorem forced_accept_rule :
  (forall st person_data,
     returns (_compute_expected_future_supply st) ->
     (forall b, carries (attributes person_data) b -> tracked st b) ->
     ((exists a, carries (attributes person_data) a /\ scarce st a) ->
      make_decision st person_data = Ok true)
     /\ (~ (exists a, carries (attributes person_data) a /\ scarce st a) ->
         make_decision st person_data =
           score ← _compute_score st (attributes person_data);
           Ok (Py.num_gt_int score 0 && (0 <? R st))))
  /\ (forall st person_data pre a post,
        PyDict.keys (attributes person_data) = pre ++ a :: post ->
        (forall b, b ∈ pre -> carries (attributes person_data) b ->
                   tracked st b) ->
        carries (attributes person_data) a ->
        scarce st a ->
        make_decision st person_data = Ok true)
  /\ (forall st person_data expected_future,
        _compute_expected_future_supply st = Ok expected_future ->
        (_should_force_accept st (attributes person_data) expected_future
           = Ok true ->
         (exists a, carries (attributes person_data) a /\ scarce st a)
         /\ make_decision st person_data = Ok true)
        /\ (_should_force_accept st (attributes person_data) expected_future
              = Ok false ->
            ~ (exists a, carries (attributes person_data) a /\ scarce st a)
            /\ make_decision st person_data =
                 score ← _compute_score st (attributes person_data);
                 Ok (Py.num_gt_int score 0 && (0 <? R st))))
  /\ (let st := scenario_of 3 in
      carries [("B"%string, true); ("A"%string, true)] "A"
      /\ scarce st "A"
      /\ ~ tracked st "B"
      /\ make_decision st (person_of [("B"%string, true); ("A"%string, true)])
         = Raise (KeyError "B")
      /\ make_decision st (person_of [("A"%string, true); ("B"%string, true)])
         = Ok true)
  /\ (let st := set_R 1 unconstrained_B in
      scarce st "A"
      /\ _compute_score st [("A"%string, true)] = Raise (KeyError "B")
      /\ make_decision st (person_of [("A"%string, true)]) = Ok true).
Proof.
  assert (Hno : forall st person_data,
    forced st (attributes person_data) = Ok false ->
    ~ (exists a, carries (attributes person_data) a /\ scarce st a)).
  { intros st person_data Hf (a & Ha & Hsc).
    assert (Hin : a ∈ PyDict.keys (attributes person_data))
      by (apply PyDict_get_keys; eexists; exact Ha).
    apply list_elem_of_split in Hin as (pre & post & Hkeys).
    rewrite (forced_at_first_scarce st _ pre post a Hkeys) in Hf;
      [discriminate| |exact Ha|exact Hsc].
    intros b _ Hb. eapply forced_false_tracked; eassumption. }
  split; [|split; [|split; [|split]]].
  - intros st person_data Hef Hall. split.
    + intros (a & Ha & Hsc).
      assert (Hin : a ∈ PyDict.keys (attributes person_data))
        by (apply PyDict_get_keys; eexists; exact Ha).
      apply list_elem_of_split in Hin as (pre & post & Hkeys).
      rewrite make_decision_forced,
        (forced_at_first_scarce st _ pre post a Hkeys); auto.
    + intros Hnone.
      destruct (forced_returns st (attributes person_data) Hef Hall)
        as [[|] Hf].
      * exfalso. apply Hnone. apply forced_true_scarce. exact Hf.
      * rewrite make_decision_forced, Hf. reflexivity.
  - intros st person_data pre a post Hkeys Hpre Ha Hsc.
    rewrite make_decision_forced,
      (forced_at_first_scarce st _ pre post a Hkeys); auto.
  - intros st person_data ef Hef. split; intros Hf;
      apply (forced_steps _ _ _ _ Hef) in Hf.
    + split; [apply forced_true_scarce; exact Hf|].
      rewrite make_decision_forced, Hf. reflexivity.
    + split; [apply Hno; exact Hf|].
      rewrite make_decision_forced, Hf. reflexivity.
  - intros st. split; [reflexivity|]. split.
    { exists 0.5%float, 2, 0, 1.5%float. repeat split; reflexivity. }
    split; [intros ([x Hx] & _); discriminate Hx|].
    split; vm_compute; reflexivity.
  - intros st. split.
    { exists 0.5%float, 1, 0, 0.5%float. repeat split; reflexivity. }
    split; vm_compute; reflexivity.
Qed.

(** ** Floats: conversions and quotients that are not NaN *)

Lemma shr_1_nonneg mrs : 0 <= shr_m mrs -> 0 <= shr_m (shr_1 mrs).
Proof. destruct mrs as [[|[p|p|]|p] r s]; simpl; lia. Qed.

Lemma iter_shr_1_nonneg n mrs :
  0 <= shr_m mrs -> 0 <= shr_m (SpecFloat.iter_pos shr_1 n mrs).
Proof.
  revert mrs. induction n as [n IH|n IH|]; intros mrs H; simpl.
  - apply IH, IH, shr_1_nonneg, H.
  - apply IH, IH, H.
  - apply shr_1_nonneg, H.
Qed.

Lemma shr_fexp_nonneg m e l :
  0 <= m -> 0 <= shr_m (fst (shr_fexp prec emax m e l)).
Proof.
  intros H. unfold shr_fexp, shr.
  assert (H0 : 0 <= shr_m (shr_record_of_loc m l))
    by (destruct l as [|[| |]]; exact H).
  destruct (fexp prec emax (Zdigits2 m + e) - e); simpl; auto.
  apply iter_shr_1_nonneg, H0.
Qed.

Lemma round_nearest_even_nonneg m l : 0 <= m -> 0 <= round_nearest_even m l.
Proof.
  intros H. destruct l as [|[| |]]; simpl; try lia.
  destruct (Z.even m); lia.
Qed.

Lemma binary_round_aux_not_nan sx mx ex lx :
  0 <= mx -> binary_round_aux prec emax sx mx ex lx <> S754_nan.
Proof.
  intros H. unfold binary_round_aux.
  pose proof (shr_fexp_nonneg mx ex lx H) as H1.
  destruct (shr_fexp prec emax mx ex lx) as [mrs' e']. simpl in H1.
  pose proof (shr_fexp_nonneg _ e' loc_Exact
                (round_nearest_even_nonneg _ (loc_of_shr_record mrs') H1)) as H2.
  destruct (shr_fexp prec emax _ e' loc_Exact) as [mrs'' e'']. simpl in H2.
  destruct (shr_m mrs''); try discriminate; [|lia].
  destruct (e'' <=? emax - prec); discriminate.
Qed.

Lemma binary_round_not_nan sx mx ex :
  binary_round prec emax sx mx ex <> S754_nan.
Proof.
  unfold binary_round. destruct (shl_align _ _ _) as [mz ez].
  apply binary_round_aux_not_nan. lia.
Qed.

Lemma binary_normalize_not_nan m e sz :
  binary_normalize prec emax m e sz <> S754_nan.
Proof.
  destruct m; simpl; [discriminate| |]; apply binary_round_not_nan.
Qed.


Lemma float_of_int_SF2Prim z f :
  Py.float_of_int z = Ok f ->
  f = SF2Prim (binary_normalize prec emax z 0 false).
Proof.
  unfold Py.float_of_int.
  destruct (binary_normalize prec emax z 0 false); congruence.
Qed.




(** ** Floats: rounding, value and order *)

Lemma digits2_pos_log2 (p : positive) :
  Z.pos (digits2_pos p) = Z.log2 (Z.pos p) + 1.
Proof.
  induction p as [p IH|p IH|]; simpl digits2_pos; [| |reflexivity].
  - rewrite Pos2Z.inj_succ, IH.
    change (Z.pos p~1) with (2 * Z.pos p + 1).
    rewrite Z.log2_succ_double by lia. lia.
  - rewrite Pos2Z.inj_succ, IH.
    change (Z.pos p~0) with (2 * Z.pos p).
    rewrite Z.log2_double by lia. lia.
Qed.

Lemma Zdigits2_log2 (m : Z) : 0 < m -> Zdigits2 m = Z.log2 m + 1.
Proof.
  destruct m as [|p|p]; try lia. intros _. apply digits2_pos_log2.
Qed.

Lemma log2_mul_pow2 (m j : Z) :
  0 < m -> 0 <= j -> Z.log2 (m * 2 ^ j) = Z.log2 m + j.
Proof.
  intros Hm Hj. rewrite <- Z.shiftl_mul_pow2 by lia.
  apply Z.log2_shiftl; lia.
Qed.

Lemma shr_1_spec (m : Z) (r s : bool) :
  0 <= m ->
  shr_1 {| shr_m := m; shr_r := r; shr_s := s |} =
  {| shr_m := m / 2; shr_r := Z.odd m; shr_s := r || s |}.
Proof.
  intros Hm. rewrite <- Z.div2_div.
  destruct m as [|[p|p|]|p]; try lia; reflexivity.
Qed.

Lemma iter_pos_nat {A} (f : A -> A) (p : positive) (x : A) :
  SpecFloat.iter_pos f p x = Nat.iter (Pos.to_nat p) f x.
Proof.
  revert x. induction p as [p IH|p IH|]; intros x; simpl SpecFloat.iter_pos.
  - rewrite !IH, Pos2Nat.inj_xI.
    replace (S (2 * Pos.to_nat p))%nat
      with (Pos.to_nat p + (Pos.to_nat p + 1))%nat by lia.
    rewrite !Nat.iter_add. reflexivity.
  - rewrite !IH, Pos2Nat.inj_xO.
    replace (2 * Pos.to_nat p)%nat with (Pos.to_nat p + Pos.to_nat p)%nat
      by lia.
    rewrite Nat.iter_add. reflexivity.
  - reflexivity.
Qed.

Lemma iter_shr_1_spec (k : nat) (m : Z) :
  0 <= m ->
  Nat.iter (S k) shr_1 {| shr_m := m; shr_r := false; shr_s := false |} =
  {| shr_m := m / 2 ^ Z.of_nat (S k);
     shr_r := Z.odd (m / 2 ^ Z.of_nat k);
     shr_s := negb (m mod 2 ^ Z.of_nat k =? 0) |}.
Proof.
  intros Hm. induction k as [|k IH].
  - change (Nat.iter 1 shr_1 ?x) with (shr_1 x).
    rewrite shr_1_spec by assumption.
    change (2 ^ Z.of_nat 1) with 2. change (2 ^ Z.of_nat 0) with 1.
    rewrite Z.div_1_r, Z.mod_1_r. reflexivity.
  - change (Nat.iter (S (S k)) shr_1 ?x) with (shr_1 (Nat.iter (S k) shr_1 x)).
    rewrite IH.
    assert (Hp : 0 < 2 ^ Z.of_nat k) by (apply Z.pow_pos_nonneg; lia).
    rewrite shr_1_spec by (apply Z.div_pos; lia).
    rewrite Z.div_div by lia.
    replace (2 ^ Z.of_nat (S k) * 2) with (2 ^ Z.of_nat (S (S k)))
      by (rewrite !Nat2Z.inj_succ, !Z.pow_succ_r; lia).
    f_equal.
    rewrite (Nat2Z.inj_succ k), Z.pow_succ_r by lia.
    rewrite (Z.mul_comm 2), Z.rem_mul_r by lia.
    rewrite (Zmod_odd (m / 2 ^ Z.of_nat k)).
    pose proof (Z.mod_pos_bound m (2 ^ Z.of_nat k) Hp).
    destruct (Z.odd (m / 2 ^ Z.of_nat k)); simpl orb.
    + destruct (Z.eqb_spec (m mod 2 ^ Z.of_nat k + 2 ^ Z.of_nat k * 1) 0);
        [lia|reflexivity].
    + rewrite Z.mul_0_r, Z.add_0_r. reflexivity.
Qed.

Lemma rne_0_r (m : Z) : rne m 0 = m.
Proof.
  unfold rne. change (2 ^ 0) with 1. rewrite Z.mod_1_r, Z.div_1_r.
  reflexivity.
Qed.

Lemma shr_round (m e : Z) (p : positive) :
  0 <= m ->
  let mrs := fst (shr {| shr_m := m; shr_r := false; shr_s := false |}
                      e (Z.pos p)) in
  round_nearest_even (shr_m mrs) (loc_of_shr_record mrs) = rne m (Z.pos p)
  /\ snd (shr {| shr_m := m; shr_r := false; shr_s := false |} e (Z.pos p))
     = e + Z.pos p.
Proof.
  intros Hm. simpl. split; [|reflexivity].
  rewrite iter_pos_nat.
  destruct (Pos2Nat.is_succ p) as [k Hk]. rewrite Hk.
  rewrite iter_shr_1_spec by assumption.
  assert (Hn : Z.pos p = Z.of_nat k + 1) by lia.
  unfold rne. rewrite Hn.
  replace (Z.of_nat (S k)) with (Z.of_nat k + 1) by lia.
  set (j := Z.of_nat k). assert (Hj : 0 <= j) by lia.
  assert (Hp : 0 < 2 ^ j) by (apply Z.pow_pos_nonneg; lia).
  rewrite (Z.pow_add_r 2 j 1) by lia. change (2 ^ 1) with 2.
  rewrite Z.rem_mul_r by lia.
  rewrite (Zmod_odd (m / 2 ^ j)).
  pose proof (Z.mod_pos_bound m (2 ^ j) Hp) as Hb.
  cbn [shr_m loc_of_shr_record].
  destruct (Z.odd (m / 2 ^ j)); destruct (Z.eqb_spec (m mod 2 ^ j) 0) as [E|E];
    cbn [negb round_nearest_even].
  - rewrite E. replace (2 * (0 + 2 ^ j * 1) ?= 2 ^ j * 2) with Eq
      by (symmetry; apply Z.compare_eq_iff; lia). reflexivity.
  - replace (2 * (m mod 2 ^ j + 2 ^ j * 1) ?= 2 ^ j * 2) with Gt
      by (symmetry; apply Z.compare_gt_iff; lia). reflexivity.
  - replace (2 * (m mod 2 ^ j + 2 ^ j * 0) ?= 2 ^ j * 2) with Lt
      by (symmetry; apply Z.compare_lt_iff; lia). reflexivity.
  - replace (2 * (m mod 2 ^ j + 2 ^ j * 0) ?= 2 ^ j * 2) with Lt
      by (symmetry; apply Z.compare_lt_iff; lia). reflexivity.
Qed.

(** rne bounds *)
Lemma rne_bounds (m n : Z) :
  0 <= n -> m / 2 ^ n <= rne m n <= m / 2 ^ n + 1.
Proof.
  intros Hn. unfold rne.
  destruct (2 * (m mod 2 ^ n) ?= 2 ^ n); [destruct (Z.even _)| |]; lia.
Qed.

Lemma rne_nonneg (m n : Z) : 0 <= m -> 0 <= n -> 0 <= rne m n.
Proof.
  intros Hm Hn. pose proof (rne_bounds m n Hn).
  assert (0 <= m / 2 ^ n) by (apply Z.div_pos; [lia|apply Z.pow_pos_nonneg; lia]).
  lia.
Qed.

Lemma fexp_eq (x : Z) : fexp prec emax x = Z.max (x - 53) (-1074).
Proof. reflexivity. Qed.

Lemma pow2_pos (n : Z) : 0 <= n -> 0 < 2 ^ n.
Proof. intros. apply Z.pow_pos_nonneg; lia. Qed.

Lemma log2_lt_pow2' (m d : Z) : 0 < m -> Z.log2 m < d -> m < 2 ^ d.
Proof.
  intros Hm Hd. apply Z.log2_lt_pow2; lia.
Qed.

(** The first stage of [binary_round_aux]: the mantissa is shifted to the
    exponent [fexp] asks for and rounded to nearest even. *)
Lemma shr_fexp_round (m e : Z) :
  0 < m ->
  e <= fexp prec emax (Zdigits2 m + e) ->
  let E := fexp prec emax (Zdigits2 m + e) in
  let mrs := fst (shr_fexp prec emax m e loc_Exact) in
  round_nearest_even (shr_m mrs) (loc_of_shr_record mrs) = rne m (E - e)
  /\ snd (shr_fexp prec emax m e loc_Exact) = E.
Proof.
  intros Hm He E mrs. subst mrs. unfold shr_fexp. fold E.
  cbn [shr_record_of_loc].
  destruct (E - e) as [|p|p] eqn:Hn; try lia.
  - cbn [shr fst snd shr_m loc_of_shr_record round_nearest_even].
    rewrite rne_0_r. split; [reflexivity|lia].
  - destruct (shr_round m e p) as [H1 H2]; [lia|].
    cbv zeta in H1. rewrite H1, H2. split; [reflexivity|lia].
Qed.

Lemma rne_below (m e : Z) :
  0 < m ->
  e <= fexp prec emax (Zdigits2 m + e) ->
  0 <= rne m (fexp prec emax (Zdigits2 m + e) - e) <= 2 ^ 53.
Proof.
  intros Hm He. set (E := fexp prec emax (Zdigits2 m + e)) in *.
  assert (Hn : 0 <= E - e) by lia.
  split; [apply rne_nonneg; lia|].
  pose proof (rne_bounds m (E - e) Hn) as [_ Hub].
  assert (Hlt : m / 2 ^ (E - e) < 2 ^ 53); [|lia].
  apply Z.div_lt_upper_bound; [apply pow2_pos; lia|].
  rewrite <- Z.pow_add_r by lia.
  apply log2_lt_pow2'; [lia|].
  subst E. rewrite fexp_eq, Zdigits2_log2 in * by lia. lia.
Qed.

(** The second stage: a rounded mantissa of 54 bits is shifted once more. *)
Lemma shr_fexp_renormalize (r E : Z) :
  0 <= r <= 2 ^ 53 ->
  -1074 <= E ->
  shr_fexp prec emax r E loc_Exact =
    if r <? 2 ^ 53
    then ({| shr_m := r; shr_r := false; shr_s := false |}, E)
    else ({| shr_m := 2 ^ 52; shr_r := false; shr_s := false |}, E + 1).
Proof.
  intros Hr HE. unfold shr_fexp. cbn [shr_record_of_loc].
  destruct (Z.ltb_spec r (2 ^ 53)) as [Hlt|Hge].
  - assert (Hn : fexp prec emax (Zdigits2 r + E) - E <= 0).
    { rewrite fexp_eq. destruct (Z.eq_dec r 0) as [->|Hnz]; [simpl; lia|].
      rewrite Zdigits2_log2 by lia.
      assert (Z.log2 r < 53) by (apply Z.log2_lt_pow2; lia). lia. }
    unfold shr. destruct (fexp prec emax (Zdigits2 r + E) - E); try lia;
      reflexivity.
  - assert (r = 2 ^ 53) by lia. subst r. rewrite fexp_eq.
    change (Zdigits2 (2 ^ 53)) with 54.
    replace (Z.max (54 + E - 53) (-1074) - E) with 1 by lia.
    reflexivity.
Qed.

Lemma binary_round_aux_exact (s : bool) (m e : Z) :
  0 < m ->
  e <= fexp prec emax (Zdigits2 m + e) ->
  binary_round_aux prec emax s m e loc_Exact =
    round_result s (rne m (fexp prec emax (Zdigits2 m + e) - e))
      (fexp prec emax (Zdigits2 m + e)).
Proof.
  intros Hm He. unfold binary_round_aux.
  destruct (shr_fexp_round m e Hm He) as [H1 H2]. cbv zeta in H1.
  pose proof (rne_below m e Hm He) as Hr.
  set (E := fexp prec emax (Zdigits2 m + e)) in *.
  destruct (shr_fexp prec emax m e loc_Exact) as [mrs' e'].
  cbn [fst snd] in H1, H2. rewrite H1, H2.
  assert (HE : -1074 <= E) by (subst E; rewrite fexp_eq; lia).
  rewrite (shr_fexp_renormalize _ E Hr HE). unfold round_result.
  destruct (rne m (E - e) <? 2 ^ 53); reflexivity.
Qed.

Lemma compare_mul_r (n m p : Z) : 0 < p -> (n * p ?= m * p) = (n ?= m).
Proof.
  intros Hp. destruct (Z.compare_spec n m) as [->|H|H].
  - apply Z.compare_refl.
  - apply Z.compare_lt_iff. nia.
  - apply Z.compare_gt_iff. nia.
Qed.

Lemma rne_scale (m n j : Z) :
  0 <= n -> 0 <= j -> rne (m * 2 ^ j) (n + j) = rne m n.
Proof.
  intros Hn Hj. unfold rne.
  assert (H2n : 0 < 2 ^ n) by (apply pow2_pos; lia).
  assert (H2j : 0 < 2 ^ j) by (apply pow2_pos; lia).
  rewrite Z.pow_add_r by lia.
  rewrite Z.div_mul_cancel_r by lia.
  rewrite Z.mul_mod_distr_r by lia.
  rewrite Z.mul_assoc, compare_mul_r by lia. reflexivity.
Qed.

Lemma rne_mono (m1 m2 n : Z) :
  0 <= n -> m1 <= m2 -> rne m1 n <= rne m2 n.
Proof.
  intros Hn Hm.
  assert (H2n : 0 < 2 ^ n) by (apply pow2_pos; lia).
  pose proof (Z.div_le_mono m1 m2 (2 ^ n) H2n Hm) as Hq.
  pose proof (rne_bounds m1 n Hn) as [_ H1].
  pose proof (rne_bounds m2 n Hn) as [H2 _].
  destruct (Z.eq_dec (m1 / 2 ^ n) (m2 / 2 ^ n)) as [Heq|Hne]; [|lia].
  unfold rne. rewrite <- Heq.
  pose proof (Z.div_mod m1 (2 ^ n) ltac:(lia)) as E1.
  pose proof (Z.div_mod m2 (2 ^ n) ltac:(lia)) as E2.
  rewrite <- Heq in E2.
  assert (Hrem : m1 mod 2 ^ n <= m2 mod 2 ^ n) by lia.
  destruct (Z.compare_spec (2 * (m1 mod 2 ^ n)) (2 ^ n));
    destruct (Z.compare_spec (2 * (m2 mod 2 ^ n)) (2 ^ n));
    try lia; destruct (Z.even (m1 / 2 ^ n)); lia.
Qed.

Lemma round_exp_nonneg (K V : Z) : 1074 <= K -> 0 <= round_exp K V.
Proof. unfold round_exp. lia. Qed.

Lemma round_mag_0 (K : Z) : 1074 <= K -> round_mag K 0 = 0.
Proof.
  intros HK. unfold round_mag, rne.
  assert (0 < 2 ^ round_exp K 0) by (apply pow2_pos, round_exp_nonneg, HK).
  rewrite Z.mod_0_l, Z.div_0_l by lia.
  destruct (Z.compare_spec (2 * 0) (2 ^ round_exp K 0)); lia.
Qed.

Lemma round_mag_nonneg (K V : Z) : 1074 <= K -> 0 <= V -> 0 <= round_mag K V.
Proof.
  intros HK HV. unfold round_mag.
  pose proof (round_exp_nonneg K V HK).
  apply Z.mul_nonneg_nonneg; [apply rne_nonneg; lia|].
  apply Z.lt_le_incl, pow2_pos. lia.
Qed.

Lemma round_mag_mono (K V1 V2 : Z) :
  1074 <= K -> 0 <= V1 -> V1 <= V2 -> round_mag K V1 <= round_mag K V2.
Proof.
  intros HK H1 H12. unfold round_mag.
  pose proof (round_exp_nonneg K V1 HK) as Ht1.
  pose proof (round_exp_nonneg K V2 HK) as Ht2.
  assert (Hle : round_exp K V1 <= round_exp K V2).
  { unfold round_exp. pose proof (Z.log2_le_mono V1 V2 H12). lia. }
  destruct (Z.eq_dec (round_exp K V1) (round_exp K V2)) as [Heq|Hne].
  - rewrite <- Heq. apply Z.mul_le_mono_nonneg_r;
      [apply Z.lt_le_incl, pow2_pos; lia|apply rne_mono; lia].
  - set (t1 := round_exp K V1) in *. set (t2 := round_exp K V2) in *.
    assert (Hlt : t1 < t2) by lia.
    assert (HV2 : 0 < V2).
    { destruct (Z.eq_dec V2 0) as [->|]; [|lia].
      assert (V1 = 0) by lia. subst V1. lia. }
    assert (Ht2' : t2 = Z.log2 V2 + 1 - 53) by (unfold t2, round_exp in *; lia).
    assert (Hp1 : 0 < 2 ^ t1) by (apply pow2_pos; lia).
    assert (Hp2 : 0 < 2 ^ t2) by (apply pow2_pos; lia).
    (* the smaller one stays below 2 ^ (t1 + 53) *)
    assert (Hup : rne V1 t1 * 2 ^ t1 <= 2 ^ (t1 + 53)).
    { pose proof (rne_bounds V1 t1 Ht1) as [_ Hb].
      assert (Hq : V1 / 2 ^ t1 < 2 ^ 53).
      { apply Z.div_lt_upper_bound; [lia|].
        rewrite <- Z.pow_add_r by lia.
        destruct (Z.eq_dec V1 0) as [->|]; [apply pow2_pos; lia|].
        apply log2_lt_pow2'; [lia|]. unfold t1, round_exp. lia. }
      rewrite Z.pow_add_r by lia. nia. }
    (* the larger one is at least 2 ^ (t2 + 52) *)
    assert (Hlow : 2 ^ (t2 + 52) <= rne V2 t2 * 2 ^ t2).
    { pose proof (rne_bounds V2 t2 Ht2) as [Hb _].
      assert (Hq : 2 ^ 52 <= V2 / 2 ^ t2).
      { apply Z.div_le_lower_bound; [lia|].
        rewrite <- Z.pow_add_r by lia.
        replace (t2 + 52) with (Z.log2 V2) by lia.
        apply Z.log2_spec. lia. }
      rewrite Z.pow_add_r by lia. nia. }
    assert (2 ^ (t1 + 53) <= 2 ^ (t2 + 52))
      by (apply Z.pow_le_mono_r; lia).
    lia.
Qed.

Lemma round_val_mono (K v1 v2 : Z) :
  1074 <= K -> v1 <= v2 -> round_val K v1 <= round_val K v2.
Proof.
  intros HK Hv. unfold round_val.
  pose proof (round_mag_nonneg K (Z.abs v1) HK (Z.abs_nonneg _)).
  pose proof (round_mag_nonneg K (Z.abs v2) HK (Z.abs_nonneg _)).
  destruct (Z.sgn_spec v1) as [[H1 ->]|[[H1 ->]|[H1 ->]]];
    destruct (Z.sgn_spec v2) as [[H2 ->]|[[H2 ->]|[H2 ->]]]; try lia.
  - pose proof (round_mag_mono K (Z.abs v1) (Z.abs v2) HK). lia.
  - pose proof (round_mag_mono K (Z.abs v2) (Z.abs v1) HK). lia.
Qed.

Lemma round_ext_mono (K v1 v2 : Z) :
  1074 <= K -> v1 <= v2 -> ext_le (round_ext K v1) (round_ext K v2).
Proof.
  intros HK Hv. unfold round_ext.
  pose proof (round_val_mono K v1 v2 HK Hv) as Hmono.
  destruct (Z.ltb_spec (round_mag K (Z.abs v1)) (2 ^ (1024 + K))) as [F1|F1];
    destruct (Z.ltb_spec (round_mag K (Z.abs v2)) (2 ^ (1024 + K))) as [F2|F2];
    destruct (Z.ltb_spec v1 0); destruct (Z.ltb_spec v2 0);
    simpl; try exact I; try lia.
  - (* v2 overflows downwards, v1 below it must too *)
    pose proof (round_mag_mono K (Z.abs v2) (Z.abs v1) HK). lia.
  - pose proof (round_mag_mono K (Z.abs v1) (Z.abs v2) HK). lia.
Qed.

Lemma rne_normal (m e : Z) :
  0 < m ->
  e <= fexp prec emax (Zdigits2 m + e) ->
  -1074 < fexp prec emax (Zdigits2 m + e) ->
  2 ^ 52 <= rne m (fexp prec emax (Zdigits2 m + e) - e).
Proof.
  intros Hm He Hn. set (E := fexp prec emax (Zdigits2 m + e)) in *.
  pose proof (rne_bounds m (E - e) ltac:(lia)) as [Hb _].
  assert (Hq : 2 ^ 52 <= m / 2 ^ (E - e)); [|lia].
  apply Z.div_le_lower_bound; [apply pow2_pos; lia|].
  rewrite <- Z.pow_add_r by lia.
  replace (E - e + 52) with (Z.log2 m)
    by (subst E; rewrite fexp_eq, Zdigits2_log2 in * by lia; lia).
  apply Z.log2_spec. lia.
Qed.

Lemma round_exp_scaled (K m e : Z) :
  0 < m -> 0 <= e + K ->
  round_exp K (m * 2 ^ (e + K)) = fexp prec emax (Zdigits2 m + e) + K.
Proof.
  intros Hm He. unfold round_exp.
  rewrite log2_mul_pow2, fexp_eq, Zdigits2_log2 by lia. lia.
Qed.

Lemma round_mag_scaled (K m e : Z) :
  0 < m -> 0 <= e + K -> 1074 <= K ->
  e <= fexp prec emax (Zdigits2 m + e) ->
  round_mag K (m * 2 ^ (e + K)) =
    rne m (fexp prec emax (Zdigits2 m + e) - e)
    * 2 ^ (fexp prec emax (Zdigits2 m + e) + K).
Proof.
  intros Hm He HK HE. unfold round_mag.
  rewrite round_exp_scaled by lia.
  set (E := fexp prec emax (Zdigits2 m + e)) in *.
  replace (E + K) with (E - e + (e + K)) at 1 by lia.
  rewrite rne_scale by lia. reflexivity.
Qed.

Lemma signed_abs (s : bool) (v : Z) : 0 <= v -> Z.abs (signed s v) = v.
Proof. destruct s; simpl; lia. Qed.

Lemma round_result_xval (K : Z) (s : bool) (m e : Z) :
  1074 <= K -> 0 < m -> 0 <= e + K ->
  e <= fexp prec emax (Zdigits2 m + e) ->
  xval K (round_result s (rne m (fexp prec emax (Zdigits2 m + e) - e))
            (fexp prec emax (Zdigits2 m + e)))
  = Some (round_ext K (signed s (m * 2 ^ (e + K)))).
Proof.
  intros HK Hm He HE.
  pose proof (rne_below m e Hm HE) as Hr.
  pose proof (round_mag_scaled K m e Hm He HK HE) as Hmag.
  assert (HV : 0 < m * 2 ^ (e + K))
    by (apply Z.mul_pos_pos; [lia|apply pow2_pos; lia]).
  unfold round_ext, round_val. rewrite signed_abs, Hmag by lia.
  assert (Hnorm := rne_normal m e Hm HE).
  set (E := fexp prec emax (Zdigits2 m + e)) in *.
  set (r := rne m (E - e)) in *.
  assert (HElow : -1074 <= E) by (subst E; rewrite fexp_eq; lia).
  assert (HP : 0 < 2 ^ (E + K)) by (apply pow2_pos; lia).
  assert (Hsgn : Z.sgn (signed s (m * 2 ^ (e + K))) = signed s 1)
    by (destruct s; simpl; lia).
  assert (Hneg : (signed s (m * 2 ^ (e + K)) <? 0) = s)
    by (destruct s; simpl; [apply Z.ltb_lt|apply Z.ltb_ge]; lia).
  rewrite Hsgn, Hneg.
  assert (Hsmall : E <= 971 -> 2 ^ 53 * 2 ^ (E + K) <= 2 ^ (1024 + K)).
  { intros H. rewrite <- Z.pow_add_r by lia. apply Z.pow_le_mono_r; lia. }
  assert (Hbig : 971 < E -> 2 ^ (1024 + K) <= 2 ^ 52 * 2 ^ (E + K)).
  { intros H. rewrite <- Z.pow_add_r by lia. apply Z.pow_le_mono_r; lia. }
  unfold round_result.
  destruct (Z.ltb_spec r (2 ^ 53)) as [Hlt|Hge].
  - destruct r as [|mr|mr] eqn:Hr'; try lia.
    + cbn [xval]. rewrite Z.mul_0_l.
      destruct (Z.ltb_spec 0 (2 ^ (1024 + K))) as [_|H0];
        [rewrite Z.mul_0_r; reflexivity|].
      pose proof (pow2_pos (1024 + K) ltac:(lia)). lia.
    + destruct (Z.leb_spec E 971) as [HE9|HE9]; cbn [xval].
      * destruct (Z.ltb_spec (Z.pos mr * 2 ^ (E + K)) (2 ^ (1024 + K)));
          [|specialize (Hsmall HE9); nia].
        do 2 f_equal. destruct s; simpl; lia.
      * destruct (Z.ltb_spec (Z.pos mr * 2 ^ (E + K)) (2 ^ (1024 + K)));
          [|reflexivity].
        specialize (Hbig HE9). specialize (Hnorm ltac:(lia)). nia.
  - assert (Hr53 : r = 2 ^ 53) by lia. rewrite Hr53.
    assert (Hshift : 2 ^ (E + 1 + K) = 2 * 2 ^ (E + K)).
    { replace (E + 1 + K) with (1 + (E + K)) by lia.
      rewrite Z.pow_add_r by lia. reflexivity. }
    destruct (Z.leb_spec (E + 1) 971) as [HE9|HE9]; cbn [xval].
    + destruct (Z.ltb_spec (2 ^ 53 * 2 ^ (E + K)) (2 ^ (1024 + K))) as [_|H].
      * do 2 f_equal. rewrite Hshift. destruct s; simpl; lia.
      * exfalso. revert H. apply Z.lt_nge.
        rewrite <- Z.pow_add_r by lia. apply Z.pow_lt_mono_r; lia.
    + destruct (Z.ltb_spec (2 ^ 53 * 2 ^ (E + K)) (2 ^ (1024 + K))) as [H|_];
        [|reflexivity].
      exfalso. revert H. apply Z.le_ngt.
      rewrite <- Z.pow_add_r by lia. apply Z.pow_le_mono_r; lia.
Qed.

Lemma round_result_valid (s : bool) (m e : Z) :
  0 < m ->
  e <= fexp prec emax (Zdigits2 m + e) ->
  valid_binary (round_result s (rne m (fexp prec emax (Zdigits2 m + e) - e))
                  (fexp prec emax (Zdigits2 m + e))) = true.
Proof.
  intros Hm HE.
  pose proof (rne_below m e Hm HE) as Hr.
  assert (Hnorm := rne_normal m e Hm HE).
  set (E := fexp prec emax (Zdigits2 m + e)) in *.
  set (r := rne m (E - e)) in *.
  assert (HElow : -1074 <= E) by (subst E; rewrite fexp_eq; lia).
  unfold round_result.
  destruct (Z.ltb_spec r (2 ^ 53)) as [Hlt|Hge].
  - destruct r as [|mr|mr] eqn:Hr'; try lia; [reflexivity|].
    destruct (Z.leb_spec E 971) as [HE9|HE9]; [|reflexivity].
    cbn [valid_binary]. unfold bounded, canonical_mantissa.
    apply andb_true_iff. split; [|apply Z.leb_le; exact HE9].
    apply Z.eqb_eq. rewrite fexp_eq, digits2_pos_log2.
    assert (Z.log2 (Z.pos mr) < 53) by (apply Z.log2_lt_pow2; lia).
    destruct (Z.eq_dec E (-1074)) as [HEq|HEn]; [lia|].
    specialize (Hnorm ltac:(lia)).
    assert (52 <= Z.log2 (Z.pos mr)) by (apply Z.log2_le_pow2; lia).
    lia.
  - destruct (Z.leb_spec (E + 1) 971) as [HE9|HE9]; [|reflexivity].
    cbn [valid_binary]. unfold bounded, canonical_mantissa.
    apply andb_true_iff. split; [|apply Z.leb_le; exact HE9].
    apply Z.eqb_eq. rewrite fexp_eq.
    change (Z.pos (digits2_pos (2 ^ 52))) with 53. lia.
Qed.

Lemma shl_align_spec (mx : positive) (ex ex' : Z) :
  exists mz,
    shl_align mx ex ex' = (mz, Z.min ex ex')
    /\ Z.pos mz = Z.pos mx * 2 ^ (ex - Z.min ex ex').
Proof.
  unfold shl_align. destruct (ex' - ex) as [|d|d] eqn:Hd.
  - exists mx. replace (Z.min ex ex') with ex by lia.
    rewrite Z.sub_diag. split; [reflexivity|lia].
  - exists mx. replace (Z.min ex ex') with ex by lia.
    rewrite Z.sub_diag. split; [reflexivity|lia].
  - exists (Pos.iter xO mx d). replace (Z.min ex ex') with ex' by lia.
    split; [reflexivity|].
    change (Pos.iter xO mx d) with (shift_pos d mx).
    rewrite shift_pos_correct. replace (ex - ex') with (Z.pos d) by lia.
    change (Z.pow_pos 2 d) with (2 ^ Z.pos d). lia.
Qed.

Lemma binary_round_exact (s : bool) (mx : positive) (ex : Z) :
  exists mz ez,
    Z.pos mz * 2 ^ (ez - Z.min ex (-1074)) =
      Z.pos mx * 2 ^ (ex - Z.min ex (-1074))
    /\ Z.min ex (-1074) <= ez
    /\ ez <= fexp prec emax (Zdigits2 (Z.pos mz) + ez)
    /\ binary_round prec emax s mx ex =
         round_result s
           (rne (Z.pos mz) (fexp prec emax (Zdigits2 (Z.pos mz) + ez) - ez))
           (fexp prec emax (Zdigits2 (Z.pos mz) + ez)).
Proof.
  unfold binary_round.
  set (E := fexp prec emax (Z.pos (digits2_pos mx) + ex)).
  destruct (shl_align_spec mx ex E) as (mz & Hal & Hmz).
  rewrite Hal. exists mz, (Z.min ex E).
  assert (HE : -1074 <= E) by (subst E; rewrite fexp_eq; lia).
  assert (Hdig : Zdigits2 (Z.pos mz) + Z.min ex E
                 = Z.pos (digits2_pos mx) + ex).
  { rewrite Zdigits2_log2, Hmz, log2_mul_pow2, digits2_pos_log2 by lia. lia. }
  assert (HEz : fexp prec emax (Zdigits2 (Z.pos mz) + Z.min ex E) = E)
    by (rewrite Hdig; reflexivity).
  split; [|split; [lia|split; [rewrite HEz; lia|]]].
  - rewrite Hmz, <- Z.mul_assoc, <- Z.pow_add_r by lia.
    do 2 f_equal. lia.
  - apply binary_round_aux_exact; [lia|]. rewrite HEz. lia.
Qed.

Lemma binary_round_xval (K : Z) (s : bool) (mx : positive) (ex : Z) :
  1074 <= K -> 0 <= ex + K ->
  xval K (binary_round prec emax s mx ex)
  = Some (round_ext K (signed s (Z.pos mx * 2 ^ (ex + K)))).
Proof.
  intros HK He.
  destruct (binary_round_exact s mx ex) as (mz & ez & Hval & Hlow & Hez & ->).
  rewrite round_result_xval by lia. do 3 f_equal.
  set (b := Z.min ex (-1074)) in *.
  replace (ez + K) with (ez - b + (b + K)) by lia.
  replace (ex + K) with (ex - b + (b + K)) by lia.
  rewrite (Z.pow_add_r 2 (ez - b)), (Z.pow_add_r 2 (ex - b)) by lia.
  rewrite !Z.mul_assoc, Hval. reflexivity.
Qed.

Lemma binary_round_valid (s : bool) (mx : positive) (ex : Z) :
  valid_binary (binary_round prec emax s mx ex) = true.
Proof.
  destruct (binary_round_exact s mx ex) as (mz & ez & _ & _ & Hez & ->).
  apply round_result_valid; [lia|exact Hez].
Qed.

Lemma round_ext_0 (K : Z) : 1074 <= K -> round_ext K 0 = Finite 0.
Proof.
  intros HK. unfold round_ext, round_val. simpl Z.abs.
  rewrite round_mag_0 by lia.
  destruct (Z.ltb_spec 0 (2 ^ (1024 + K))); [reflexivity|].
  pose proof (pow2_pos (1024 + K) ltac:(lia)). lia.
Qed.

(** [float(z)] is [z], rounded. *)
Lemma binary_normalize_xval (K z : Z) :
  1074 <= K ->
  xval K (binary_normalize prec emax z 0 false)
  = Some (round_ext K (z * 2 ^ K)).
Proof.
  intros HK. destruct z as [|p|p]; cbn [binary_normalize].
  - rewrite Z.mul_0_l, round_ext_0 by lia. reflexivity.
  - rewrite binary_round_xval by lia. reflexivity.
  - rewrite binary_round_xval by lia. cbn [signed].
    do 3 f_equal. rewrite Z.add_0_l, <- Pos2Z.opp_pos. ring.
Qed.

Lemma binary_normalize_valid (z : Z) :
  valid_binary (binary_normalize prec emax z 0 false) = true.
Proof.
  destruct z; cbn [binary_normalize]; [reflexivity| |];
    apply binary_round_valid.
Qed.

Lemma valid_finite (s : bool) (m : positive) (e : Z) :
  valid_binary (S754_finite s m e) = true ->
  -1074 <= e <= 971
  /\ Z.log2 (Z.pos m) <= 52
  /\ (Z.log2 (Z.pos m) = 52 \/ e = -1074).
Proof.
  cbn [valid_binary]. unfold bounded, canonical_mantissa.
  rewrite andb_true_iff, Z.eqb_eq, Z.leb_le, fexp_eq, digits2_pos_log2.
  change (emax - prec) with 971. lia.
Qed.

Lemma signed_mul (sx sy : bool) (a b : Z) :
  signed (xorb sx sy) (a * b) = signed sx a * signed sy b.
Proof. destruct sx, sy; simpl; lia. Qed.

(** A product of finite floats is the exact product, rounded. *)
Lemma SFmul_xval (x y : spec_float) :
  valid_binary x = true -> valid_binary y = true ->
  is_finite_SF x = true -> is_finite_SF y = true ->
  xval 2148 (SF64mul x y) = Some (round_ext 2148 (sval x * sval y)).
Proof.
  intros Hx Hy Fx Fy. unfold SF64mul.
  destruct x as [sx|sx| |sx mx ex]; try discriminate;
    destruct y as [sy|sy| |sy my ey]; try discriminate; cbn [SFmul sval xval].
  - rewrite Z.mul_0_l, round_ext_0 by lia. reflexivity.
  - rewrite Z.mul_0_l, round_ext_0 by lia. reflexivity.
  - rewrite Z.mul_0_r, round_ext_0 by lia. reflexivity.
  - apply valid_finite in Hx as (Hex & Hdx & Hnx).
    apply valid_finite in Hy as (Hey & Hdy & Hny).
    pose proof (Z.log2_mul_below (Z.pos mx) (Z.pos my) ltac:(lia) ltac:(lia))
      as Hlog.
    pose proof (Z.log2_nonneg (Z.pos mx)). pose proof (Z.log2_nonneg (Z.pos my)).
    assert (HE : ex + ey <=
                 fexp prec emax (Zdigits2 (Z.pos (mx * my)) + (ex + ey))).
    { rewrite fexp_eq, Zdigits2_log2, Pos2Z.inj_mul by lia. lia. }
    rewrite binary_round_aux_exact, round_result_xval by lia.
    do 2 f_equal. rewrite Pos2Z.inj_mul.
    replace (ex + ey + 2148) with ((ex + 1074) + (ey + 1074)) by lia.
    rewrite Z.pow_add_r by lia.
    destruct sx, sy; cbn [xorb signed]; ring.
Qed.

Lemma ext_lt_int_mono (K : Z) (v1 v2 : ext) (n : Z) :
  ext_le v2 v1 -> ext_lt_int K v1 n = true -> ext_lt_int K v2 n = true.
Proof.
  destruct v1, v2; simpl; try tauto; try discriminate.
  rewrite !Z.ltb_lt. lia.
Qed.

Lemma finite_xval (x : spec_float) :
  is_finite_SF x = true -> xval 1074 x = Some (Finite (sval x)).
Proof. destruct x; try discriminate; reflexivity. Qed.

Lemma round_ext_Fin (K v w : Z) :
  round_ext K v = Finite w -> round_val K v = w.
Proof.
  unfold round_ext. destruct (_ <? _); [congruence|].
  destruct (v <? 0); discriminate.
Qed.

(** What [float(z)] is when it does not overflow. *)
Lemma float_of_int_spec (z : Z) (f : float) :
  Py.float_of_int z = Ok f ->
  Prim2SF f = binary_normalize prec emax z 0 false
  /\ is_finite_SF (Prim2SF f) = true
  /\ sval (Prim2SF f) = round_val 1074 (z * 2 ^ 1074).
Proof.
  intros Hf.
  assert (Hs : Prim2SF f = binary_normalize prec emax z 0 false).
  { rewrite (float_of_int_SF2Prim z f Hf).
    apply Prim2SF_SF2Prim, binary_normalize_valid. }
  assert (Hfin : is_finite_SF (Prim2SF f) = true).
  { rewrite Hs. unfold Py.float_of_int in Hf.
    pose proof (binary_normalize_not_nan z 0 false).
    destruct (binary_normalize prec emax z 0 false); try reflexivity;
      congruence. }
  split; [exact Hs|]. split; [exact Hfin|].
  pose proof (binary_normalize_xval 1074 z ltac:(lia)) as Hx.
  rewrite <- Hs, (finite_xval _ Hfin) in Hx. injection Hx as Hx.
  symmetry. apply round_ext_Fin. symmetry. exact Hx.
Qed.

Lemma float_of_int_returns_iff (z : Z) :
  returns (Py.float_of_int z) <->
  exists w, round_ext 1074 (z * 2 ^ 1074) = Finite w.
Proof.
  pose proof (binary_normalize_xval 1074 z ltac:(lia)) as Hx.
  unfold returns, Py.float_of_int. split.
  - intros [f Hf].
    destruct (binary_normalize prec emax z 0 false) as [s|s| |s m e];
      try discriminate; cbn [xval] in Hx; injection Hx as Hx; eauto.
  - intros [w Hw]. rewrite Hw in Hx.
    destruct (binary_normalize prec emax z 0 false) as [s|[|]| |s m e];
      try discriminate; eauto.
Qed.

Lemma float_of_int_between (z1 z z2 : Z) :
  z1 <= z <= z2 ->
  returns (Py.float_of_int z1) -> returns (Py.float_of_int z2) ->
  returns (Py.float_of_int z).
Proof.
  rewrite !float_of_int_returns_iff. intros [H1 H2] [w1 Hw1] [w2 Hw2].
  assert (P : 0 < 2 ^ 1074) by (apply pow2_pos; lia).
  pose proof (round_ext_mono 1074 (z1 * 2 ^ 1074) (z * 2 ^ 1074)
                ltac:(lia) ltac:(nia)) as Hlo.
  pose proof (round_ext_mono 1074 (z * 2 ^ 1074) (z2 * 2 ^ 1074)
                ltac:(lia) ltac:(nia)) as Hhi.
  rewrite Hw1 in Hlo. rewrite Hw2 in Hhi.
  destruct (round_ext 1074 (z * 2 ^ 1074)); simpl in *; try tauto. eauto.
Qed.

Lemma float_of_int_mono (z1 z2 : Z) (f1 f2 : float) :
  z2 <= z1 ->
  Py.float_of_int z1 = Ok f1 -> Py.float_of_int z2 = Ok f2 ->
  sval (Prim2SF f2) <= sval (Prim2SF f1).
Proof.
  intros Hz H1 H2.
  apply float_of_int_spec in H1 as (_ & _ & ->).
  apply float_of_int_spec in H2 as (_ & _ & ->).
  assert (P : 0 < 2 ^ 1074) by (apply pow2_pos; lia).
  apply round_val_mono; [lia|nia].
Qed.

(** An exact comparison with an [int] reads the value of the float. *)
Lemma float_lt_int_xval (K : Z) (y : float) (n : Z) :
  1074 <= K ->
  Py.float_lt_int y n =
    match xval K (Prim2SF y) with
    | Some v => ext_lt_int K v n
    | None => false
    end.
Proof.
  intros HK. unfold Py.float_lt_int, Py.float_cmp_int.
  pose proof (Prim2SF_valid y) as Hv.
  assert (PK : 0 < 2 ^ K) by (apply pow2_pos; lia).
  destruct (Prim2SF y) as [s|[|]| |s m e]; cbn [xval ext_lt_int];
    try reflexivity.
  - destruct (Z.compare_spec 0 n); destruct (Z.ltb_spec 0 (n * 2 ^ K));
      try reflexivity; nia.
  - apply valid_finite in Hv as (He & _).
    assert (Pe : 0 < 2 ^ (e + K)) by (apply pow2_pos; lia).
    change (if s then Z.neg m else Z.pos m) with (signed s (Z.pos m)).
    set (v := signed s (Z.pos m)).
    destruct (Z.leb_spec 0 e) as [H0|H0].
    + assert (Hsplit : 2 ^ (e + K) = 2 ^ e * 2 ^ K)
        by (apply Z.pow_add_r; lia).
      assert (0 < 2 ^ e) by (apply pow2_pos; lia).
      rewrite Hsplit.
      destruct (Z.compare_spec (v * 2 ^ e) n);
        destruct (Z.ltb_spec (v * (2 ^ e * 2 ^ K)) (n * 2 ^ K));
        try reflexivity; nia.
    + assert (Hsplit : 2 ^ K = 2 ^ (- e) * 2 ^ (e + K)).
      { rewrite <- Z.pow_add_r by lia. f_equal. lia. }
      assert (0 < 2 ^ (- e)) by (apply pow2_pos; lia).
      rewrite Hsplit.
      destruct (Z.compare_spec v (n * 2 ^ (- e)));
        destruct (Z.ltb_spec (v * 2 ^ (e + K)) (n * (2 ^ (- e) * 2 ^ (e + K))));
        try reflexivity; nia.
Qed.

Lemma float_nonneg (p : float) :
  (0 <=? p)%float = true ->
  Prim2SF p = S754_infinity false
  \/ (is_finite_SF (Prim2SF p) = true /\ 0 <= sval (Prim2SF p)).
Proof.
  rewrite leb_spec. change (Prim2SF 0) with (S754_zero false).
  unfold SFleb, SFcompare.
  destruct (Prim2SF p) as [s|[|]| |[|] m e]; try discriminate; intros _.
  - right. split; [reflexivity|cbn [sval]; lia].
  - left. reflexivity.
  - right. split; [reflexivity|]. cbn [sval signed].
    apply Z.mul_nonneg_nonneg; [lia|]. apply Z.pow_nonneg. lia.
Qed.

Lemma sval_negative (x : spec_float) :
  sval x < 0 -> exists m e, x = S754_finite true m e.
Proof.
  destruct x as [s|s| |[|] m e]; cbn [sval signed]; try lia; eauto.
Qed.

(** The heart of C8: with less capacity the expected supply stays below
    the need. *)
Lemma supply_mono (r1 r2 : Z) (f1 f2 p : float) (n : Z) :
  r2 <= r1 ->
  Py.float_of_int r1 = Ok f1 -> Py.float_of_int r2 = Ok f2 ->
  (0 <=? p)%float = true ->
  Py.float_lt_int (f1 * p) n = true ->
  Py.float_lt_int (f2 * p) n = true.
Proof.
  intros Hr H1 H2 Hp Hlt.
  pose proof (float_of_int_mono r1 r2 f1 f2 Hr H1 H2) as Hmono.
  apply float_of_int_spec in H1 as (_ & Fin1 & _).
  apply float_of_int_spec in H2 as (_ & Fin2 & _).
  rewrite (float_lt_int_xval 2148) in Hlt |- * by lia.
  rewrite mul_spec in Hlt |- *.
  destruct (float_nonneg p Hp) as [Hinf|[Finp Hpos]].
  - (* p is +infinity *)
    rewrite Hinf in Hlt |- *.
    destruct (Prim2SF f1) as [s1|s1| |s1 m1 e1] eqn:E1; try discriminate.
    cbn [SF64mul SFmul xval] in Hlt. rewrite xorb_false_r in Hlt.
    destruct s1; [|discriminate].
    destruct (sval_negative (Prim2SF f2)) as (m2 & e2 & ->); [|reflexivity].
    assert (sval (S754_finite true m1 e1) < 0); [|lia].
    cbn [sval signed]. apply Z.mul_neg_pos; [lia|apply pow2_pos].
    pose proof (Prim2SF_valid f1) as Hv. rewrite E1 in Hv.
    apply valid_finite in Hv. lia.
  - rewrite SFmul_xval in Hlt |- * by (auto using Prim2SF_valid).
    eapply ext_lt_int_mono; [|exact Hlt].
    apply round_ext_mono; [lia|nia].
Qed.

Lemma round_mag_pos (V : Z) : 0 < V -> 0 < round_mag 1074 V.
Proof.
  intros HV. unfold round_mag.
  assert (Ht : 0 <= round_exp 1074 V) by (apply round_exp_nonneg; lia).
  assert (Hle : round_exp 1074 V <= Z.log2 V).
  { unfold round_exp. pose proof (Z.log2_nonneg V). lia. }
  assert (HP : 0 < 2 ^ round_exp 1074 V) by (apply pow2_pos; lia).
  pose proof (rne_bounds V (round_exp 1074 V) Ht) as [Hb _].
  assert (1 <= V / 2 ^ round_exp 1074 V).
  { apply Z.div_le_lower_bound; [lia|].
    rewrite Z.mul_1_r.
    transitivity (2 ^ Z.log2 V); [apply Z.pow_le_mono_r; lia|].
    apply Z.log2_spec. lia. }
  nia.
Qed.

Lemma round_ext_nonzero (v : Z) : v <> 0 -> round_ext 1074 v <> Finite 0.
Proof.
  intros Hv. unfold round_ext, round_val.
  pose proof (round_mag_pos (Z.abs v) ltac:(lia)).
  destruct (_ <? _); [|destruct (v <? 0); discriminate].
  intros [= H0]. destruct (Z.sgn_spec v) as [[? E]|[[? E]|[? E]]];
    rewrite E in H0; lia.
Qed.

Lemma int_magnitude (z : Z) (f : float) (s : bool) (m : positive) (e : Z) :
  Py.float_of_int z = Ok f ->
  Prim2SF f = S754_finite s m e ->
  2 ^ 1074 <= Z.pos m * 2 ^ (e + 1074).
Proof.
  intros Hf Hs. apply float_of_int_spec in Hf as (_ & _ & Hval).
  rewrite Hs in Hval. cbn [sval] in Hval.
  assert (P : 0 < 2 ^ 1074) by (apply pow2_pos; lia).
  assert (Hz : z <> 0).
  { intros ->. rewrite Z.mul_0_l in Hval. unfold round_val in Hval.
    simpl in Hval.
    pose proof (Prim2SF_valid f) as Hv. rewrite Hs in Hv.
    apply valid_finite in Hv as (He & _).
    pose proof (pow2_pos (e + 1074) ltac:(lia)).
    destruct s; cbn [signed] in Hval; nia. }
  assert (Hmag : Z.pos m * 2 ^ (e + 1074)
                 = round_mag 1074 (Z.abs (z * 2 ^ 1074))).
  { unfold round_val in Hval.
    pose proof (round_mag_pos (Z.abs (z * 2 ^ 1074)) ltac:(nia)).
    destruct (Z.sgn_spec (z * 2 ^ 1074)) as [[? E]|[[? E]|[? E]]];
      rewrite E in Hval; destruct s; cbn [signed] in Hval; nia. }
  rewrite Hmag.
  change (2 ^ 1074) with (round_mag 1074 (2 ^ 1074)) at 1.
  apply round_mag_mono; [lia|lia|]. nia.
Qed.

(** [R + 1e-9] is never zero, so the weights never divide by zero. *)
Lemma denominator_nonzero (z : Z) (x : float) :
  Py.int_add_float z epsilon = Ok x -> (x =? 0)%float = false.
Proof.
  unfold Py.int_add_float. intros H. unbind H. injection H as <-.
  rename v into f.
  assert (Hnz : forall s, Prim2SF (f + epsilon) <> S754_zero s).
  { rewrite add_spec.
    change (Prim2SF epsilon) with (S754_finite false 4835703278458517 (-82)).
    pose proof (float_of_int_spec z f Hv) as (_ & Hfin & _).
    destruct (Prim2SF f) as [sf|sf| |sf mf ef] eqn:Hs; try discriminate.
    pose proof (int_magnitude z f sf mf ef Hv Hs) as Hbig.
    pose proof (Prim2SF_valid f) as Hval. rewrite Hs in Hval.
    apply valid_finite in Hval as (He & _).
    cbn [SF64add SFadd].
    set (ez := Z.min ef (-82)).
    destruct (shl_align_spec mf ef ez) as (a & Ha & Hav).
    destruct (shl_align_spec 4835703278458517 (-82) ez) as (b & Hb & Hbv).
    rewrite Ha, Hb. cbn [fst].
    replace (Z.min ef ez) with ez in Hav by lia.
    replace (Z.min (-82) ez) with ez in Hbv by lia.
    set (S := cond_Zopp sf (Z.pos a) + cond_Zopp false (Z.pos b)).
    assert (Pz : 0 < 2 ^ (ez + 1074)) by (apply pow2_pos; lia).
    assert (HA : Z.pos a * 2 ^ (ez + 1074) = Z.pos mf * 2 ^ (ef + 1074)).
    { rewrite Hav, <- Z.mul_assoc, <- Z.pow_add_r by lia.
      do 2 f_equal. lia. }
    assert (HB : Z.pos b * 2 ^ (ez + 1074) < 2 ^ 1074).
    { rewrite Hbv, <- Z.mul_assoc, <- Z.pow_add_r by lia.
      replace (-82 - ez + (ez + 1074)) with 992 by lia.
      vm_compute. reflexivity. }
    assert (HS : S <> 0).
    { unfold S. destruct sf; cbn [cond_Zopp]; [|lia]. nia. }
    intros s Hzero.
    assert (Hx : xval 1074 (binary_normalize prec emax S ez false)
                 = Some (round_ext 1074 (S * 2 ^ (ez + 1074)))).
    { destruct S as [|p|p] eqn:ES; [congruence| |]; cbn [binary_normalize];
        rewrite binary_round_xval by lia; cbn [signed]; [reflexivity|].
      do 3 f_equal. rewrite <- Pos2Z.opp_pos. ring. }
    rewrite Hzero in Hx. cbn [xval] in Hx. injection Hx as Hx.
    symmetry in Hx. revert Hx. apply round_ext_nonzero. nia. }
  rewrite FloatAxioms.eqb_spec. change (Prim2SF 0) with (S754_zero false).
  destruct (Prim2SF (f + epsilon)) as [s|[|]| |[|] m e] eqn:E;
    try reflexivity.
  exfalso. apply (Hnz s). reflexivity.
Qed.

(** ** The scoring rule *)

Lemma alphas_get (st : GameController) (attrs : list string)
    (al : PyDict.t float) (a : string) (v : float) :
  alphas_of st attrs = Ok al ->
  PyDict.get al a = Some v <-> a ∈ attrs /\ alpha st a = Ok v.
Proof.
  revert al. induction attrs as [|a0 attrs IH]; intros al; simpl.
  - intros [= <-]. simpl. split; [discriminate|]. intros [H _]. inversion H.
  - intros H. unbind H. unbind H. injection H as <-. simpl.
    destruct (String.eqb_spec a0 a) as [->|Hne].
    + split.
      * intros [= <-]. split; [left|exact Hv].
      * intros [_ Ha]. congruence.
    + rewrite (IH v1 Hv0). split.
      * intros [Hin Hrest]. split; [right; exact Hin|exact Hrest].
      * intros [Hin Hrest]. split; [|exact Hrest].
        inversion Hin; subst; [congruence|assumption].
Qed.

Lemma alphas_keys (st : GameController) (attrs : list string)
    (al : PyDict.t float) :
  alphas_of st attrs = Ok al -> PyDict.keys al = attrs.
Proof.
  revert al. induction attrs as [|a0 attrs IH]; intros al; simpl.
  - intros [= <-]. reflexivity.
  - intros H. unbind H. unbind H. injection H as <-. simpl.
    f_equal. apply IH. exact Hv0.
Qed.

Lemma alphas_each (st : GameController) (attrs : list string)
    (al : PyDict.t float) (a : string) :
  alphas_of st attrs = Ok al -> a ∈ attrs -> returns (alpha st a).
Proof.
  intros Hal Ha.
  assert (Hk : a ∈ PyDict.keys al) by (rewrite (alphas_keys _ _ _ Hal); exact Ha).
  apply PyDict_get_keys in Hk as [v Hv].
  exists v. eapply alphas_get; eassumption.
Qed.

Lemma alphas_of_app (st : GameController) (pre post : list string) :
  alphas_of st (pre ++ post) =
    x ← alphas_of st pre; y ← alphas_of st post; Ok (x ++ y).
Proof.
  induction pre as [|a pre IH]; simpl.
  - destruct (alphas_of st post); reflexivity.
  - destruct (alpha st a); simpl; [|reflexivity]. rewrite IH.
    destruct (alphas_of st pre); simpl; [|reflexivity].
    destruct (alphas_of st post); reflexivity.
Qed.

Lemma alpha_Ok (st : GameController) (a : string) (v : float) :
  alpha st a = Ok v ->
  exists need denom,
    remaining_req st a = Ok need
    /\ Py.int_add_float (R st) epsilon = Ok denom
    /\ Py.int_div_float need denom = Ok v.
Proof.
  unfold alpha. intros H. unbind H. unbind H. eauto.
Qed.

Lemma PyDict_get_NoDup {V} (d : PyDict.t V) (k : string) (v : V) :
  NoDup (PyDict.keys d) -> (k, v) ∈ d -> PyDict.get d k = Some v.
Proof.
  induction d as [|[k' v'] d IH]; simpl; intros Hnd Hin.
  - inversion Hin.
  - apply NoDup_cons in Hnd as [Hk Hnd].
    destruct (String.eqb_spec k' k) as [->|Hne].
    + inversion Hin; subst; [reflexivity|].
      exfalso. apply Hk. apply list_elem_of_fmap. exists (k, v). auto.
    + inversion Hin; subst; [congruence|]. apply IH; assumption.
Qed.

Lemma float_of_int_Raise (z : Z) (e : exn) :
  Py.float_of_int z = Raise e -> e = OverflowError.
Proof.
  unfold Py.float_of_int.
  destruct (binary_normalize prec emax z 0 false); congruence.
Qed.

(** The weight the code computes is the quotient of the specification. *)
Lemma alpha_weight (st : GameController) (a : string) :
  alpha st a =
    required ← getitem (remaining_required st) a;
    accepted ← getitem (accepted_counts st) a;
    weight required accepted (R st).
Proof.
  unfold alpha, remaining_req.
  destruct (getitem (remaining_required st) a) as [required|]; [|reflexivity].
  destruct (getitem (accepted_counts st) a) as [accepted|]; [|reflexivity].
  cbn [mbind result_bind]. unfold weight.
  destruct (Py.int_add_float (R st) epsilon) as [denom|e] eqn:Hd.
  - pose proof (denominator_nonzero _ _ Hd) as Hnz.
    unfold Py.int_add_float in Hd. unbind Hd. injection Hd as <-.
    cbn [mbind result_bind]. unfold Py.int_div_float. rewrite Hv.
    destruct (Py.float_of_int (Z.max 0 (required - accepted))) as [need|];
      [|reflexivity].
    cbn [mbind result_bind]. rewrite Hnz. reflexivity.
  - unfold Py.int_add_float in Hd.
    destruct (Py.float_of_int (R st)) as [c|e'] eqn:Hc; [discriminate|].
    cbn [mbind result_bind] in Hd. injection Hd as <-.
    apply float_of_int_Raise in Hc. subst e'. cbn [mbind result_bind].
    destruct (Py.float_of_int (Z.max 0 (required - accepted))) as [need|e']
      eqn:Hn; [reflexivity|].
    apply float_of_int_Raise in Hn. subst e'. reflexivity.
Qed.


Lemma score_loop_sum (st : GameController) (al : PyDict.t float)
    (items : list (string * bool)) (score : Py.num) :
  _compute_alphas st = Ok al ->
  (forall k, (k, true) ∈ items -> k ∈ PyDict.keys (p_a st)) ->
  score_loop al score items = score_sum st score items.
Proof.
  intros Hal. revert score.
  induction items as [|[k h] items IH]; intros score Hin; simpl;
    [reflexivity|].
  assert (IH' : forall s, score_loop al s items = score_sum st s items).
  { intros s. apply IH. intros k' Hk'. apply Hin. right. exact Hk'. }
  destruct h; simpl; [|apply IH'].
  assert (Hk : k ∈ PyDict.keys (p_a st)) by (apply Hin; left).
  assert (Hmem : PyDict.mem k al = true).
  { apply PyDict_mem_true. rewrite (alphas_keys _ _ _ Hal). exact Hk. }
  rewrite Hmem. destruct (alphas_each _ _ _ k Hal Hk) as [v Hv].
  assert (Hget : PyDict.get al k = Some v)
    by (eapply alphas_get; [exact Hal|auto]).
  apply PyDict_getitem_Ok in Hget. rewrite Hget.
  rewrite alpha_weight in Hv.
  destruct (getitem (remaining_required st) k) as [required|]; [|discriminate].
  destruct (getitem (accepted_counts st) k) as [accepted|]; [|discriminate].
  cbn [mbind result_bind] in Hv |- *. rewrite Hv. cbn [mbind result_bind].
  destruct (Py.num_add_float score v); simpl; [apply IH'|reflexivity].
Qed.



Lemma alpha_returns (st : GameController) (a : string) (need : Z) :
  remaining_req st a = Ok need ->
  returns (Py.float_of_int (R st)) ->
  need <= 2 ^ 1023 ->
  returns (alpha st a).
Proof.
  intros Hneed [f Hf] Hbound. unfold alpha. rewrite Hneed. simpl.
  unfold Py.int_add_float at 1. rewrite Hf. simpl.
  assert (Hden : Py.int_add_float (R st) epsilon = Ok (f + epsilon)%float)
    by (unfold Py.int_add_float; rewrite Hf; reflexivity).
  apply denominator_nonzero in Hden.
  assert (Hn : returns (Py.float_of_int need)).
  { apply remaining_req_Ok in Hneed as (r & c & _ & _ & Hmax).
    apply (float_of_int_between 0 need (2 ^ 1023)); [lia| |];
      eexists; vm_compute; reflexivity. }
  destruct Hn as [x Hx]. unfold Py.int_div_float. rewrite Hx. simpl.
  rewrite Hden. eexists. reflexivity.
Qed.

Lemma alphas_returns (st : GameController) (attrs : list string) :
  (forall a, a ∈ attrs -> returns (alpha st a)) ->
  returns (alphas_of st attrs).
Proof.
  induction attrs as [|a attrs IH]; intros Hall; simpl.
  - eexists. reflexivity.
  - destruct (Hall a ltac:(left)) as [v ->]. simpl.
    destruct IH as [rest ->]; [intros b Hb; apply Hall; right; exact Hb|].
    eexists. reflexivity.
Qed.

Lemma score_loop_returns (al : PyDict.t float) (items : list (string * bool))
    (score : Py.num) :
  score = Py.Int 0 \/ (exists f, score = Py.Float f) ->
  returns (score_loop al score items).
Proof.
  revert score. induction items as [|[k h] items IH]; intros score Hs; simpl.
  - eexists. reflexivity.
  - destruct (h && PyDict.mem k al) eqn:Hc; [|apply IH; exact Hs].
    apply andb_true_iff in Hc as [_ Hmem].
    apply PyDict_mem_true, PyDict_get_keys in Hmem as [v Hv].
    apply PyDict_getitem_Ok in Hv. rewrite Hv. simpl.
    destruct Hs as [->|[f ->]]; simpl; apply IH; right; eauto.
Qed.

Lemma forced_supply_converts (st : GameController) (pa : PyDict.t bool)
    (b : bool) (a : string) :
  forced st pa = Ok b ->
  a ∈ PyDict.keys (p_a st) ->
  returns (Py.float_of_int (R st)).
Proof.
  unfold forced, _compute_expected_future_supply. intros H Ha. unbind H.
  destruct (PyDict.keys (p_a st)) as [|a0 attrs]; [inversion Ha|].
  simpl in Hv. unbind Hv. unbind Hv. unfold Py.int_mul_float in Hv1.
  unbind Hv1. eexists. eassumption.
Qed.

Lemma zero_counts_lookup (attrs : list string) (m0 : gmap string Z)
    (a : string) :
  foldl (fun m a => <[a := 0]> m) m0 attrs !! a =
    if decide (a ∈ attrs) then Some 0 else m0 !! a.
Proof.
  revert m0. induction attrs as [|x attrs IH]; intros m0; simpl.
  - destruct (decide (a ∈ [])) as [H|_]; [inversion H|reflexivity].
  - rewrite IH. destruct (decide (a ∈ attrs)) as [Hin|Hnin].
    + destruct (decide (a ∈ x :: attrs)) as [_|Hn]; [reflexivity|].
      exfalso. apply Hn. right. exact Hin.
    + destruct (decide (x = a)) as [->|Hne].
      * rewrite lookup_insert_eq.
        destruct (decide (a ∈ a :: attrs)) as [_|Hn]; [reflexivity|].
        exfalso. apply Hn. left.
      * rewrite lookup_insert_ne by assumption.
        destruct (decide (a ∈ x :: attrs)) as [Hin|_]; [|reflexivity].
        apply elem_of_cons in Hin as [->|Hin]; contradiction.
Qed.

Lemma required_lookup (cs : list Constraint) (m0 : gmap string Z)
    (a : string) :
  is_Some (foldl (fun m c => <[attribute c := minCount c]> m) m0 cs !! a)
  <-> is_Some (m0 !! a) \/ exists c, c ∈ cs /\ attribute c = a.
Proof.
  revert m0. induction cs as [|c cs IH]; intros m0; simpl.
  - split; [auto|]. intros [H|(c & Hc & _)]; [exact H|inversion Hc].
  - rewrite IH. split.
    + intros [H|(c' & Hc' & Ha)].
      * destruct (decide (attribute c = a)) as [Heq|Hne].
        -- right. exists c. split; [left|exact Heq].
        -- rewrite lookup_insert_ne in H by assumption. left. exact H.
      * right. exists c'. split; [right; exact Hc'|exact Ha].
    + intros [H|(c' & Hc' & Ha)].
      * destruct (decide (attribute c = a)) as [Heq|Hne].
        -- left. rewrite Heq, lookup_insert_eq. eauto.
        -- left. rewrite lookup_insert_ne by assumption. exact H.
      * apply elem_of_cons in Hc' as [->|Hc'].
        -- left. rewrite Ha, lookup_insert_eq. eauto.
        -- right. eauto.
Qed.


(** C9.  [_initialize_game_state] gives [remaining_required] an entry for
    the constrained attributes only, and [accepted_counts] one for every
    attribute of the statistics; [_compute_alphas] indexes
    [remaining_required] by every attribute of the statistics.  So, when
    the forced-accept check lets a person through, [make_decision]
    returns only if every attribute of the statistics has a constraint,
    and it raises a [KeyError] at the first attribute of the statistics
    that has none.  It does return when every attribute of the statistics
    has a constraint and a count, and no more than [2 ^ 1023] of it are
    still needed. *)
Theorem scoring_needs_every_constraint :
  (forall st0 a,
     (is_Some (remaining_required (_initialize_game_state st0) !! a)
      <-> exists c, c ∈ constraints st0 /\ attribute c = a)
     /\ (a ∈ PyDict.keys (p_a st0) ->
         accepted_counts (_initialize_game_state st0) !! a = Some 0))
  /\ (forall st person_data,
        forced st (attributes person_data) = Ok false ->
        (returns (make_decision st person_data) ->
         forall a, a ∈ PyDict.keys (p_a st) ->
                   is_Some (remaining_required st !! a))
        /\ (forall pre a post,
              PyDict.keys (p_a st) = pre ++ a :: post ->
              returns (alphas_of st pre) ->
              remaining_required st !! a = None ->
              make_decision st person_data = Raise (KeyError a))
        /\ ((forall a, a ∈ PyDict.keys (p_a st) ->
                exists need, remaining_req st a = Ok need
                             /\ need <= 2 ^ 1023) ->
            returns (make_decision st person_data))).
Proof.
  split.
  - intros st0 a. unfold _initialize_game_state. simpl. split.
    + rewrite required_lookup. split.
      * intros [[x Hx]|H]; [rewrite lookup_empty in Hx; discriminate|exact H].
      * auto.
    + intros Ha. rewrite zero_counts_lookup.
      destruct (decide (a ∈ PyDict.keys (p_a st0))); [reflexivity|contradiction].
  - intros st person_data Hf. split; [|split].
    + intros [b Hb] a Ha. rewrite make_decision_forced, Hf in Hb.
      simpl in Hb. unbind Hb. unfold _compute_score in Hv. unbind Hv.
      destruct (alphas_each _ _ _ a Hv0 Ha) as [x Hx].
      apply alpha_Ok in Hx as (need & _ & Hn & _).
      apply remaining_req_Ok in Hn as (r & _ & Hr & _). eauto.
    + intros pre a post Hkeys [x Hpre] Hnone.
      rewrite make_decision_forced, Hf. simpl.
      unfold _compute_score, _compute_alphas.
      rewrite Hkeys, alphas_of_app, Hpre. simpl.
      unfold alpha, remaining_req, getitem. rewrite Hnone. reflexivity.
    + intros Hall. rewrite make_decision_forced, Hf. simpl.
      unfold _compute_score, _compute_alphas.
      destruct (alphas_returns st (PyDict.keys (p_a st))) as [al ->].
      { intros a Ha. destruct (Hall a Ha) as (need & Hneed & Hb).
        eapply alpha_returns; [exact Hneed| |exact Hb].
        eapply forced_supply_converts; eassumption. }
      simpl.
      destruct (score_loop_returns al (attributes person_data) (Py.Int 0))
        as [score ->]; [left; reflexivity|].
      eexists. reflexivity.
Qed.

(** ** The probability model *)

Lemma joint_row_get (p : PyDict.t float) (corr : PyDict.t (PyDict.t float))
    (a : string) (attrs : list string) (row : PyDict.t float) (b : string) :
  joint_row p corr a attrs = Ok row ->
  b ∈ attrs ->
  exists v, PyDict.get row b = Some v /\ joint_entry p corr a b = Ok v.
Proof.
  revert row. induction attrs as [|b0 attrs IH]; intros row; simpl.
  - intros _ Hb. inversion Hb.
  - intros H Hb. unbind H. unbind H. injection H as <-. simpl.
    destruct (String.eqb_spec b0 b) as [->|Hne]; [eauto|].
    apply (IH v0 Hv0). inversion Hb; subst; [congruence|assumption].
Qed.

Lemma joint_table_get (p : PyDict.t float) (corr : PyDict.t (PyDict.t float))
    (outer attrs : list string) (j : PyDict.t (PyDict.t float)) (a : string) :
  joint_table p corr outer attrs = Ok j ->
  a ∈ outer ->
  exists row, PyDict.get j a = Some row /\ joint_row p corr a attrs = Ok row.
Proof.
  revert j. induction outer as [|a0 outer IH]; intros j; simpl.
  - intros _ Ha. inversion Ha.
  - intros H Ha. unbind H. unbind H. injection H as <-. simpl.
    destruct (String.eqb_spec a0 a) as [->|Hne]; [eauto|].
    apply (IH v0 Hv0). inversion Ha; subst; [congruence|assumption].
Qed.

Lemma joint_entry_of_table (st st' : GameController) (a b : string) :
  _initialize_probabilities st = Ok st' ->
  a ∈ PyDict.keys (relativeFrequencies (attribute_statistics st)) ->
  b ∈ PyDict.keys (relativeFrequencies (attribute_statistics st)) ->
  exists v,
    joint st' a b = Ok v
    /\ joint_entry (relativeFrequencies (attribute_statistics st))
         (correlations (attribute_statistics st)) a b = Ok v.
Proof.
  unfold _initialize_probabilities. intros H Ha Hb. unbind H.
  injection H as <-. unfold joint. simpl.
  destruct (joint_table_get _ _ _ _ _ a Hv Ha) as (row & Hrow & Hr).
  destruct (joint_row_get _ _ _ _ _ b Hr Hb) as (x & Hx & Hxe).
  exists x. apply PyDict_getitem_Ok in Hrow, Hx.
  rewrite Hrow. simpl. auto.
Qed.

Lemma one_minus (p : float) : Py.int_sub_float 1 p = Ok (1 - p)%float.
Proof. reflexivity. Qed.

Lemma joint_entry_off_diagonal (p : PyDict.t float)
    (corr : PyDict.t (PyDict.t float)) (a b : string) (v : float) :
  a <> b ->
  joint_entry p corr a b = Ok v <->
  exists row rho pa pb r,
    PyDict.get corr a = Some row /\ PyDict.get row b = Some rho
    /\ PyDict.get p a = Some pa /\ PyDict.get p b = Some pb
    /\ Py.math_sqrt (radicand pa pb) = Ok r
    /\ v = (rho * r + pa * pb)%float.
Proof.
  intros Hne. unfold joint_entry.
  destruct (String.eqb_spec a b) as [|_]; [contradiction|]. split.
  - intros H. do 4 unbind H. rewrite !one_minus in H. simpl in H.
    unbind H. injection H as <-.
    apply PyDict_getitem_Ok in Hv, Hv0, Hv1, Hv2.
    exists v0, v1, v2, v3, v4. unfold radicand. auto 10.
  - intros (row & rho & pa & pb & r & Hrow & Hrho & Hpa & Hpb & Hr & ->).
    apply PyDict_getitem_Ok in Hrow, Hrho, Hpa, Hpb.
    unfold radicand in Hr.
    rewrite Hrow; cbn [mbind result_bind]. rewrite Hrho; cbn [mbind result_bind].
    rewrite Hpa; cbn [mbind result_bind]. rewrite Hpb; cbn [mbind result_bind].
    rewrite !one_minus; cbn [mbind result_bind]. rewrite Hr. reflexivity.
Qed.

Lemma SFmul_comm (x y : spec_float) : SF64mul x y = SF64mul y x.
Proof.
  unfold SF64mul.
  destruct x as [sx|sx| |sx mx ex], y as [sy|sy| |sy my ey]; simpl;
    try reflexivity; try (rewrite xorb_comm; reflexivity).
  rewrite xorb_comm, Pos.mul_comm, Z.add_comm. reflexivity.
Qed.

Lemma float_mul_comm (x y : float) : (x * y = y * x)%float.
Proof.
  apply Prim2SF_inj. rewrite !mul_spec. apply SFmul_comm.
Qed.

Lemma joint_diagonal (st st' : GameController) (a : string) (pa : float) :
  _initialize_probabilities st = Ok st' ->
  PyDict.get (relativeFrequencies (attribute_statistics st)) a = Some pa ->
  joint st' a a = Ok pa.
Proof.
  intros Hinit Hpa.
  assert (Ha : a ∈ PyDict.keys (relativeFrequencies (attribute_statistics st)))
    by (apply PyDict_get_keys; eauto).
  destruct (joint_entry_of_table st st' a a Hinit Ha Ha) as (v & Hj & He).
  unfold joint_entry in He. rewrite String.eqb_refl in He.
  apply PyDict_getitem_Ok in He. congruence.
Qed.

Lemma joint_off_diagonal (st st' : GameController) (a b : string)
    (pa pb : float) :
  _initialize_probabilities st = Ok st' ->
  PyDict.get (relativeFrequencies (attribute_statistics st)) a = Some pa ->
  PyDict.get (relativeFrequencies (attribute_statistics st)) b = Some pb ->
  a <> b ->
  exists rho r,
    correlation st a b = Ok rho
    /\ Py.math_sqrt (radicand pa pb) = Ok r
    /\ joint st' a b = Ok (rho * r + pa * pb)%float.
Proof.
  intros Hinit Hpa Hpb Hne.
  destruct (joint_entry_of_table st st' a b Hinit) as (v & Hj & He);
    try (apply PyDict_get_keys; eauto).
  apply joint_entry_off_diagonal in He
    as (row & rho & pa' & pb' & r & Hrow & Hrho & Hpa' & Hpb' & Hr & ->);
    [|exact Hne].
  assert (pa' = pa) by congruence. assert (pb' = pb) by congruence.
  subst pa' pb'. exists rho, r. split; [|auto].
  unfold correlation. apply PyDict_getitem_Ok in Hrow, Hrho.
  rewrite Hrow. simpl. exact Hrho.
Qed.

(** C6, as the code has it.  In the table that
    [_initialize_probabilities] builds, [P11[a][a]] is [p_a[a]] itself and,
    for [a] other than [b], [P11[a][b]] is
    [correlations[a][b] * sqrt(p_a[a] * (1 - p_a[a]) * p_a[b] * (1 - p_a[b]))
     + p_a[a] * p_a[b]],
    each operation rounded to binary64.  [P11[a][b]] and [P11[b][a]] are
    the same float when [correlations[a][b]] and [correlations[b][a]] are
    and the product under the square root rounds to the same float in
    both orders. *)
Theorem joint_table_entries (st st' : GameController) (a b : string)
    (pa pb : float) :
  _initialize_probabilities st = Ok st' ->
  PyDict.get (relativeFrequencies (attribute_statistics st)) a = Some pa ->
  PyDict.get (relativeFrequencies (attribute_statistics st)) b = Some pb ->
  p_a st' = relativeFrequencies (attribute_statistics st)
  /\ joint st' a a = Ok pa
  /\ (a <> b ->
      exists rho r,
        correlation st a b = Ok rho
        /\ Py.math_sqrt (radicand pa pb) = Ok r
        /\ joint st' a b = Ok (rho * r + pa * pb)%float)
  /\ (a <> b ->
      correlation st a b = correlation st b a ->
      radicand pa pb = radicand pb pa ->
      joint st' a b = joint st' b a).
Proof.
  intros Hinit Hpa Hpb.
  split; [|split; [|split]].
  - unfold _initialize_probabilities in Hinit. unbind Hinit.
    injection Hinit as <-. reflexivity.
  - eapply joint_diagonal; eassumption.
  - apply joint_off_diagonal; assumption.
  - intros Hne Hcorr Hrad.
    destruct (joint_off_diagonal st st' a b pa pb Hinit Hpa Hpb Hne)
      as (rho & r & Hrho & Hr & ->).
    destruct (joint_off_diagonal st st' b a pb pa Hinit Hpb Hpa
                (not_eq_sym Hne)) as (rho' & r' & Hrho' & Hr' & ->).
    rewrite Hrho, Hrho' in Hcorr. injection Hcorr as <-.
    rewrite Hrad, Hr' in Hr. injection Hr as <-.
    rewrite (float_mul_comm pa pb). reflexivity.
Qed.

(** C6 as stated fails: with marginals 0.3 and 0.25 and the symmetric
    correlation 0.5, [P11["A"]["B"]] and [P11["B"]["A"]] are different
    floats, because the products under the two square roots round
    differently. *)
Lemma joint_table_not_symmetric :
  let st := set_game "game" [] (two_attributes 0.3 0.25 0.5) init in
  correlation st "A" "B" = correlation st "B" "A"
  /\ exists st' x y,
       _initialize_probabilities st = Ok st'
       /\ joint st' "A" "B" = Ok x
       /\ joint st' "B" "A" = Ok y
       /\ (x =? y)%float = false.
Proof.
  split; [reflexivity|].
  eexists _, _, _. split; [reflexivity|].
  split; [reflexivity|]. split; reflexivity.
Qed.

Lemma math_sqrt_Raise (x : float) (e : exn) :
  Py.math_sqrt x = Raise e -> e = ValueError.
Proof.
  unfold Py.math_sqrt.
  destruct (is_nan (sqrt x) && negb (is_nan x)); congruence.
Qed.

Lemma joint_entry_Raise (p : PyDict.t float) (corr : PyDict.t (PyDict.t float))
    (a b : string) (e : exn) :
  joint_entry p corr a b = Raise e -> lookup_error e.
Proof.
  unfold joint_entry, lookup_error. destruct (String.eqb a b).
  - intros H. apply PyDict_getitem_Raise in H as [_ ->]. eauto.
  - intros H.
    apply bind_Raise in H as [H|(row & _ & H)];
      [apply PyDict_getitem_Raise in H as [_ ->]; eauto|].
    apply bind_Raise in H as [H|(rho & _ & H)];
      [apply PyDict_getitem_Raise in H as [_ ->]; eauto|].
    apply bind_Raise in H as [H|(pa & _ & H)];
      [apply PyDict_getitem_Raise in H as [_ ->]; eauto|].
    apply bind_Raise in H as [H|(pb & _ & H)];
      [apply PyDict_getitem_Raise in H as [_ ->]; eauto|].
    rewrite !one_minus in H. cbn [mbind result_bind] in H.
    apply bind_Raise in H as [H|(r & _ & H)]; [|discriminate].
    apply math_sqrt_Raise in H. auto.
Qed.

Lemma joint_row_Raise (p : PyDict.t float) (corr : PyDict.t (PyDict.t float))
    (a : string) (attrs : list string) (e : exn) :
  joint_row p corr a attrs = Raise e -> lookup_error e.
Proof.
  induction attrs as [|b attrs IH]; simpl; [discriminate|].
  intros H. apply bind_Raise in H as [H|(v & _ & H)].
  - eapply joint_entry_Raise. exact H.
  - apply bind_Raise in H as [H|(row & _ & H)]; [auto|discriminate].
Qed.

Lemma joint_table_Raise (p : PyDict.t float) (corr : PyDict.t (PyDict.t float))
    (outer attrs : list string) (e : exn) :
  joint_table p corr outer attrs = Raise e -> lookup_error e.
Proof.
  induction outer as [|a outer IH]; simpl; [discriminate|].
  intros H. apply bind_Raise in H as [H|(v & _ & H)].
  - eapply joint_row_Raise. exact H.
  - apply bind_Raise in H as [H|(rows & _ & H)]; [auto|discriminate].
Qed.

Lemma is_nan_spec (x : float) :
  is_nan x = match Prim2SF x with S754_nan => true | _ => false end.
Proof.
  unfold is_nan. rewrite FloatAxioms.eqb_spec. unfold SFeqb, SFcompare.
  destruct (Prim2SF x) as [s|[|]| |[|] m e];
    rewrite ?Z.compare_refl, ?Pos.compare_cont_refl; reflexivity.
Qed.

Lemma SFsqrt_core_nonneg (m e : Z) :
  0 <= fst (fst (SFsqrt_core_binary prec emax m e)).
Proof.
  unfold SFsqrt_core_binary.
  match goal with |- context [Z.sqrtrem ?n] =>
    pose proof (Z.sqrtrem_sqrt n) as Hq; pose proof (Z.sqrt_nonneg n) as Hn;
    destruct (Z.sqrtrem n) as [q r] end.
  cbn [fst] in *. lia.
Qed.

Lemma SFsqrt_nan (x : spec_float) :
  SF64sqrt x = S754_nan <->
  x = S754_nan \/ SFltb x (S754_zero false) = true.
Proof.
  destruct x as [s|[|]| |[|] m e]; cbn [SF64sqrt SFsqrt SFltb SFcompare];
    try (split; [intros H; try discriminate H; auto
                |intros [H|H]; try discriminate H; reflexivity]).
  pose proof (SFsqrt_core_nonneg (Z.pos m) e) as Hn.
  destruct (SFsqrt_core_binary prec emax (Z.pos m) e) as [[mz ez] lz].
  cbn [fst] in Hn.
  exfalso. revert H. apply binary_round_aux_not_nan. exact Hn.
Qed.

(** [math.sqrt] fails exactly on a negative argument. *)
Lemma math_sqrt_returns (x : float) :
  returns (Py.math_sqrt x) <-> (x <? 0)%float = false.
Proof.
  unfold Py.math_sqrt, returns. rewrite !is_nan_spec, sqrt_spec, ltb_spec.
  change (Prim2SF 0) with (S754_zero false).
  pose proof (SFsqrt_nan (Prim2SF x)) as Hs.
  destruct (Prim2SF x) as [s|[|]| |[|] m e] eqn:E;
    cbn [SFltb SFcompare] in *.
  all: destruct (SF64sqrt _) eqn:Es; cbn [andb negb].
  all: try (split; [reflexivity|eexists; reflexivity]).
  all: try (split; [intros [? [=]]|discriminate]).
  all: try (exfalso; destruct Hs as [Hs _];
            destruct (Hs eq_refl) as [?|?]; discriminate).
  all: try (exfalso; destruct Hs as [_ Hs]; discriminate Hs; auto).
Qed.

Lemma joint_row_returns (p : PyDict.t float) (corr : PyDict.t (PyDict.t float))
    (a : string) (attrs : list string) :
  (forall b, b ∈ attrs -> returns (joint_entry p corr a b)) ->
  returns (joint_row p corr a attrs).
Proof.
  induction attrs as [|b attrs IH]; intros Hall; simpl.
  - eexists. reflexivity.
  - destruct (Hall b ltac:(left)) as [v ->]. simpl.
    destruct IH as [row ->]; [intros c Hc; apply Hall; right; exact Hc|].
    eexists. reflexivity.
Qed.

Lemma joint_table_returns (p : PyDict.t float)
    (corr : PyDict.t (PyDict.t float)) (outer attrs : list string) :
  (forall a, a ∈ outer -> returns (joint_row p corr a attrs)) ->
  returns (joint_table p corr outer attrs).
Proof.
  induction outer as [|a outer IH]; intros Hall; simpl.
  - eexists. reflexivity.
  - destruct (Hall a ltac:(left)) as [row ->]. simpl.
    destruct IH as [rows ->]; [intros c Hc; apply Hall; right; exact Hc|].
    eexists. reflexivity.
Qed.

(** The table is built exactly when every correlation between two
    different attributes is present and no product under a square root
    is negative. *)
Lemma initialize_probabilities_returns (st : GameController) :
  returns (_initialize_probabilities st) <->
  forall a b pa pb,
    PyDict.get (relativeFrequencies (attribute_statistics st)) a = Some pa ->
    PyDict.get (relativeFrequencies (attribute_statistics st)) b = Some pb ->
    a <> b ->
    returns (correlation st a b) /\ (radicand pa pb <? 0)%float = false.
Proof.
  split.
  - intros [st' Hinit] a b pa pb Hpa Hpb Hne.
    destruct (joint_off_diagonal st st' a b pa pb Hinit Hpa Hpb Hne)
      as (rho & r & Hrho & Hr & _).
    split; [exists rho; exact Hrho|].
    apply math_sqrt_returns. exists r. exact Hr.
  - intros Hall. unfold _initialize_probabilities.
    set (p := relativeFrequencies (attribute_statistics st)) in *.
    set (corr := correlations (attribute_statistics st)) in *.
    destruct (joint_table_returns p corr (PyDict.keys p) (PyDict.keys p))
      as [j ->]; [|eexists; reflexivity].
    intros a Ha. apply joint_row_returns. intros b Hb.
    apply PyDict_get_keys in Ha as [pa Hpa], Hb as [pb Hpb].
    destruct (decide (a = b)) as [<-|Hne].
    + exists pa. unfold joint_entry. rewrite String.eqb_refl.
      apply PyDict_getitem_Ok. exact Hpa.
    + destruct (Hall a b pa pb Hpa Hpb Hne) as [[rho Hrho] Hrad].
      apply math_sqrt_returns in Hrad as [r Hr].
      unfold correlation in Hrho. fold corr in Hrho. unbind Hrho.
      apply PyDict_getitem_Ok in Hv, Hrho.
      exists (rho * r + pa * pb)%float.
      apply joint_entry_off_diagonal; [exact Hne|].
      exists v, rho, pa, pb, r. auto 10.
Qed.

(** C7, as the code has it.  [_initialize_probabilities] checks nothing
    and the code has no [ConfigError].  It fails only with a [KeyError] or
    with the [ValueError] of [math.sqrt], and it builds the table exactly
    when, for every two different attributes of the statistics, the
    entry [correlations[a][b]] is present and the product
    [p_a[a] * (1 - p_a[a]) * p_a[b] * (1 - p_a[b])] under the square root
    is not negative: no marginal is refused for being outside (0,1).  So
    it fails whenever such an entry is missing; with a single attribute
    it succeeds whatever the marginal is; and the marginal of an unknown
    attribute is a [KeyError]. *)
Theorem probabilities_unvalidated (st : GameController) :
  (forall e, _initialize_probabilities st = Raise e -> lookup_error e)
  /\ (returns (_initialize_probabilities st) <->
      forall a b pa pb,
        PyDict.get (relativeFrequencies (attribute_statistics st)) a
          = Some pa ->
        PyDict.get (relativeFrequencies (attribute_statistics st)) b
          = Some pb ->
        a <> b ->
        returns (correlation st a b)
        /\ (radicand pa pb <? 0)%float = false)
  /\ (forall a b,
        a ∈ PyDict.keys (relativeFrequencies (attribute_statistics st)) ->
        b ∈ PyDict.keys (relativeFrequencies (attribute_statistics st)) ->
        a <> b ->
        ~ returns (correlation st a b) ->
        exists e, _initialize_probabilities st = Raise e /\ lookup_error e)
  /\ (forall a p,
        relativeFrequencies (attribute_statistics st) = [(a, p)] ->
        exists st',
          _initialize_probabilities st = Ok st'
          /\ marginal st' a = Ok p /\ joint st' a a = Ok p)
  /\ (forall a,
        a ∉ PyDict.keys (p_a st) -> marginal st a = Raise (KeyError a)).
Proof.
  assert (Herr : forall e,
             _initialize_probabilities st = Raise e -> lookup_error e).
  { unfold _initialize_probabilities. intros e H.
    apply bind_Raise in H as [H|(j & _ & H)]; [|discriminate].
    eapply joint_table_Raise. exact H. }
  split; [exact Herr|]. split; [apply initialize_probabilities_returns|].
  split; [|split].
  - intros a b Ha Hb Hne Hcorr.
    destruct (_initialize_probabilities st) as [st'|e] eqn:Hinit;
      [|exists e; auto].
    exfalso. apply Hcorr.
    apply PyDict_get_keys in Ha as [pa Hpa], Hb as [pb Hpb].
    destruct (joint_off_diagonal st st' a b pa pb Hinit Hpa Hpb Hne)
      as (rho & _ & Hrho & _).
    exists rho. exact Hrho.
  - intros a p Hrf. unfold _initialize_probabilities, marginal, joint.
    rewrite Hrf. simpl. unfold joint_entry, PyDict.getitem. simpl.
    rewrite String.eqb_refl. simpl. eexists. split; [reflexivity|]. simpl.
    rewrite String.eqb_refl. simpl. rewrite String.eqb_refl. auto.
  - intros a Ha. apply PyDict_get_None in Ha.
    unfold marginal, PyDict.getitem. rewrite Ha. reflexivity.
Qed.

(** C7 as stated fails: marginals 1.5 and 2, both outside (0,1), are
    accepted and a table is built from them; marginals 1.5 and 0.5 end in
    the [ValueError] of [math.sqrt]; a missing correlation entry ends in
    a [KeyError]. *)
Lemma probabilities_accept_bad_marginals :
  returns (_initialize_probabilities
             (set_game "game" [] (two_attributes 1.5 2 0.5) init))
  /\ _initialize_probabilities
       (set_game "game" [] (two_attributes 1.5 0.5 0.5) init)
     = Raise ValueError
  /\ _initialize_probabilities
       (set_game "game" []
          {| relativeFrequencies := [("A"%string, 0.5%float);
                                     ("B"%string, 0.5%float)];
             correlations := [("A"%string, [("A"%string, 1%float)])] |}
          init)
     = Raise (KeyError "B").
Proof.
  split; [eexists; reflexivity|]. split; reflexivity.
Qed.

(** ** Attributes the controller does not track, and capacity *)

Lemma untracked_first_raises (st : GameController) (b : string)
    (rest : PyDict.t bool) :
  returns (_compute_expected_future_supply st) ->
  ~ tracked st b ->
  make_decision st (person_of ((b, true) :: rest)) = Raise (KeyError b).
Proof.
  intros [ef Hef] Hnt. unfold make_decision. rewrite Hef.
  cbn [person_of attributes mbind result_bind].
  unfold _should_force_accept.
  cbn [PyDict.keys map fst force_accept_loop].
  assert (Hc : PyDict.mem b ((b, true) :: rest)
               && default false (PyDict.get ((b, true) :: rest) b) = true).
  { apply carried_cond. unfold carries. cbn [PyDict.get].
    rewrite String.eqb_refl. reflexivity. }
  rewrite Hc.
  destruct (remaining_req st b) as [need|e] eqn:Hneed.
  - cbn [mbind result_bind].
    destruct (PyDict.get ef b) as [supply|] eqn:Hsup.
    + exfalso. apply Hnt.
      apply remaining_req_Ok in Hneed as (r & c & Hr & Hcount & _).
      eapply expected_future_get in Hsup as [_ (p & Hp & _)]; [|exact Hef].
      repeat split; eauto.
    + unfold PyDict.getitem. rewrite Hsup. reflexivity.
  - apply remaining_req_Raise in Hneed as ->. reflexivity.
Qed.

(** C3 fails on the code.  A person whose first carried attribute is not
    tracked makes the forced-accept check, and so [make_decision], raise
    [KeyError].  With "B" missing from the statistics: the score and the
    counts leave "B" out as the claim says, the decision does not; so it is
    for an attribute of the statistics that has no constraint. *)
Theorem unknown_attribute_raises :
  (forall st b rest,
     returns (_compute_expected_future_supply st) ->
     ~ tracked st b ->
     make_decision st (person_of ((b, true) :: rest)) = Raise (KeyError b))
  /\ let st := scenario_of 3 in
     let person_attributes := [("B"%string, true)] in
     PyDict.get (p_a st) "B" = None
     /\ make_decision st (person_of person_attributes) = Raise (KeyError "B")
     /\ forced st person_attributes = Raise (KeyError "B")
     /\ _compute_score st person_attributes = Ok (Py.Int 0)
     /\ accepted_counts (update_state true person_attributes st)
        = accepted_counts st
     /\ make_decision st (person_of [("B"%string, true); ("A"%string, true)])
        = Raise (KeyError "B")
     /\ make_decision st (person_of [("A"%string, true); ("B"%string, true)])
        = Ok true
     /\ make_decision
          (set_remaining_required ∅ st) (person_of [("A"%string, true)])
        = Raise (KeyError "A").
Proof.
  split; [exact untracked_first_raises|].
  repeat split; vm_compute; reflexivity.
Qed.

Lemma scarce_without_capacity (st : GameController) (a : string) (p : float)
    (required accepted : Z) :
  R st = 0 ->
  PyDict.get (p_a st) a = Some p ->
  is_finite_SF (Prim2SF p) = true ->
  remaining_required st !! a = Some required ->
  accepted_counts st !! a = Some accepted ->
  accepted < required ->
  scarce st a.
Proof.
  intros HR Hp Hfin Hr Hc Hlt.
  exists p, required, accepted, (0 * p)%float.
  split; [exact Hp|]. split; [exact Hr|]. split; [exact Hc|].
  split; [rewrite HR; reflexivity|].
  rewrite (float_lt_int_xval 1074) by lia. rewrite mul_spec.
  change (Prim2SF 0) with (S754_zero false).
  destruct (Prim2SF p) as [s|s| |s m e]; try discriminate;
    cbn [SF64mul SFmul xval ext_lt_int]; apply Z.ltb_lt;
    pose proof (pow2_pos 1074 ltac:(lia)); nia.
Qed.

(** C10.  The forced-accept check does not look at the capacity: with
    [R = 0], a person carrying an attribute with a finite marginal of
    which more is required than was accepted is accepted, and
    [update_state] then takes [R] to -1.  [update_state] lowers [R] on
    every accept; scoring accepts nobody when [R <= 0]; the loop of
    [run_game] makes no pass when [R <= 0]. *)
Theorem forced_accept_ignores_capacity :
  (exists st person_data,
     R st = 0
     /\ scarce st "A"
     /\ carries (attributes person_data) "A"
     /\ make_decision st person_data = Ok true
     /\ R (update_state true (attributes person_data) st) = -1)
  /\ (forall st a p required accepted,
        R st = 0 ->
        PyDict.get (p_a st) a = Some p ->
        is_finite_SF (Prim2SF p) = true ->
        remaining_required st !! a = Some required ->
        accepted_counts st !! a = Some accepted ->
        accepted < required ->
        make_decision st (person_of [(a, true)]) = Ok true)
  /\ (forall st person_attributes,
        R (update_state true person_attributes st) = R st - 1)
  /\ (forall st person_data,
        forced st (attributes person_data) = Ok false ->
        R st <= 0 ->
        make_decision st person_data <> Ok true)
  /\ (forall s, R (controller s) <= 0 -> loop_guard s = false).
Proof.
  split; [|split; [|split; [|split]]].
  - exists (scenario_of 0), (person_of [("A"%string, true)]).
    split; [reflexivity|]. split.
    + exists 0.5%float, 2, 0, 0%float. repeat split; reflexivity.
    + repeat split; vm_compute; reflexivity.
  - intros st a p required accepted HR Hp Hfin Hr Hc Hlt.
    pose proof (scarce_without_capacity st a p required accepted
                  HR Hp Hfin Hr Hc Hlt) as Hsc.
    destruct (scarce_supply st a Hsc)
      as (need & supply & Hneed & Hsup & Hltb & [ef Hef]).
    rewrite make_decision_forced.
    unfold forced, _should_force_accept. rewrite Hef.
    cbn [person_of attributes PyDict.keys map fst mbind result_bind].
    change [a] with ([] ++ a :: []).
    rewrite (force_accept_loop_short_circuit st [(a, true)] ef [] []
               a need supply); [reflexivity| | | | |]; auto.
    + intros b Hb. inversion Hb.
    + unfold carries. simpl. rewrite String.eqb_refl. reflexivity.
  - reflexivity.
  - intros st person_data Hf HR Hd.
    rewrite make_decision_forced, Hf in Hd. simpl in Hd.
    destruct (_compute_score st (attributes person_data)); [|discriminate].
    simpl in Hd. injection Hd as Hd. apply andb_true_iff in Hd as [_ Hd].
    apply Z.ltb_lt in Hd. lia.
  - intros s HR. destruct (loop_guard s) eqn:Hg; [|reflexivity].
    apply loop_guard_true in Hg as (_ & Hpos & _). lia.
Qed.

(** ** Less capacity, more pressure *)

Lemma force_accept_loop_first (st : GameController) (pa : PyDict.t bool)
    (ef : PyDict.t float) (todo : list string) :
  force_accept_loop st pa ef todo = Ok true ->
  exists pre a post need supply,
    todo = pre ++ a :: post
    /\ (forall b, b ∈ pre -> carries pa b ->
          returns (remaining_req st b) /\ is_Some (PyDict.get ef b))
    /\ carries pa a
    /\ remaining_req st a = Ok need
    /\ PyDict.get ef a = Some supply
    /\ Py.float_lt_int supply need = true.
Proof.
  induction todo as [|attr todo IH]; simpl; [discriminate|].
  destruct (PyDict.mem attr pa && default false (PyDict.get pa attr))
    eqn:Hc.
  - apply carried_cond in Hc. intros H. unbind H. unbind H.
    apply PyDict_getitem_Ok in Hv0.
    destruct (Py.float_lt_int v0 v) eqn:Hlt.
    + exists [], attr, todo, v, v0. split; [reflexivity|].
      split; [intros b Hb; inversion Hb|]. auto.
    + destruct (IH H) as (pre & a & post & need & supply & -> & Hpre & Hrest).
      exists (attr :: pre), a, post, need, supply.
      split; [reflexivity|]. split; [|exact Hrest].
      intros b Hb Hcb. apply elem_of_cons in Hb as [->|Hb]; [|auto].
      split; [exists v; exact Hv|eauto].
  - intros H.
    destruct (IH H) as (pre & a & post & need & supply & -> & Hpre & Hrest).
    exists (attr :: pre), a, post, need, supply.
    split; [reflexivity|]. split; [|exact Hrest].
    intros b Hb Hcb. apply elem_of_cons in Hb as [->|Hb]; [|auto].
    apply carried_cond in Hcb. congruence.
Qed.

Lemma remaining_req_same (st1 st2 : GameController) (a : string) :
  remaining_required st2 = remaining_required st1 ->
  accepted_counts st2 = accepted_counts st1 ->
  remaining_req st2 a = remaining_req st1 a.
Proof. unfold remaining_req. intros -> ->. reflexivity. Qed.

(** C8.  Two states with the same marginals, requirements and accepted
    counts, all marginals non-negative, the second with strictly less
    capacity (and not below [- 2 ^ 1023], so that it converts to a float):
    a person the forced-accept check accepts in the first state is
    accepted by it in the second. *)
Theorem forced_accept_monotone (st1 st2 : GameController)
    (person_attributes : PyDict.t bool) :
  p_a st2 = p_a st1 ->
  remaining_required st2 = remaining_required st1 ->
  accepted_counts st2 = accepted_counts st1 ->
  R st2 < R st1 ->
  - 2 ^ 1023 <= R st2 ->
  (forall a p, PyDict.get (p_a st1) a = Some p -> (0 <=? p)%float = true) ->
  forced st1 person_attributes = Ok true ->
  forced st2 person_attributes = Ok true.
Proof.
  intros Hp Hrr Hac HR Hlow Hpos H1.
  unfold forced, _should_force_accept in H1. unbind H1.
  apply force_accept_loop_first in H1
    as (pre & a & post & need & supply & Hkeys & Hpre & Hca & Hneed
        & Hsup & Hlt).
  unfold _compute_expected_future_supply in Hv.
  destruct (proj1 (expected_future_get _ _ _ _ a supply Hv) Hsup)
    as (Ha & p & Hpa & Hmul).
  unfold Py.int_mul_float in Hmul. unbind Hmul. injection Hmul as <-.
  rename v0 into f1.
  assert (Hret : returns (Py.float_of_int (R st2))).
  { apply (float_of_int_between (- 2 ^ 1023) (R st2) (R st1));
      [lia| |exists f1; exact Hv0].
    eexists. vm_compute. reflexivity. }
  destruct Hret as [f2 Hf2].
  destruct (expected_future_returns (R st2) (p_a st2)
              (PyDict.keys (p_a st2)) f2 Hf2 ltac:(auto)) as [ef2 Hef2].
  assert (Hget2 : forall b pb,
            PyDict.get (p_a st1) b = Some pb ->
            PyDict.get ef2 b = Some (f2 * pb)%float).
  { intros b pb Hb. eapply expected_future_get; [exact Hef2|].
    rewrite Hp. split; [apply PyDict_get_keys; eauto|].
    exists pb. split; [exact Hb|].
    unfold Py.int_mul_float. rewrite Hf2. reflexivity. }
  unfold forced, _should_force_accept, _compute_expected_future_supply.
  rewrite Hef2, Hkeys. simpl.
  eapply force_accept_loop_short_circuit.
  - intros b Hb Hcb. destruct (Hpre b Hb Hcb) as [Hreq [sb Hsb]].
    rewrite (remaining_req_same st1 st2 b Hrr Hac). split; [exact Hreq|].
    destruct (proj1 (expected_future_get _ _ _ _ b sb Hv) Hsb)
      as (_ & pb & Hpb & _).
    rewrite (Hget2 b pb Hpb). eauto.
  - exact Hca.
  - rewrite (remaining_req_same st1 st2 a Hrr Hac). exact Hneed.
  - apply Hget2. exact Hpa.
  - eapply (supply_mono (R st1) (R st2) f1 f2 p need); eauto; lia.
Qed.

(** ** The theorems at work on the sample sessions *)

Ltac distinct_keys :=
  repeat (apply NoDup_cons_2 || apply NoDup_nil_2);
  rewrite ?elem_of_cons, ?elem_of_nil; intuition discriminate.

Lemma process_changes_one_counter_witness :
  let st := scenario_of 3 in
  let person_data := person_of [("A"%string, true)] in
  let st' := update_state true (attributes person_data) st in
  NoDup (PyDict.keys (attributes person_data))
  /\ process st person_data = Ok (true, st')
  /\ R st' = 2 /\ rejects st' = 0
  /\ accepted_counts st' !! "A"%string = Some 1.
Proof.
  intros st person_data st'.
  assert (Hnd : NoDup (PyDict.keys (attributes person_data)))
    by (simpl; distinct_keys).
  assert (Hp : process st person_data = Ok (true, st'))
    by (vm_compute; reflexivity).
  split; [exact Hnd|]. split; [exact Hp|].
  destruct (process_changes_one_counter st st' person_data true Hnd Hp)
    as [[(_ & HR & Hj & Hc)|(Hfalse & _)] _]; [|discriminate].
  split; [exact HR|]. split; [exact Hj|]. rewrite Hc. reflexivity.
Defined.

Lemma run_game_loop_guard_witness :
  0 <= R (scenario_of 3)
  /\ exists s_end,
       run_game two_persons (scenario_of 3) = Ok s_end
       /\ R (controller s_end) = 1
       /\ loop_guard s_end = false.
Proof.
  assert (H0 : 0 <= R (scenario_of 3)) by (simpl; lia).
  split; [exact H0|].
  destruct (run_game two_persons (scenario_of 3)) as [s_end|e] eqn:Hrun;
    [|vm_compute in Hrun; discriminate].
  exists s_end. split; [reflexivity|]. split.
  - vm_compute in Hrun. injection Hrun as <-. reflexivity.
  - destruct (run_game_loop_guard two_persons (scenario_of 3) H0)
      as (_ & _ & _ & _ & Hend).
    apply (Hend s_end Hrun).
Defined.


Lemma scoring_needs_every_constraint_witness :
  let person_data := person_of [("A"%string, true)] in
  forced unconstrained_B (attributes person_data) = Ok false
  /\ remaining_required unconstrained_B !! "B"%string = None
  /\ make_decision unconstrained_B person_data = Raise (KeyError "B").
Proof.
  intros person_data.
  assert (Hf : forced unconstrained_B (attributes person_data) = Ok false)
    by (vm_compute; reflexivity).
  destruct scoring_needs_every_constraint as [_ Hscore].
  destruct (Hscore unconstrained_B person_data Hf) as (_ & Hraise & _).
  split; [exact Hf|]. split; [reflexivity|].
  apply (Hraise ["A"%string] "B"%string []); [reflexivity| |reflexivity].
  eexists. vm_compute. reflexivity.
Defined.

Lemma joint_table_entries_witness :
  let st := set_game "game" [] (two_attributes 0.5 0.25 0.5) init in
  exists st',
    _initialize_probabilities st = Ok st'
    /\ joint st' "A" "A" = Ok 0.5%float
    /\ joint st' "A" "B" = joint st' "B" "A".
Proof.
  intros st.
  destruct (_initialize_probabilities st) as [st'|e] eqn:Hinit;
    [|vm_compute in Hinit; discriminate].
  exists st'. split; [reflexivity|].
  destruct (joint_table_entries st st' "A" "B" 0.5 0.25 Hinit
              eq_refl eq_refl) as (_ & Hdiag & _ & Hsym).
  split; [exact Hdiag|].
  apply Hsym; [discriminate|reflexivity|reflexivity].
Defined.

Lemma forced_accept_monotone_witness :
  let person_attributes := [("A"%string, true)] in
  R (scenario_of 2) < R (scenario_of 3)
  /\ (forall a p, PyDict.get (p_a (scenario_of 3)) a = Some p ->
                  (0 <=? p)%float = true)
  /\ forced (scenario_of 3) person_attributes = Ok true
  /\ forced (scenario_of 2) person_attributes = Ok true.
Proof.
  intros person_attributes.
  assert (HR : R (scenario_of 2) < R (scenario_of 3)) by (simpl; lia).
  assert (Hpos : forall a p, PyDict.get (p_a (scenario_of 3)) a = Some p ->
                             (0 <=? p)%float = true).
  { intros a p. cbn [scenario_of p_a PyDict.get].
    destruct (String.eqb "A" a); [|discriminate].
    intros [= <-]. reflexivity. }
  assert (H3 : forced (scenario_of 3) person_attributes = Ok true)
    by (vm_compute; reflexivity).
  split; [exact HR|]. split; [exact Hpos|]. split; [exact H3|].
  apply (forced_accept_monotone (scenario_of 3) (scenario_of 2));
    try reflexivity; try assumption.
  cbn [scenario_of R]. lia.
Defined.

Lemma probabilities_unvalidated_witness :
  let st :=
    set_game "game" []
      {| relativeFrequencies := [("A"%string, 1.5%float)];
         correlations := [] |} init in
  (exists st',
     _initialize_probabilities st = Ok st'
     /\ marginal st' "A" = Ok 1.5%float /\ joint st' "A" "A" = Ok 1.5%float)
  /\ marginal st "A" = Raise (KeyError "A").
Proof.
  intros st.
  destruct (probabilities_unvalidated st) as (_ & _ & _ & Hone & Hunknown).
  split.
  - apply (Hone "A"%string 1.5%float). reflexivity.
  - apply Hunknown. cbn [st set_game p_a init PyDict.keys map].
    intros H. inversion H.
Defined.

Lemma forced_accept_ignores_capacity_witness :
  R (scenario_of 0) = 0
  /\ make_decision (scenario_of 0) (person_of [("A"%string, true)]) = Ok true
  /\ R (update_state true [("A"%string, true)] (scenario_of 0)) = -1.
Proof.
  destruct forced_accept_ignores_capacity as (_ & Hany & Hupdate & _).
  split; [reflexivity|]. split.
  - apply (Hany (scenario_of 0) "A"%string 0.5%float 2 0); reflexivity.
  - rewrite Hupdate. reflexivity.
Defined.

(** [start] on the answer of the service builds the sample session. *)
Example start_scenario :
  start (Some ("game"%string, [ {| attribute := "A"; minCount := 2 |} ],
               one_attribute)) init
  = Ok (scenario_of 1000).
Proof. vm_compute. reflexivity. Qed.

(** The scenario of the specification: capacity 3, marginal 0.5, two of
    "A" required; persons with A, without, without, with A. *)
Example specification_scenario :
  let steps := fun st attrs => process st (person_of attrs) in
  let show := fun st : GameController =>
    (R st, rejects st, accepted_counts st !! "A"%string) in
  exists st1 st2 st3 st4,
    steps (scenario_of 3) [("A"%string, true)] = Ok (true, st1)
    /\ steps st1 [("A"%string, false)] = Ok (false, st2)
    /\ steps st2 [("A"%string, false)] = Ok (false, st3)
    /\ steps st3 [("A"%string, true)] = Ok (true, st4)
    /\ show st1 = (2, 0, Some 1) /\ show st2 = (2, 1, Some 1)
    /\ show st3 = (2, 2, Some 1) /\ show st4 = (1, 2, Some 2).
Proof.
  do 4 eexists.
  split; [vm_compute; reflexivity|]. split; [vm_compute; reflexivity|].
  split; [vm_compute; reflexivity|]. split; [vm_compute; reflexivity|].
  repeat split; vm_compute; reflexivity.
Qed.

(** ** The sign of the weights, in binary64 *)

Lemma iter_shr_1_m (k : nat) (mrs : shr_record) :
  0 <= shr_m mrs ->
  shr_m (Nat.iter k shr_1 mrs) = shr_m mrs / 2 ^ Z.of_nat k.
Proof.
  intros Hm. induction k as [|k IH].
  - simpl. rewrite Z.div_1_r. reflexivity.
  - rewrite Nat.iter_succ.
    assert (Hk : 0 <= shr_m (Nat.iter k shr_1 mrs)).
    { rewrite IH. apply Z.div_pos; [exact Hm|]. apply pow2_pos. lia. }
    destruct (Nat.iter k shr_1 mrs) as [m r s]. cbn [shr_m] in *.
    rewrite shr_1_spec by exact Hk. cbn [shr_m]. rewrite IH.
    rewrite Nat2Z.inj_succ, Z.pow_succ_r by lia.
    rewrite Z.div_div by (try apply pow2_pos; lia).
    f_equal. ring.
Qed.

Lemma shr_fexp_m (m e : Z) (l : location) :
  0 <= m ->
  shr_m (fst (shr_fexp prec emax m e l))
  = m / 2 ^ Z.max 0 (fexp prec emax (Zdigits2 m + e) - e)
  /\ snd (shr_fexp prec emax m e l)
     = e + Z.max 0 (fexp prec emax (Zdigits2 m + e) - e).
Proof.
  intros Hm. unfold shr_fexp.
  set (k := fexp prec emax (Zdigits2 m + e) - e).
  assert (Hrec : shr_m (shr_record_of_loc m l) = m)
    by (destruct l as [|[| |]]; reflexivity).
  destruct k as [|p|p]; cbn [shr fst snd].
  - rewrite Hrec, Z.div_1_r. split; [reflexivity|lia].
  - rewrite iter_pos_nat, iter_shr_1_m by (rewrite Hrec; exact Hm).
    rewrite Hrec, positive_nat_Z.
    replace (Z.max 0 (Z.pos p)) with (Z.pos p) by lia. split; reflexivity.
  - rewrite Hrec. replace (Z.max 0 (Z.neg p)) with 0 by lia.
    rewrite Z.div_1_r. split; [reflexivity|lia].
Qed.

Lemma round_nearest_even_bounds (m : Z) (l : location) :
  m <= round_nearest_even m l <= m + 1.
Proof.
  destruct l as [|[| |]]; cbn [round_nearest_even]; try lia.
  destruct (Z.even m); lia.
Qed.

(** Rounding a mantissa that is not shifted out entirely gives a float
    greater than zero. *)
Lemma binary_round_aux_positive (m e : Z) (l : location) :
  0 < m ->
  fexp prec emax (Zdigits2 m + e) - e <= Z.log2 m ->
  is_positive (binary_round_aux prec emax false m e l) = true.
Proof.
  intros Hm Hk. unfold binary_round_aux.
  destruct (shr_fexp_m m e l ltac:(lia)) as [H1 H2].
  destruct (shr_fexp prec emax m e l) as [mrs' e'] eqn:E1.
  cbn [fst snd] in H1, H2.
  set (K := Z.max 0 (fexp prec emax (Zdigits2 m + e) - e)) in *.
  assert (HK : 0 <= K <= Z.log2 m) by (pose proof (Z.log2_nonneg m); lia).
  assert (PK : 0 < 2 ^ K) by (apply pow2_pos; lia).
  pose proof (Z.log2_spec m Hm) as [Hlo Hhi].
  assert (Hone : 1 <= shr_m mrs').
  { rewrite H1. apply Z.div_le_lower_bound; [lia|]. rewrite Z.mul_1_r.
    transitivity (2 ^ Z.log2 m); [apply Z.pow_le_mono_r; lia|exact Hlo]. }
  assert (Hsmall : shr_m mrs' < 2 ^ 53).
  { rewrite H1. apply Z.div_lt_upper_bound; [lia|].
    rewrite <- Z.pow_add_r by lia.
    eapply Z.lt_le_trans; [exact Hhi|]. apply Z.pow_le_mono_r; [lia|].
    unfold K. rewrite fexp_eq, Zdigits2_log2 by lia. lia. }
  pose proof (round_nearest_even_bounds (shr_m mrs') (loc_of_shr_record mrs'))
    as Hr.
  set (r := round_nearest_even (shr_m mrs') (loc_of_shr_record mrs')) in *.
  assert (HE : -1074 <= e').
  { rewrite H2. unfold K. rewrite fexp_eq. lia. }
  rewrite (shr_fexp_renormalize r e') by lia.
  destruct (Z.ltb_spec r (2 ^ 53)); cbn [shr_m].
  - destruct r as [|p|p]; try lia. destruct (_ <=? _); reflexivity.
  - change (2 ^ 52) with (Z.pos (2 ^ 52)). cbn match.
    destruct (_ <=? _); reflexivity.
Qed.

(** The quotient of two positive floats is greater than zero unless it
    underflows, and it does not for a quotient of at least [2 ^ -1024]. *)
Lemma SFdiv_positive (mx my : positive) (ex ey : Z) :
  -1023 <= Zdigits2 (Z.pos mx) + ex - (Zdigits2 (Z.pos my) + ey) ->
  is_positive (SFdiv prec emax (S754_finite false mx ex)
                 (S754_finite false my ey)) = true.
Proof.
  intros HX. cbn [SFdiv xorb]. unfold SFdiv_core_binary.
  rewrite !Zdigits2_log2, fexp_eq in * by lia.
  set (l1 := Z.log2 (Z.pos mx)) in *. set (l2 := Z.log2 (Z.pos my)) in *.
  set (e' := Z.min (Z.max (l1 + 1 + ex - (l2 + 1 + ey) - 53) (-1074)) (ex - ey)).
  set (s := ex - ey - e').
  assert (Hs : 0 <= s) by (unfold s, e'; lia).
  assert (Hm' : match s with
                | 0 => Z.pos mx
                | Z.pos _ => Z.shiftl (Z.pos mx) s
                | Z.neg _ => 0
                end = Z.pos mx * 2 ^ s).
  { destruct s as [|p|p] eqn:Es; [simpl; lia| |lia].
    rewrite Z.shiftl_mul_pow2 by lia. reflexivity. }
  rewrite Hm'.
  pose proof (Z.div_eucl_eq (Z.pos mx * 2 ^ s) (Z.pos my) ltac:(lia)) as Heq.
  pose proof (Z.mod_pos_bound (Z.pos mx * 2 ^ s) (Z.pos my) ltac:(lia)) as Hmod.
  unfold Z.modulo in Hmod.
  destruct (Z.div_eucl (Z.pos mx * 2 ^ s) (Z.pos my)) as [q r].
  pose proof (Z.log2_spec (Z.pos mx) ltac:(lia)) as [Hx1 Hx2].
  pose proof (Z.log2_spec (Z.pos my) ltac:(lia)) as [Hy1 Hy2].
  fold l1 in Hx1, Hx2. fold l2 in Hy1, Hy2.
  pose proof (Z.log2_nonneg (Z.pos mx)). pose proof (Z.log2_nonneg (Z.pos my)).
  set (t := l1 + s - (l2 + 1)).
  assert (Ht : 50 <= t /\ -1074 - e' <= t) by (unfold t, s, e'; lia).
  assert (Hq : 2 ^ t <= q).
  { assert (Hpow : 2 ^ t * 2 ^ (l2 + 1) = 2 ^ l1 * 2 ^ s).
    { rewrite <- !Z.pow_add_r by lia. f_equal. unfold t. lia. }
    assert (0 < 2 ^ t) by (apply pow2_pos; lia).
    assert (0 < 2 ^ s) by (apply pow2_pos; lia).
    assert (2 ^ t * Z.pos my < Z.pos my * (q + 1)); [nia|].
    apply Z.lt_succ_r. unfold Z.succ.
    eapply Z.mul_lt_mono_pos_l; [|rewrite Z.mul_comm; eassumption]. lia. }
  assert (Hlog : t <= Z.log2 q).
  { apply Z.log2_le_pow2; [|exact Hq].
    pose proof (pow2_pos t ltac:(lia)). lia. }
  apply binary_round_aux_positive.
  - pose proof (pow2_pos t ltac:(lia)). lia.
  - rewrite fexp_eq, Zdigits2_log2
      by (pose proof (pow2_pos t ltac:(lia)); lia).
    lia.
Qed.

Lemma is_positive_nonneg (x : spec_float) :
  is_positive x = true -> is_nonneg x = true.
Proof. destruct x as [s|[|]| |[|] m e]; simpl; congruence. Qed.

Lemma float_gt_int_0 (g : float) :
  Py.float_gt_int g 0 = is_positive (Prim2SF g).
Proof.
  unfold Py.float_gt_int, Py.float_cmp_int.
  destruct (Prim2SF g) as [s|[|]| |[|] m e]; try reflexivity;
    cbn [is_positive]; destruct (Z.leb_spec 0 e) as [He|He];
    try reflexivity.
  - pose proof (pow2_pos e He).
    destruct (Z.compare_spec (Z.neg m * 2 ^ e) 0); try reflexivity; nia.
  - pose proof (pow2_pos e He).
    destruct (Z.compare_spec (Z.pos m * 2 ^ e) 0); try reflexivity; nia.
Qed.

Lemma xval_positive (x : spec_float) (v : Z) :
  xval 1074 x = Some (round_ext 1074 v) -> 0 < v -> is_positive x = true.
Proof.
  intros Hx Hv. unfold round_ext, round_val in Hx.
  pose proof (round_mag_pos (Z.abs v) ltac:(lia)) as Hmag.
  rewrite Z.sgn_pos in Hx by lia.
  destruct (Z.ltb_spec v 0); [lia|].
  destruct (_ <? _) in Hx.
  - destruct x as [s|[|]| |[|] m e]; cbn [xval signed] in Hx;
      try discriminate; try reflexivity; injection Hx as Hx.
    + lia.
    + pose proof (Z.pow_nonneg 2 (e + 1074) ltac:(lia)). nia.
  - destruct x as [s|[|]| |[|] m e]; cbn [xval] in Hx;
      try discriminate; reflexivity.
Qed.

Lemma SFadd_sign (x y : spec_float) :
  valid_binary x = true -> valid_binary y = true ->
  is_nonneg x = true -> is_nonneg y = true ->
  is_nonneg (SF64add x y) = true
  /\ is_positive (SF64add x y) = is_positive x || is_positive y.
Proof.
  intros Vx Vy Hx Hy.
  destruct x as [sx|[|]| |[|] mx ex]; try discriminate;
    destruct y as [sy|[|]| |[|] my ey]; try discriminate;
    try (split; reflexivity).
  - destruct sx, sy; split; reflexivity.
  - apply valid_finite in Vx as (Hex & _), Vy as (Hey & _).
    cbn [SF64add SFadd is_positive orb].
    set (ez := Z.min ex ey).
    destruct (shl_align_spec mx ex ez) as (a & Ha & _).
    destruct (shl_align_spec my ey ez) as (b & Hb & _).
    rewrite Ha, Hb. cbn [fst cond_Zopp].
    change (Z.pos a + Z.pos b) with (Z.pos (a + b)).
    cbn [binary_normalize].
    assert (Hpos : is_positive (binary_round prec emax false (a + b) ez) = true).
    { eapply xval_positive.
      - apply binary_round_xval; unfold ez; lia.
      - cbn [signed]. pose proof (pow2_pos (ez + 1074)). unfold ez in *. nia. }
    split; [apply is_positive_nonneg|]; exact Hpos.
Qed.

Lemma float_add_sign (x y : float) :
  is_nonneg (Prim2SF x) = true -> is_nonneg (Prim2SF y) = true ->
  is_nonneg (Prim2SF (x + y)) = true
  /\ is_positive (Prim2SF (x + y))
     = is_positive (Prim2SF x) || is_positive (Prim2SF y).
Proof.
  intros Hx Hy. rewrite add_spec.
  apply SFadd_sign; auto using Prim2SF_valid.
Qed.

Lemma binary_normalize_scaled (S ez : Z) :
  -1074 <= ez ->
  xval 1074 (binary_normalize prec emax S ez false)
  = Some (round_ext 1074 (S * 2 ^ (ez + 1074))).
Proof.
  intros He. destruct S as [|p|p]; cbn [binary_normalize].
  - rewrite Z.mul_0_l, round_ext_0 by lia. reflexivity.
  - rewrite binary_round_xval by lia. reflexivity.
  - rewrite binary_round_xval by lia. cbn [signed].
    do 3 f_equal. rewrite <- Pos2Z.opp_pos. ring.
Qed.

Lemma round_ext_top :
  round_ext 1074 (top_scaled + eps_scaled) = Finite top_scaled.
Proof. vm_compute. reflexivity. Qed.

Lemma round_ext_bottom :
  round_ext 1074 (- top_scaled + eps_scaled) = Finite (- top_scaled).
Proof. vm_compute. reflexivity. Qed.

Lemma finite_magnitude (s : bool) (m : positive) (e : Z) :
  valid_binary (S754_finite s m e) = true ->
  Z.pos m * 2 ^ (e + 1074) <= top_scaled.
Proof.
  intros Hv. apply valid_finite in Hv as (He & Hlog & _).
  assert (Hm : Z.pos m <= 2 ^ 53 - 1).
  { assert (Z.pos m < 2 ^ 53) by (apply log2_lt_pow2'; lia). lia. }
  assert (Hp : 2 ^ (e + 1074) <= 2 ^ 2045) by (apply Z.pow_le_mono_r; lia).
  unfold top_scaled.
  apply Z.mul_le_mono_nonneg; [lia|exact Hm| |exact Hp].
  apply Z.pow_nonneg. lia.
Qed.

(** [R + 1e-9] is finite whenever [float(R)] is. *)
Lemma denominator_finite (z : Z) (x : float) :
  Py.int_add_float z epsilon = Ok x -> is_finite_SF (Prim2SF x) = true.
Proof.
  unfold Py.int_add_float. intros H. unbind H. injection H as <-.
  rename v into f. rewrite add_spec.
  change (Prim2SF epsilon) with (S754_finite false 4835703278458517 (-82)).
  pose proof (float_of_int_spec z f Hv) as (_ & Hfin & _).
  pose proof (Prim2SF_valid f) as Hval.
  destruct (Prim2SF f) as [sf|sf| |sf mf ef] eqn:Hs; try discriminate;
    [reflexivity|].
  pose proof (finite_magnitude sf mf ef Hval) as Hmag.
  apply valid_finite in Hval as (He & _).
  cbn [SF64add SFadd].
  set (ez := Z.min ef (-82)).
  destruct (shl_align_spec mf ef ez) as (a & Ha & Hav).
  destruct (shl_align_spec 4835703278458517 (-82) ez) as (b & Hb & Hbv).
  rewrite Ha, Hb. cbn [fst].
  replace (Z.min ef ez) with ez in Hav by lia.
  replace (Z.min (-82) ez) with ez in Hbv by lia.
  set (S := cond_Zopp sf (Z.pos a) + cond_Zopp false (Z.pos b)).
  assert (HA : Z.pos a * 2 ^ (ez + 1074) = Z.pos mf * 2 ^ (ef + 1074)).
  { rewrite Hav, <- Z.mul_assoc, <- Z.pow_add_r by lia.
    do 2 f_equal. lia. }
  assert (HB : Z.pos b * 2 ^ (ez + 1074) = eps_scaled).
  { rewrite Hbv, <- Z.mul_assoc, <- Z.pow_add_r by lia.
    unfold eps_scaled. do 2 f_equal. lia. }
  pose proof (binary_normalize_scaled S ez ltac:(lia)) as Hx.
  assert (HS : S * 2 ^ (ez + 1074)
               = (if sf then - (Z.pos mf * 2 ^ (ef + 1074))
                  else Z.pos mf * 2 ^ (ef + 1074)) + eps_scaled).
  { unfold S. rewrite Z.mul_add_distr_r, <- HA, <- HB.
    destruct sf; cbn [cond_Zopp]; ring. }
  rewrite HS in Hx.
  assert (Hpos : 0 <= Z.pos mf * 2 ^ (ef + 1074)).
  { apply Z.mul_nonneg_nonneg; [lia|apply Z.pow_nonneg; lia]. }
  set (M := Z.pos mf * 2 ^ (ef + 1074)) in *.
  assert (Hrange : - top_scaled + eps_scaled
                   <= (if sf then - M else M) + eps_scaled
                   <= top_scaled + eps_scaled)
    by (destruct sf; lia).
  pose proof (round_ext_mono 1074 _ _ ltac:(lia) (proj1 Hrange)) as Hlo.
  pose proof (round_ext_mono 1074 _ _ ltac:(lia) (proj2 Hrange)) as Hhi.
  rewrite round_ext_top in Hhi. rewrite round_ext_bottom in Hlo.
  destruct (round_ext 1074 ((if sf then - M else M) + eps_scaled))
    as [|w|]; cbn [ext_le] in Hlo, Hhi; try contradiction.
  destruct (binary_normalize prec emax S ez false) as [s|[|]| |s m e];
    cbn [xval] in Hx; try discriminate; reflexivity.
Qed.

Lemma sval_sign (x : spec_float) :
  valid_binary x = true -> is_finite_SF x = true ->
  (0 <= sval x -> is_nonneg x = true)
  /\ (0 < sval x -> is_positive x = true).
Proof.
  intros Hv Hfin. destruct x as [s|s| |[|] m e]; try discriminate;
    cbn [sval signed is_nonneg is_positive]; try (split; reflexivity).
  - split; intros H0; lia.
  - apply valid_finite in Hv as (He & _).
    pose proof (pow2_pos (e + 1074) ltac:(lia)). split; intros H0; nia.
Qed.

Lemma float_of_int_sign (z : Z) (f : float) :
  0 <= z ->
  Py.float_of_int z = Ok f ->
  is_nonneg (Prim2SF f) = true
  /\ (0 < z -> is_positive (Prim2SF f) = true)
  /\ (z = 0 -> Prim2SF f = S754_zero false).
Proof.
  intros Hz Hf.
  pose proof (float_of_int_spec z f Hf) as (Hs & Hfin & Hval).
  pose proof (sval_sign _ (Prim2SF_valid f) Hfin) as [Hn Hp].
  assert (P : 0 < 2 ^ 1074) by (apply pow2_pos; lia).
  split; [|split].
  - apply Hn. rewrite Hval. unfold round_val.
    pose proof (round_mag_nonneg 1074 (Z.abs (z * 2 ^ 1074)) ltac:(lia)
                  ltac:(lia)).
    pose proof (Z.sgn_nonneg (z * 2 ^ 1074)). nia.
  - intros Hpos. apply Hp. rewrite Hval. unfold round_val.
    pose proof (round_mag_pos (Z.abs (z * 2 ^ 1074)) ltac:(nia)).
    rewrite Z.sgn_pos by nia. lia.
  - intros ->. rewrite Hs. reflexivity.
Qed.

(** The sign of a weight: never negative, and positive exactly when the
    attribute is still needed. *)
Lemma weight_sign (required accepted capacity_remaining : Z) (w : float) :
  0 <= capacity_remaining ->
  weight required accepted capacity_remaining = Ok w ->
  is_nonneg (Prim2SF w) = true
  /\ is_positive (Prim2SF w) = (accepted <? required).
Proof.
  intros HR Hw. unfold weight in Hw. unbind Hw. unbind Hw.
  injection Hw as <-. rename v into x, v0 into c.
  assert (Hden : Py.int_add_float capacity_remaining epsilon
                 = Ok (c + 1e-9)%float)
    by (unfold Py.int_add_float; rewrite Hv0; reflexivity).
  pose proof (denominator_finite _ _ Hden) as Hfin.
  pose proof (float_of_int_sign _ c HR Hv0) as (Hc & _).
  assert (Heps : is_positive (Prim2SF 1e-9) = true) by reflexivity.
  pose proof (float_add_sign c 1e-9 Hc (is_positive_nonneg _ Heps))
    as [_ Hdpos].
  rewrite Heps, orb_true_r in Hdpos.
  pose proof (Prim2SF_valid (c + 1e-9)) as Hdval.
  rewrite div_spec.
  destruct (Prim2SF (c + 1e-9)) as [sd|sd| |[|] md ed]; try discriminate.
  apply valid_finite in Hdval as (Hed & Hmd & _).
  destruct (Z.ltb_spec accepted required) as [Hlt|Hge].
  - pose proof (float_of_int_sign (Z.max 0 (required - accepted)) x ltac:(lia) Hv) as (_ & Hxpos & _).
    specialize (Hxpos ltac:(lia)).
    destruct (Prim2SF x) as [sx|[|]| |[|] mx ex] eqn:Hx; try discriminate.
    + pose proof (float_of_int_spec _ _ Hv) as (_ & Hxfin & _).
      rewrite Hx in Hxfin. discriminate.
    + pose proof (int_magnitude _ x false mx ex Hv Hx) as Hbig.
      assert (Hpos : is_positive (SF64div (S754_finite false mx ex)
                                    (S754_finite false md ed)) = true).
      { apply SFdiv_positive. rewrite !Zdigits2_log2 by lia.
        pose proof (Z.log2_spec (Z.pos mx) ltac:(lia)) as [_ Hhi].
        pose proof (Prim2SF_valid x) as Hxval. rewrite Hx in Hxval.
        apply valid_finite in Hxval as (Hex & _).
        pose proof (Z.log2_nonneg (Z.pos mx)) as Hl0.
        assert (1074 < Z.log2 (Z.pos mx) + 1 + (ex + 1074)).
        { apply (Z.pow_lt_mono_r_iff 2); [lia|lia|].
          rewrite Z.pow_add_r by lia.
          pose proof (pow2_pos (ex + 1074) ltac:(lia)). nia. }
        lia. }
      split; [apply is_positive_nonneg|]; exact Hpos.
  - pose proof (float_of_int_sign (Z.max 0 (required - accepted)) x ltac:(lia) Hv) as (_ & _ & Hx0).
    rewrite Hx0 by lia. split; reflexivity.
Qed.

(** ** Whom the decision accepts *)

Lemma num_add_float_sign (score score' : Py.num) (w : float) :
  score_nonneg score ->
  is_nonneg (Prim2SF w) = true ->
  Py.num_add_float score w = Ok score' ->
  score_nonneg score'
  /\ Py.num_gt_int score' 0
     = Py.num_gt_int score 0 || is_positive (Prim2SF w).
Proof.
  intros Hs Hw. destruct score as [z|g]; cbn [score_nonneg] in Hs.
  - subst z. cbn. intros [= <-]. cbn [score_nonneg Py.num_gt_int].
    rewrite float_gt_int_0.
    pose proof (float_add_sign 0 w eq_refl Hw) as [Hn Hp].
    split; [exact Hn|]. rewrite Hp. reflexivity.
  - cbn. intros [= <-]. cbn [score_nonneg Py.num_gt_int].
    rewrite !float_gt_int_0. apply float_add_sign; assumption.
Qed.

Lemma score_sum_sign (st : GameController) (items : list (string * bool))
    (score score' : Py.num) :
  0 <= R st ->
  score_nonneg score ->
  score_sum st score items = Ok score' ->
  score_nonneg score'
  /\ (Py.num_gt_int score' 0 = true <->
      Py.num_gt_int score 0 = true
      \/ exists a, (a, true) ∈ items /\ needed st a).
Proof.
  intros HR. revert score.
  induction items as [|[k h] items IH]; intros score Hs; simpl.
  - intros [= <-]. split; [exact Hs|]. split; [auto|].
    intros [H|(a & Hin & _)]; [exact H|inversion Hin].
  - destruct h.
    + intros H. unbind H. unbind H. unbind H. unbind H.
      rename v into required, v0 into accepted, v1 into w, v2 into next.
      apply getitem_Ok in Hv, Hv0.
      destruct (weight_sign _ _ _ _ HR Hv1) as [Hwn Hwp].
      destruct (num_add_float_sign _ _ _ Hs Hwn Hv2) as [Hnn Hgt].
      destruct (IH next Hnn H) as [Hfin Hiff].
      split; [exact Hfin|]. rewrite Hiff, Hgt, orb_true_iff, Hwp, Z.ltb_lt.
      split.
      * intros [[Hsc|Hlt]|(a & Hin & Hneed)]; [auto| |].
        -- right. exists k. split; [left|]. exists required, accepted. auto.
        -- right. exists a. split; [right; exact Hin|exact Hneed].
      * intros [Hsc|(a & Hin & Hneed)]; [auto|].
        inversion Hin; subst.
        -- left. right. destruct Hneed as (r & c & Hr & Hc & Hlt).
           congruence.
        -- right. eauto.
    + intros H. destruct (IH score Hs H) as [Hfin Hiff].
      split; [exact Hfin|]. rewrite Hiff. split.
      * intros [Hsc|(a & Hin & Hneed)]; [auto|].
        right. exists a. split; [right; exact Hin|exact Hneed].
      * intros [Hsc|(a & Hin & Hneed)]; [auto|].
        inversion Hin; subst. right. eauto.
Qed.

(** The expected supply of an attribute with a marginal that is not
    negative is not below zero. *)
Lemma supply_not_negative (r : Z) (f p : float) :
  0 <= r ->
  Py.float_of_int r = Ok f ->
  (0 <=? p)%float = true ->
  Py.float_lt_int (f * p) 0 = false.
Proof.
  intros Hr Hf Hp.
  pose proof (float_of_int_spec r f Hf) as (_ & Hfin & Hval).
  pose proof (float_of_int_sign r f Hr Hf) as (Hn & _).
  rewrite (float_lt_int_xval 2148) by lia. rewrite mul_spec.
  destruct (float_nonneg p Hp) as [Hinf|[Finp Hpos]].
  - rewrite Hinf.
    destruct (Prim2SF f) as [s|s| |[|] m e]; try discriminate; reflexivity.
  - rewrite SFmul_xval by (auto using Prim2SF_valid).
    assert (H0 : 0 <= sval (Prim2SF f)).
    { rewrite Hval. unfold round_val.
      assert (P : 0 < 2 ^ 1074) by (apply pow2_pos; lia).
      pose proof (round_mag_nonneg 1074 (Z.abs (r * 2 ^ 1074)) ltac:(lia)
                    ltac:(lia)).
      pose proof (Z.sgn_nonneg (r * 2 ^ 1074)). nia. }
    pose proof (round_ext_mono 2148 0 (sval (Prim2SF f) * sval (Prim2SF p))
                  ltac:(lia) ltac:(nia)) as Hle.
    rewrite round_ext_0 in Hle by lia.
    destruct (round_ext 2148 _) as [|v|]; cbn [ext_le ext_lt_int] in *;
      try contradiction; try reflexivity.
    apply Z.ltb_ge. lia.
Qed.

Lemma PyDict_get_elem {V} (d : PyDict.t V) (k : string) (v : V) :
  PyDict.get d k = Some v -> (k, v) ∈ d.
Proof.
  induction d as [|[k' v'] d IH]; simpl; [discriminate|].
  destruct (String.eqb_spec k' k) as [->|Hne].
  - intros [= ->]. left.
  - intros H. right. apply IH. exact H.
Qed.

(** Whom [make_decision] accepts: only a person who carries an attribute
    that is still needed, and, while a slot is left, every such person. *)
Lemma decision_needed (st : GameController) (person_data : Person)
    (accept : bool) :
  0 <= R st ->
  NoDup (PyDict.keys (attributes person_data)) ->
  (forall a p, PyDict.get (p_a st) a = Some p -> (0 <=? p)%float = true) ->
  make_decision st person_data = Ok accept ->
  (accept = true ->
   exists a, carries (attributes person_data) a /\ needed st a)
  /\ (0 < R st ->
      (exists a, carries (attributes person_data) a /\ needed st a) ->
      accept = true).
Proof.
  intros HR Hnd Hp Hd. rewrite make_decision_forced in Hd. unbind Hd.
  destruct v.
  - injection Hd as <-. split; [intros _|reflexivity].
    apply forced_true_scarce in Hv
      as (a & Ha & (p & required & accepted & supply
                    & Hpa & Hr & Hc & Hmul & Hlt)).
    exists a. split; [exact Ha|]. exists required, accepted.
    split; [exact Hr|]. split; [exact Hc|].
    destruct (Z.lt_ge_cases accepted required) as [Hlt'|Hge]; [exact Hlt'|].
    exfalso. replace (Z.max 0 (required - accepted)) with 0 in Hlt by lia.
    unfold Py.int_mul_float in Hmul. unbind Hmul. injection Hmul as <-.
    rewrite (supply_not_negative (R st) v p HR Hv (Hp a p Hpa)) in Hlt.
    discriminate.
  - unbind Hd. injection Hd as <-. rename v into score.
    assert (Hsum : score_sum st (Py.Int 0) (attributes person_data)
                   = Ok score).
    { unfold _compute_score in Hv0. unbind Hv0. rewrite <- Hv0. symmetry.
      apply score_loop_sum; [exact Hv1|].
      intros k Hk. apply PyDict_get_keys.
      apply (forced_false_tracked st _ Hv k).
      apply PyDict_get_NoDup; assumption. }
    destruct (score_sum_sign st _ (Py.Int 0) score HR eq_refl Hsum)
      as [_ Hiff].
    split.
    + intros Hacc. apply andb_true_iff in Hacc as [Hgt _].
      apply Hiff in Hgt as [Hgt|(a & Hin & Hneed)]; [discriminate|].
      exists a. split; [|exact Hneed].
      apply PyDict_get_NoDup; assumption.
    + intros Hpos (a & Ha & Hneed).
      apply andb_true_iff. split; [|apply Z.ltb_lt; exact Hpos].
      apply Hiff. right. exists a. split; [|exact Hneed].
      apply PyDict_get_elem. exact Ha.
Qed.

(** When every attribute of the statistics has a requirement and a
    count, and the person carries only attributes of the statistics,
    [make_decision] returns. *)
Lemma make_decision_returns (st : GameController) (person_data : Person) :
  0 <= R st <= 2 ^ 1023 ->
  (forall a, a ∈ PyDict.keys (p_a st) ->
     exists required accepted,
       remaining_required st !! a = Some required
       /\ accepted_counts st !! a = Some accepted
       /\ required - accepted <= 2 ^ 1023) ->
  (forall a, carries (attributes person_data) a ->
             a ∈ PyDict.keys (p_a st)) ->
  returns (make_decision st person_data).
Proof.
  intros HR Hall Hknown.
  assert (Hconv : returns (Py.float_of_int (R st))).
  { apply (float_of_int_between 0 (R st) (2 ^ 1023)); [lia| |];
      eexists; vm_compute; reflexivity. }
  assert (Hef : returns (_compute_expected_future_supply st)).
  { destruct Hconv as [f Hf].
    eapply expected_future_returns; [exact Hf|auto]. }
  assert (Htr : forall b, carries (attributes person_data) b -> tracked st b).
  { intros b Hb. pose proof (Hknown b Hb) as Hin.
    destruct (Hall b Hin) as (r & c & Hr & Hc & _).
    apply PyDict_get_keys in Hin. repeat split; eauto. }
  destruct (forced_returns st _ Hef Htr) as [[|] Hf];
    rewrite make_decision_forced, Hf; cbn [mbind result_bind];
    [eexists; reflexivity|].
  unfold _compute_score, _compute_alphas.
  destruct (alphas_returns st (PyDict.keys (p_a st))) as [al ->].
  { intros a Ha. destruct (Hall a Ha) as (r & c & Hr & Hc & Hb).
    apply (alpha_returns st a (Z.max 0 (r - c))).
    - apply remaining_req_Ok. eauto.
    - exact Hconv.
    - assert (0 < 2 ^ 1023) by (apply pow2_pos; lia). lia. }
  cbn [mbind result_bind].
  destruct (score_loop_returns al (attributes person_data) (Py.Int 0))
    as [score ->]; [left; reflexivity|].
  eexists. reflexivity.
Qed.

(** While a slot is left, [make_decision] accepts exactly the persons
    who carry an attribute of which more is required than was accepted:
    a weight is positive as soon as one more of the attribute is needed,
    however small the quotient, and a forced accept needs a positive
    requirement too, the marginals not being negative.  The statistics'
    attributes all have a requirement and a count, and the person
    carries attributes of the statistics only, so that the decision
    returns. *)
Theorem accept_iff_needed (st : GameController) (person_data : Person) :
  0 < R st <= 2 ^ 1023 ->
  NoDup (PyDict.keys (attributes person_data)) ->
  (forall a p, PyDict.get (p_a st) a = Some p -> (0 <=? p)%float = true) ->
  (forall a, a ∈ PyDict.keys (p_a st) ->
     exists required accepted,
       remaining_required st !! a = Some required
       /\ accepted_counts st !! a = Some accepted
       /\ required - accepted <= 2 ^ 1023) ->
  (forall a, carries (attributes person_data) a ->
             a ∈ PyDict.keys (p_a st)) ->
  exists accept,
    make_decision st person_data = Ok accept
    /\ (accept = true <->
        exists a, carries (attributes person_data) a /\ needed st a).
Proof.
  intros HR Hnd Hp Hall Hknown.
  destruct (make_decision_returns st person_data ltac:(lia) Hall Hknown)
    as [accept Hd].
  exists accept. split; [exact Hd|].
  destruct (decision_needed st person_data accept ltac:(lia) Hnd Hp Hd)
    as [Honly Hif].
  split; [exact Honly|apply Hif; lia].
Qed.

(** *** What [make_decision] reads *)

Lemma force_accept_loop_same (st1 st2 : GameController) (pa : PyDict.t bool)
    (ef : PyDict.t float) (todo : list string) :
  remaining_required st2 = remaining_required st1 ->
  accepted_counts st2 = accepted_counts st1 ->
  force_accept_loop st2 pa ef todo = force_accept_loop st1 pa ef todo.
Proof.
  intros Hr Hc. induction todo as [|a todo IH]; simpl; [reflexivity|].
  rewrite IH, (remaining_req_same st1 st2 a Hr Hc). reflexivity.
Qed.

Lemma alphas_of_same (st1 st2 : GameController) (attrs : list string) :
  remaining_required st2 = remaining_required st1 ->
  accepted_counts st2 = accepted_counts st1 ->
  R st2 = R st1 ->
  alphas_of st2 attrs = alphas_of st1 attrs.
Proof.
  intros Hr Hc HR. induction attrs as [|a attrs IH]; simpl; [reflexivity|].
  rewrite IH. unfold alpha.
  rewrite (remaining_req_same st1 st2 a Hr Hc), HR. reflexivity.
Qed.

(** [make_decision] reads four fields of the controller, [p_a], [R],
    [remaining_required] and [accepted_counts]: the joint table [P11],
    the correlations, the constraints, [N], [rejects] and [MAX_REJECTS]
    have no influence on a decision, result and exception alike. *)
Theorem decision_reads_four_fields (st1 st2 : GameController)
    (person_data : Person) :
  p_a st2 = p_a st1 ->
  R st2 = R st1 ->
  remaining_required st2 = remaining_required st1 ->
  accepted_counts st2 = accepted_counts st1 ->
  make_decision st2 person_data = make_decision st1 person_data.
Proof.
  intros Hp HR Hr Hc.
  unfold make_decision, _compute_expected_future_supply,
    _should_force_accept, _compute_score, _compute_alphas.
  rewrite Hp, HR.
  destruct (expected_future_of (R st1) (p_a st1) (PyDict.keys (p_a st1)))
    as [ef|]; [|reflexivity].
  cbn [mbind result_bind].
  rewrite (force_accept_loop_same st1 st2 _ _ _ Hr Hc).
  rewrite (alphas_of_same st1 st2 _ Hr Hc HR). reflexivity.
Qed.

(** *** The errors of [make_decision] *)

Lemma expected_future_keys (r : Z) (p : PyDict.t float)
    (attrs : list string) (ef : PyDict.t float) :
  expected_future_of r p attrs = Ok ef -> PyDict.keys ef = attrs.
Proof.
  revert ef. induction attrs as [|a attrs IH]; intros ef; simpl.
  - intros [= <-]. reflexivity.
  - intros H. unbind H. unbind H. unbind H. injection H as <-. simpl.
    f_equal. apply IH. exact Hv1.
Qed.

Lemma expected_future_Raise (r : Z) (p : PyDict.t float)
    (attrs : list string) (e : exn) :
  (forall a, a ∈ attrs -> a ∈ PyDict.keys p) ->
  expected_future_of r p attrs = Raise e ->
  e = OverflowError.
Proof.
  induction attrs as [|a attrs IH]; intros Hin; simpl; [discriminate|].
  destruct (proj1 (PyDict_get_keys p a) (Hin a ltac:(left))) as [pa Hpa].
  apply PyDict_getitem_Ok in Hpa. rewrite Hpa. cbn [mbind result_bind].
  intros H. apply bind_Raise in H as [H|(v & _ & H)].
  - unfold Py.int_mul_float in H.
    apply bind_Raise in H as [H|(x & _ & H)]; [|discriminate].
    eapply float_of_int_Raise. exact H.
  - apply bind_Raise in H as [H|(rest & _ & H)]; [|discriminate].
    apply IH; [|exact H]. intros b Hb. apply Hin. right. exact Hb.
Qed.

Lemma remaining_req_untracked (st : GameController) (a : string) (e : exn) :
  remaining_req st a = Raise e -> e = KeyError a /\ ~ tracked st a.
Proof.
  intros H. split; [eapply remaining_req_Raise; exact H|].
  intros (_ & [r Hr] & [c Hc]).
  assert (Hok : remaining_req st a = Ok (Z.max 0 (r - c)))
    by (apply remaining_req_Ok; eauto).
  congruence.
Qed.

Lemma force_accept_loop_Raise (st : GameController) (pa : PyDict.t bool)
    (ef : PyDict.t float) (todo : list string) (e : exn) :
  PyDict.keys ef = PyDict.keys (p_a st) ->
  force_accept_loop st pa ef todo = Raise e ->
  exists k, e = KeyError k /\ ~ tracked st k /\ carries pa k.
Proof.
  intros Hkeys. induction todo as [|a todo IH]; simpl; [discriminate|].
  destruct (PyDict.mem a pa && default false (PyDict.get pa a)) eqn:Hc;
    [|exact IH].
  apply carried_cond in Hc. intros H.
  apply bind_Raise in H as [H|(need & _ & H)].
  - apply remaining_req_untracked in H as [-> Hn]. eauto.
  - apply bind_Raise in H as [H|(supply & _ & H)].
    + apply PyDict_getitem_Raise in H as [Hnone ->].
      exists a. split; [reflexivity|]. split; [|exact Hc].
      intros ([p Hp] & _).
      assert (Hin : a ∈ PyDict.keys ef).
      { rewrite Hkeys. apply PyDict_get_keys. eauto. }
      apply PyDict_get_keys in Hin as [v Hv]. congruence.
    + destruct (Py.float_lt_int supply need); [discriminate|].
      apply IH. exact H.
Qed.

Lemma weight_Raise (required accepted capacity_remaining : Z) (e : exn) :
  weight required accepted capacity_remaining = Raise e ->
  e = OverflowError.
Proof.
  unfold weight. intros H.
  apply bind_Raise in H as [H|(n & _ & H)];
    [eapply float_of_int_Raise; exact H|].
  apply bind_Raise in H as [H|(c & _ & H)]; [|discriminate].
  eapply float_of_int_Raise. exact H.
Qed.

Lemma alphas_of_Raise (st : GameController) (attrs : list string) (e : exn) :
  alphas_of st attrs = Raise e ->
  e = OverflowError
  \/ exists k, e = KeyError k /\ ~ tracked st k /\ k ∈ attrs.
Proof.
  induction attrs as [|a attrs IH]; simpl; [discriminate|]. intros H.
  apply bind_Raise in H as [H|(v & _ & H)].
  - rewrite alpha_weight in H.
    apply bind_Raise in H as [H|(r & Hr & H)].
    + apply getitem_Raise in H as [Hnone ->]. right. exists a.
      split; [reflexivity|]. split; [|left].
      intros (_ & [x Hx] & _). congruence.
    + apply bind_Raise in H as [H|(c & Hc & H)].
      * apply getitem_Raise in H as [Hnone ->]. right. exists a.
        split; [reflexivity|]. split; [|left].
        intros (_ & _ & [x Hx]). congruence.
      * left. eapply weight_Raise. exact H.
  - apply bind_Raise in H as [H|(rest & _ & H)]; [|discriminate].
    destruct (IH H) as [->|(k & -> & Hn & Hin)]; [left; reflexivity|].
    right. exists k. split; [reflexivity|]. split; [exact Hn|].
    right. exact Hin.
Qed.

Lemma score_loop_Raise (al : PyDict.t float) (items : list (string * bool))
    (score : Py.num) (e : exn) :
  score_loop al score items = Raise e -> e = OverflowError.
Proof.
  revert score. induction items as [|[k h] items IH]; intros score; simpl;
    [discriminate|].
  destruct (h && PyDict.mem k al) eqn:Hc; [|apply IH].
  apply andb_true_iff in Hc as [_ Hmem].
  apply PyDict_mem_true, PyDict_get_keys in Hmem as [v Hv].
  apply PyDict_getitem_Ok in Hv. rewrite Hv. cbn [mbind result_bind].
  intros H. apply bind_Raise in H as [H|(score' & _ & H)]; [|eapply IH; exact H].
  destruct score as [z|g]; [|discriminate]. cbn in H.
  apply bind_Raise in H as [H|(x & _ & H)]; [|discriminate].
  unfold Py.int_add_float in H.
  apply bind_Raise in H as [H|(y & _ & H)]; [|discriminate].
  eapply float_of_int_Raise. exact H.
Qed.

(** [make_decision] never raises a [ZeroDivisionError] or a
    [ValueError].  It raises an [OverflowError], from the conversion of
    an int to a float, or the [KeyError] of an attribute that is not
    tracked, and that attribute is carried by the person or is an
    attribute of the statistics. *)
Theorem decision_errors (st : GameController) (person_data : Person)
    (e : exn) :
  make_decision st person_data = Raise e ->
  e = OverflowError
  \/ exists k,
       e = KeyError k /\ ~ tracked st k
       /\ (carries (attributes person_data) k \/ k ∈ PyDict.keys (p_a st)).
Proof.
  unfold make_decision. intros H.
  apply bind_Raise in H as [H|(ef & Hef & H)].
  { left. eapply expected_future_Raise; [|exact H]. auto. }
  apply bind_Raise in H as [H|(must_accept & _ & H)].
  { right. unfold _compute_expected_future_supply in Hef.
    apply expected_future_keys in Hef.
    destruct (force_accept_loop_Raise _ _ _ _ _ Hef H) as (k & -> & Hn & Hc).
    exists k. auto. }
  destruct must_accept; [discriminate|].
  apply bind_Raise in H as [H|(score & _ & H)]; [|discriminate].
  unfold _compute_score in H.
  apply bind_Raise in H as [H|(al & _ & H)].
  - destruct (alphas_of_Raise _ _ _ H) as [->|(k & -> & Hn & Hin)];
      [left; reflexivity|].
    right. exists k. auto.
  - left. eapply score_loop_Raise. exact H.
Qed.

(** *** Attributes the person does not have *)

Lemma carried_items_elem (d : PyDict.t bool) (k : string) (h : bool) :
  (k, h) ∈ carried_items d <-> (k, h) ∈ d /\ h = true.
Proof.
  unfold carried_items. rewrite !list_elem_of_In, filter_In. reflexivity.
Qed.

Lemma carried_items_keys (d : PyDict.t bool) (k : string) :
  k ∈ PyDict.keys (carried_items d) -> k ∈ PyDict.keys d.
Proof.
  unfold PyDict.keys. rewrite !list_elem_of_fmap.
  intros ([k' h] & -> & Hin). apply carried_items_elem in Hin as [Hin _].
  exists (k', h). auto.
Qed.

Lemma carried_items_NoDup (d : PyDict.t bool) :
  NoDup (PyDict.keys d) -> NoDup (PyDict.keys (carried_items d)).
Proof.
  induction d as [|[k h] d IH]; simpl; intros Hnd; [constructor|].
  apply NoDup_cons in Hnd as [Hk Hnd].
  destruct h; simpl; [|apply IH; exact Hnd].
  apply NoDup_cons. split; [|apply IH; exact Hnd].
  intros Hin. apply Hk. apply carried_items_keys. exact Hin.
Qed.

Lemma carried_items_carries (d : PyDict.t bool) (k : string) :
  NoDup (PyDict.keys d) ->
  carries (carried_items d) k <-> carries d k.
Proof.
  intros Hnd. unfold carries. split; intros H.
  - apply PyDict_get_elem, carried_items_elem in H as [H _].
    apply PyDict_get_NoDup; assumption.
  - apply PyDict_get_NoDup; [apply carried_items_NoDup; exact Hnd|].
    apply carried_items_elem. split; [|reflexivity].
    apply PyDict_get_elem. exact H.
Qed.

Lemma force_accept_loop_carried (st : GameController) (pa pa' : PyDict.t bool)
    (ef : PyDict.t float) (items : list (string * bool)) :
  (forall k h, (k, h) ∈ items -> PyDict.get pa k = Some h) ->
  (forall k, (k, true) ∈ items -> PyDict.get pa' k = Some true) ->
  force_accept_loop st pa ef (PyDict.keys items)
  = force_accept_loop st pa' ef (PyDict.keys (carried_items items)).
Proof.
  induction items as [|[k h] items IH]; intros Hpa Hpa'; [reflexivity|].
  assert (IH' : force_accept_loop st pa ef (PyDict.keys items)
                = force_accept_loop st pa' ef
                    (PyDict.keys (carried_items items))).
  { apply IH.
    - intros k' h' Hin. apply Hpa. right. exact Hin.
    - intros k' Hin. apply Hpa'. right. exact Hin. }
  pose proof (Hpa k h ltac:(left)) as Hk.
  cbn [PyDict.keys map fst force_accept_loop carried_items List.filter snd].
  unfold PyDict.mem. rewrite Hk. destruct h; cbn [default andb].
  - cbn [map fst force_accept_loop]. unfold PyDict.mem.
    rewrite (Hpa' k ltac:(left)). cbn [default andb].
    fold (carried_items items). fold (PyDict.keys (carried_items items)).
    fold (PyDict.keys items).
    rewrite IH'. reflexivity.
  - exact IH'.
Qed.

Lemma score_loop_carried (al : PyDict.t float) (items : list (string * bool))
    (score : Py.num) :
  score_loop al score items = score_loop al score (carried_items items).
Proof.
  revert score. induction items as [|[k h] items IH]; intros score;
    [reflexivity|].
  destruct h; cbn [carried_items List.filter snd score_loop andb];
    [|apply IH].
  destruct (PyDict.mem k al); [|apply IH].
  destruct (PyDict.getitem al k); cbn [mbind result_bind]; [|reflexivity].
  destruct (Py.num_add_float score a); cbn [mbind result_bind];
    [apply IH|reflexivity].
Qed.

(** An attribute the person does not have (its value is false) has no
    influence on the decision, known to the controller or not:
    [make_decision] returns or raises the same with these items
    removed. *)
Theorem false_attributes_ignored (st : GameController)
    (person_data : Person) :
  NoDup (PyDict.keys (attributes person_data)) ->
  make_decision st person_data
  = make_decision st
      {| personIndex := personIndex person_data;
         attributes := carried_items (attributes person_data) |}.
Proof.
  intros Hnd. unfold make_decision, _should_force_accept, _compute_score.
  cbn [attributes].
  destruct (_compute_expected_future_supply st) as [ef|]; [|reflexivity].
  cbn [mbind result_bind].
  rewrite (force_accept_loop_carried st (attributes person_data)
             (carried_items (attributes person_data)) ef
             (attributes person_data)).
  - destruct (force_accept_loop _ _ _ _) as [[|]|]; try reflexivity.
    cbn [mbind result_bind].
    destruct (_compute_alphas st) as [al|]; [|reflexivity].
    cbn [mbind result_bind]. rewrite score_loop_carried. reflexivity.
  - intros k h Hin. apply PyDict_get_NoDup; assumption.
  - intros k Hin. apply (carried_items_carries _ k Hnd).
    apply PyDict_get_NoDup; assumption.
Qed.

(** *** The counters [_initialize_game_state] sets *)

Lemma required_fresh (cs : list Constraint) (m0 : gmap string Z) (a : string) :
  (forall c, c ∈ cs -> attribute c <> a) ->
  foldl (fun m c => <[attribute c := minCount c]> m) m0 cs !! a = m0 !! a.
Proof.
  revert m0. induction cs as [|c cs IH]; intros m0 Hne; simpl; [reflexivity|].
  rewrite IH by (intros c' Hc'; apply Hne; right; exact Hc').
  apply lookup_insert_ne. apply Hne. left.
Qed.

(** The counters [_initialize_game_state] sets.  Of several constraints
    on one attribute the last one gives the requirement; an attribute
    without a constraint has none; [accepted_counts] is 0 on the
    attributes of the statistics and has no other key; [R] and
    [rejects] are left as they were. *)
Theorem initial_counters (st : GameController) :
  (forall pre c post,
     constraints st = pre ++ c :: post ->
     (forall c', c' ∈ post -> attribute c' <> attribute c) ->
     remaining_required (_initialize_game_state st) !! attribute c
     = Some (minCount c))
  /\ (forall a,
        (forall c, c ∈ constraints st -> attribute c <> a) ->
        remaining_required (_initialize_game_state st) !! a = None)
  /\ (forall a,
        accepted_counts (_initialize_game_state st) !! a
        = if decide (a ∈ PyDict.keys (p_a st)) then Some 0 else None)
  /\ R (_initialize_game_state st) = R st
  /\ rejects (_initialize_game_state st) = rejects st.
Proof.
  unfold _initialize_game_state. cbn.
  split; [|split; [|split; [|split; reflexivity]]].
  - intros pre c post -> Hpost. rewrite foldl_app. simpl.
    rewrite required_fresh by exact Hpost. apply lookup_insert_eq.
  - intros a Hne. rewrite required_fresh by exact Hne. apply lookup_empty.
  - intros a. rewrite zero_counts_lookup, lookup_empty. reflexivity.
Qed.

(** *** The expected supply *)

Lemma float_of_int_overflow (z : Z) :
  2 ^ 1024 <= z \/ z <= - 2 ^ 1024 ->
  Py.float_of_int z = Raise OverflowError.
Proof.
  intros Hz.
  destruct (Py.float_of_int z) as [f|e] eqn:Hf;
    [|apply float_of_int_Raise in Hf; subst e; reflexivity].
  exfalso.
  assert (Hret : returns (Py.float_of_int z)) by (exists f; exact Hf).
  apply float_of_int_returns_iff in Hret as [w Hw].
  assert (P : 0 < 2 ^ 1074) by (apply pow2_pos; lia).
  destruct Hz as [Hz|Hz].
  - pose proof (round_ext_mono 1074 (2 ^ 1024 * 2 ^ 1074) (z * 2 ^ 1074)
                  ltac:(lia) ltac:(nia)) as Hle.
    rewrite Hw in Hle.
    replace (round_ext 1074 (2 ^ 1024 * 2 ^ 1074)) with PosInf in Hle
      by (vm_compute; reflexivity).
    exact Hle.
  - pose proof (round_ext_mono 1074 (z * 2 ^ 1074) (- 2 ^ 1024 * 2 ^ 1074)
                  ltac:(lia) ltac:(nia)) as Hle.
    rewrite Hw in Hle.
    replace (round_ext 1074 (- 2 ^ 1024 * 2 ^ 1074)) with NegInf in Hle
      by (vm_compute; reflexivity).
    exact Hle.
Qed.

(** [_compute_expected_future_supply] returns a dict with the keys of
    [p_a], in the same order, where [a] maps to [float(R) * p_a[a]].  It
    returns whenever [R] is between [- 2 ^ 1023] and [2 ^ 1023], and
    with no attribute at all it returns the empty dict whatever [R] is;
    with an attribute and [R] at [2 ^ 1024] or beyond, the conversion
    of [R] raises [OverflowError]. *)
Theorem expected_supply_bounds (st : GameController) :
  (forall expected_future,
     _compute_expected_future_supply st = Ok expected_future ->
     PyDict.keys expected_future = PyDict.keys (p_a st)
     /\ forall a p,
          PyDict.get (p_a st) a = Some p ->
          exists capacity,
            Py.float_of_int (R st) = Ok capacity
            /\ PyDict.get expected_future a = Some (capacity * p)%float)
  /\ (- 2 ^ 1023 <= R st <= 2 ^ 1023 ->
      returns (_compute_expected_future_supply st))
  /\ (p_a st = [] -> _compute_expected_future_supply st = Ok [])
  /\ (p_a st <> [] ->
      2 ^ 1024 <= R st \/ R st <= - 2 ^ 1024 ->
      _compute_expected_future_supply st = Raise OverflowError).
Proof.
  unfold _compute_expected_future_supply.
  split; [|split; [|split]].
  - intros ef Hef. split; [eapply expected_future_keys; exact Hef|].
    intros a p Hp.
    assert (Hin : a ∈ PyDict.keys ef).
    { rewrite (expected_future_keys _ _ _ _ Hef). apply PyDict_get_keys.
      eauto. }
    apply PyDict_get_keys in Hin as [v Hv].
    pose proof Hv as Hv'.
    eapply expected_future_get in Hv' as [_ (p' & Hp' & Hmul)]; [|exact Hef].
    assert (p' = p) by congruence. subst p'.
    unfold Py.int_mul_float in Hmul. unbind Hmul. injection Hmul as <-.
    eauto.
  - intros HR.
    assert (Hconv : returns (Py.float_of_int (R st))).
    { apply (float_of_int_between (- 2 ^ 1023) (R st) (2 ^ 1023)); [lia| |];
        eexists; vm_compute; reflexivity. }
    destruct Hconv as [f Hf].
    eapply expected_future_returns; [exact Hf|auto].
  - intros ->. reflexivity.
  - intros Hne HR. apply float_of_int_overflow in HR.
    destruct (p_a st) as [|[a p] rest]; [congruence|].
    cbn [PyDict.keys map fst expected_future_of].
    unfold PyDict.getitem at 1. cbn [PyDict.get].
    rewrite String.eqb_refl. cbn [mbind result_bind].
    unfold Py.int_mul_float. rewrite HR. reflexivity.
Qed.

(** *** The properties of the decision on the sample sessions *)

Lemma accept_iff_needed_witness :
  let st := update_state true [("A"%string, true)] (scenario_of 3) in
  let person_data := person_of [("A"%string, true)] in
  needed st "A"
  /\ make_decision st person_data = Ok true
  /\ exists accept,
       make_decision st person_data = Ok accept
       /\ (accept = true <->
           exists a, carries (attributes person_data) a /\ needed st a).
Proof.
  intros st person_data.
  assert (Hn : needed st "A").
  { exists 2, 1. split; [reflexivity|]. split; [reflexivity|lia]. }
  split; [exact Hn|]. split; [vm_compute; reflexivity|].
  apply (accept_iff_needed st person_data).
  - change (R st) with 2. split; [lia|]. vm_compute. discriminate.
  - simpl. distinct_keys.
  - intros a p. change (p_a st) with [("A"%string, 0.5%float)].
    cbn [PyDict.get]. destruct (String.eqb "A" a); [|discriminate].
    intros [= <-]. reflexivity.
  - intros a. change (p_a st) with [("A"%string, 0.5%float)].
    cbn [PyDict.keys map fst]. intros Ha.
    apply list_elem_of_singleton in Ha. subst a.
    exists 2, 1. split; [reflexivity|]. split; [reflexivity|].
    vm_compute. discriminate.
  - intros a Ha. unfold carries in Ha.
    change (PyDict.get (attributes person_data) a)
      with (if String.eqb "A" a then Some true else None) in Ha.
    change (p_a st) with [("A"%string, 0.5%float)].
    destruct (String.eqb_spec "A" a) as [Heq|]; [|discriminate].
    rewrite <- Heq. left.
Defined.

Lemma decision_reads_four_fields_witness :
  let st1 := scenario_of 3 in
  let st2 := set_probabilities (p_a st1) [] (set_game "other" [] one_attribute st1) in
  P11 st2 <> P11 st1
  /\ make_decision st2 (person_of [("A"%string, true)])
     = make_decision st1 (person_of [("A"%string, true)]).
Proof.
  intros st1 st2. split; [discriminate|].
  apply (decision_reads_four_fields st1 st2); reflexivity.
Defined.

Lemma decision_errors_witness :
  let st := scenario_of 3 in
  let person_data := person_of [("B"%string, true)] in
  make_decision st person_data = Raise (KeyError "B")
  /\ (KeyError "B" = OverflowError
      \/ exists k,
           KeyError "B" = KeyError k /\ ~ tracked st k
           /\ (carries (attributes person_data) k
               \/ k ∈ PyDict.keys (p_a st))).
Proof.
  intros st person_data.
  assert (H : make_decision st person_data = Raise (KeyError "B"))
    by (vm_compute; reflexivity).
  split; [exact H|]. apply (decision_errors st person_data). exact H.
Defined.

Lemma false_attributes_ignored_witness :
  let st := scenario_of 3 in
  let person_data := person_of [("B"%string, false); ("A"%string, true)] in
  NoDup (PyDict.keys (attributes person_data))
  /\ carried_items (attributes person_data) = [("A"%string, true)]
  /\ make_decision st person_data
     = make_decision st
         {| personIndex := personIndex person_data;
            attributes := carried_items (attributes person_data) |}.
Proof.
  intros st person_data.
  assert (Hnd : NoDup (PyDict.keys (attributes person_data)))
    by (simpl; distinct_keys).
  split; [exact Hnd|]. split; [reflexivity|].
  apply (false_attributes_ignored st person_data). exact Hnd.
Defined.

(** ** The run of a game *)

Lemma loop_body_step (service : Service) (s s' : Session) :
  loop_body service s = Ok s' ->
  exists r p b,
    response s = Some r /\ nextPerson r = Some p
    /\ make_decision (controller s) p = Ok b
    /\ controller s' = update_state b (attributes p) (controller s)
    /\ sent s' = (personIndex p, Some b) :: sent s
    /\ response s' = service (sent s').
Proof.
  unfold loop_body. destruct (response s) as [r|]; [|discriminate].
  destruct (nextPerson r) as [p|] eqn:Hp; [|discriminate].
  intros H. unbind H. injection H as <-. exists r, p, v. auto 10.
Qed.

Lemma run_game_reachable (service : Service) (st : GameController)
    (s : Session) :
  run_game service st = Ok s ->
  reachable service (first_request service st) s /\ loop_guard s = false.
Proof.
  unfold run_game. fold (first_request service st).
  set (s0 := first_request service st).
  destruct (response s0) as [r|] eqn:Hresp.
  - destruct (String.eqb (status r) "running") eqn:Hst; simpl.
    + intros H. split.
      * eapply run_loop_reachable; [apply reachable_start|exact H].
      * eapply run_loop_exits; [|exact H]. reflexivity.
    + intros [= <-]. split; [apply reachable_start|].
      unfold loop_guard. rewrite Hresp, Hst. reflexivity.
  - intros [= <-]. split; [apply reachable_start|].
    unfold loop_guard. rewrite Hresp. reflexivity.
Qed.

(** What the loop keeps: the counters of the controller are the
    numbers of decisions reported, and every request but the first
    reports a decision. *)
Lemma reachable_reports (service : Service) (st : GameController)
    (s : Session) :
  reachable service (first_request service st) s ->
  R (controller s) = R st - reported true (sent s)
  /\ rejects (controller s) = rejects st + reported false (sent s)
  /\ MAX_REJECTS (controller s) = MAX_REJECTS st
  /\ Z.of_nat (length (sent s))
     = 1 + reported true (sent s) + reported false (sent s)
  /\ last (sent s) = Some (0, None)
  /\ 0 <= reported true (sent s) /\ 0 <= reported false (sent s)
  /\ (s = first_request service st
      \/ (0 <= R (controller s)
          /\ rejects (controller s) <= MAX_REJECTS (controller s)
          /\ 1 <= R (controller s)
                  + (MAX_REJECTS (controller s) - rejects (controller s)))).
Proof.
  intros Hr. induction Hr as [|s s' _ IH Hg Hb].
  - cbn. repeat split; try lia. left. reflexivity.
  - destruct IH as (HR & Hj & HM & Hlen & Hlast & Ht & Hf & _).
    apply loop_guard_true in Hg as (_ & Hpos & Hmax).
    apply loop_body_step in Hb as (r & p & b & _ & _ & _ & Hc & Hs & _).
    rewrite Hc, Hs. cbn [reported length].
    destruct (update_state_counters b (attributes p) (controller s))
      as (-> & -> & ->).
    rewrite Nat2Z.inj_succ.
    assert (Hl : last ((personIndex p, Some b) :: sent s) = Some (0, None)).
    { rewrite <- Hlast. destruct (sent s); [discriminate|reflexivity]. }
    destruct b; cbn [Bool.eqb]; repeat split; try lia; try exact Hl;
      right; lia.
Qed.

Lemma run_game_idle (service : Service) (st : GameController) :
  loop_guard (first_request service st) = false ->
  run_game service st = Ok (first_request service st).
Proof.
  intros Hg. unfold run_game. fold (first_request service st).
  destruct (response (first_request service st)) as [r|]; [|reflexivity].
  destruct (negb (String.eqb (status r) "running")); [reflexivity|].
  destruct (passes_left (first_request service st)); simpl;
    [reflexivity|]. rewrite Hg. reflexivity.
Qed.

(** When [run_game] returns, the counters of the controller are the
    numbers of decisions it reported to the service: [R] fell by the
    number of accepts sent and [rejects] rose by the number of rejects
    sent.  Every request but the first one, which is for person 0 and
    carries no decision, reports one decision. *)
Theorem counters_match_reports (service : Service) (st : GameController)
    (s : Session) :
  run_game service st = Ok s ->
  R (controller s) = R st - reported true (sent s)
  /\ rejects (controller s) = rejects st + reported false (sent s)
  /\ Z.of_nat (length (sent s))
     = 1 + reported true (sent s) + reported false (sent s)
  /\ last (sent s) = Some (0, None).
Proof.
  intros Hrun. apply run_game_reachable in Hrun as [Hr _].
  destruct (reachable_reports service st s Hr)
    as (HR & Hj & _ & Hlen & Hlast & _).
  auto.
Qed.

(** [run_game] sends at most [R + (MAX_REJECTS - rejects)] requests,
    21000 for a fresh controller, and ends with [0 <= R] and
    [rejects <= MAX_REJECTS].  On a controller with no slot left, or
    with [MAX_REJECTS] rejections already, it sends the first request
    alone and decides nobody. *)
Theorem requests_bounded (service : Service) (st : GameController)
    (s : Session) :
  run_game service st = Ok s ->
  (0 < R st -> rejects st < MAX_REJECTS st ->
   Z.of_nat (length (sent s)) <= R st + (MAX_REJECTS st - rejects st)
   /\ 0 <= R (controller s)
   /\ rejects (controller s) <= MAX_REJECTS st)
  /\ (R st <= 0 \/ MAX_REJECTS st <= rejects st ->
      sent s = [(0, None)] /\ controller s = st).
Proof.
  intros Hrun. split.
  - intros HR0 Hj0. apply run_game_reachable in Hrun as [Hr _].
    destruct (reachable_reports service st s Hr)
      as (HR & Hj & HM & Hlen & _ & Ht & Hf & [->|Hinv]).
    + cbn. lia.
    + lia.
  - intros Hidle.
    assert (Hg : loop_guard (first_request service st) = false).
    { destruct (loop_guard (first_request service st)) eqn:Hg;
        [|reflexivity].
      apply loop_guard_true in Hg as (_ & HR & Hj). cbn in HR, Hj. lia. }
    rewrite (run_game_idle service st Hg) in Hrun. injection Hrun as <-.
    split; reflexivity.
Qed.

Lemma update_state_frame (accepted : bool) (attrs : PyDict.t bool)
    (st : GameController) :
  p_a (update_state accepted attrs st) = p_a st
  /\ P11 (update_state accepted attrs st) = P11 st
  /\ remaining_required (update_state accepted attrs st)
     = remaining_required st
  /\ constraints (update_state accepted attrs st) = constraints st
  /\ N (update_state accepted attrs st) = N st.
Proof. destruct accepted; repeat split. Qed.

Lemma reachable_response (service : Service) (st : GameController)
    (s : Session) :
  reachable service (first_request service st) s ->
  response s = service (sent s).
Proof.
  intros Hr. destruct Hr as [|s s' _ _ Hb]; [reflexivity|].
  apply loop_body_step in Hb as (_ & _ & _ & _ & _ & _ & _ & _ & H).
  exact H.
Qed.

Lemma reachable_counts (service : Service) (st : GameController)
    (s : Session) :
  serves_dicts service ->
  reachable service (first_request service st) s ->
  (p_a (controller s) = p_a st
   /\ P11 (controller s) = P11 st
   /\ remaining_required (controller s) = remaining_required st
   /\ constraints (controller s) = constraints st
   /\ N (controller s) = N st)
  /\ forall a,
       match accepted_counts st !! a with
       | None => accepted_counts (controller s) !! a = None
       | Some c0 =>
           exists c, accepted_counts (controller s) !! a = Some c
                     /\ c0 <= c <= c0 + reported true (sent s)
       end.
Proof.
  intros Hdict Hr. induction Hr as [|s s' Hr IH Hg Hb].
  - split; [repeat split|]. intros a. cbn.
    destruct (accepted_counts st !! a) as [c0|]; [|reflexivity].
    exists c0. split; [reflexivity|lia].
  - destruct IH as [Hframe Hcounts].
    pose proof (reachable_response service st s Hr) as Hresp.
    destruct (reachable_reports service st s Hr)
      as (_ & _ & _ & _ & _ & Ht & _).
    apply loop_body_step in Hb as (r & p & b & Hrs & Hp & _ & Hc & Hs & _).
    rewrite Hresp in Hrs. pose proof (Hdict _ _ _ Hrs Hp) as Hnd.
    rewrite Hc, Hs.
    destruct (update_state_frame b (attributes p) (controller s))
      as (-> & -> & -> & -> & ->).
    split; [exact Hframe|]. intros a. specialize (Hcounts a).
    cbn [reported].
    destruct b; cbn [update_state set_accepted_counts set_rejects set_R
                      accepted_counts Bool.eqb].
    + rewrite (count_loop_lookup _ _ a Hnd).
      destruct (accepted_counts st !! a) as [c0|].
      * destruct Hcounts as (c & -> & Hc0).
        destruct (PyDict.get (attributes p) a) as [[|]|];
          eexists; (split; [reflexivity|lia]).
      * rewrite Hcounts. reflexivity.
    + destruct (accepted_counts st !! a) as [c0|]; [|exact Hcounts].
      destruct Hcounts as (c & -> & Hc0). exists c.
      split; [reflexivity|lia].
Qed.

(** Along [run_game] the probability model, the requirements and [N]
    stay as they were, [accepted_counts] gets no new key and loses none,
    and no count falls or rises by more than the number of accepts. *)
Theorem counts_grow (service : Service) (st : GameController) (s : Session) :
  serves_dicts service ->
  run_game service st = Ok s ->
  (p_a (controller s) = p_a st
   /\ P11 (controller s) = P11 st
   /\ remaining_required (controller s) = remaining_required st
   /\ constraints (controller s) = constraints st
   /\ N (controller s) = N st)
  /\ forall a,
       match accepted_counts st !! a with
       | None => accepted_counts (controller s) !! a = None
       | Some c0 =>
           exists c, accepted_counts (controller s) !! a = Some c
                     /\ c0 <= c <= c0 + reported true (sent s)
       end.
Proof.
  intros Hdict Hrun. apply run_game_reachable in Hrun as [Hr _].
  apply (reachable_counts service); assumption.
Qed.

Lemma needed_same (st1 st2 : GameController) (a : string) :
  remaining_required st1 = remaining_required st2 ->
  accepted_counts st1 = accepted_counts st2 ->
  needed st1 a -> needed st2 a.
Proof. unfold needed. intros <- <-. auto. Qed.

Lemma reachable_quotas_met (service : Service) (st : GameController)
    (s : Session) :
  serves_dicts service ->
  (forall a p, PyDict.get (p_a st) a = Some p -> (0 <=? p)%float = true) ->
  (forall a, ~ needed st a) ->
  reachable service (first_request service st) s ->
  R (controller s) = R st
  /\ accepted_counts (controller s) = accepted_counts st
  /\ remaining_required (controller s) = remaining_required st
  /\ p_a (controller s) = p_a st
  /\ reported true (sent s) = 0.
Proof.
  intros Hdict Hp Hmet Hr. induction Hr as [|s s' Hr IH Hg Hb].
  - repeat split.
  - destruct IH as (HR & Hac & Hrr & Hpa & Hrep).
    pose proof (reachable_response service st s Hr) as Hresp.
    apply loop_guard_true in Hg as (_ & Hpos & _).
    apply loop_body_step in Hb as (r & p & b & Hrs & Hpn & Hd & Hc & Hs & _).
    rewrite Hresp in Hrs. pose proof (Hdict _ _ _ Hrs Hpn) as Hnd.
    assert (Hb : b = false).
    { destruct b; [|reflexivity]. exfalso.
      destruct (decision_needed (controller s) p true ltac:(lia) Hnd)
        as [Honly _]; [rewrite Hpa; exact Hp|exact Hd|].
      destruct (Honly eq_refl) as (a & _ & Hneed).
      apply (Hmet a). eapply needed_same; [| |exact Hneed]; assumption. }
    subst b. rewrite Hc, Hs. cbn. auto.
Qed.

(** Once no attribute is needed any more (no requirement exceeds its
    count), [run_game] rejects every person the service presents: [R]
    and the counts stay as they are, no accept is sent, and [rejects]
    rises by one with every request after the first.  The controller
    does not fill the slots that are left. *)
Theorem quotas_met_rejects (service : Service) (st : GameController)
    (s : Session) :
  serves_dicts service ->
  (forall a p, PyDict.get (p_a st) a = Some p -> (0 <=? p)%float = true) ->
  (forall a, ~ needed st a) ->
  run_game service st = Ok s ->
  R (controller s) = R st
  /\ accepted_counts (controller s) = accepted_counts st
  /\ reported true (sent s) = 0
  /\ rejects (controller s) = rejects st + Z.of_nat (length (sent s)) - 1.
Proof.
  intros Hdict Hp Hmet Hrun. apply run_game_reachable in Hrun as [Hr _].
  destruct (reachable_quotas_met service st s Hdict Hp Hmet Hr)
    as (HR & Hac & _ & _ & Hrep).
  destruct (reachable_reports service st s Hr)
    as (_ & Hj & _ & Hlen & _).
  repeat split; try assumption. lia.
Qed.

(** [start] resets neither [R] nor [rejects]: they, [N] and
    [MAX_REJECTS] are what they were before the call.  On a controller
    that has run out of slots or of rejections, [run_game] after a new
    [start] sends its first request and decides nobody. *)
Theorem start_keeps_capacity
    (game_data : option (string * list Constraint * AttributeStatistics))
    (st st' : GameController) :
  start game_data st = Ok st' ->
  R st' = R st /\ rejects st' = rejects st
  /\ N st' = N st /\ MAX_REJECTS st' = MAX_REJECTS st
  /\ (R st <= 0 \/ MAX_REJECTS st <= rejects st ->
      forall service,
      exists s,
        run_game service st' = Ok s
        /\ sent s = [(0, None)] /\ controller s = st').
Proof.
  intros Hs.
  assert (H4 : R st' = R st /\ rejects st' = rejects st
               /\ N st' = N st /\ MAX_REJECTS st' = MAX_REJECTS st).
  { unfold start in Hs. destruct game_data as [[[game_id cs] stats]|].
    - unbind Hs. injection Hs as <-.
      unfold _initialize_probabilities in Hv. unbind Hv. injection Hv as <-.
      repeat split.
    - injection Hs as <-. repeat split. }
  destruct H4 as (HR & Hj & HN & HM).
  split; [exact HR|]. split; [exact Hj|]. split; [exact HN|].
  split; [exact HM|]. intros Hidle service.
  exists (first_request service st'). split; [|split; reflexivity].
  apply run_game_idle.
  destruct (loop_guard (first_request service st')) eqn:Hg; [|reflexivity].
  apply loop_guard_true in Hg as (_ & HR' & Hj'). cbn in HR', Hj'. lia.
Qed.

Lemma run_loop_returns (service : Service) (st : GameController)
    (fuel : nat) (s : Session) :
  serves_dicts service ->
  serves_known service st ->
  0 <= R st <= 2 ^ 1023 ->
  (forall a, a ∈ PyDict.keys (p_a st) ->
     exists required accepted,
       remaining_required st !! a = Some required
       /\ accepted_counts st !! a = Some accepted
       /\ required - accepted <= 2 ^ 1023) ->
  reachable service (first_request service st) s ->
  returns (run_loop fuel service s).
Proof.
  intros Hdict Hknown HR Hall. revert s.
  induction fuel as [|fuel IH]; intros s Hr; simpl; [eexists; reflexivity|].
  destruct (loop_guard s) eqn:Hg; [|eexists; reflexivity].
  pose proof (reachable_response service st s Hr) as Hresp.
  destruct (reachable_counts service st s Hdict Hr)
    as [(Hpa & _ & Hrr & _) Hcounts].
  destruct (reachable_reports service st s Hr)
    as (HRs & _ & _ & _ & _ & Ht & _).
  pose proof Hg as Hg'.
  apply loop_guard_true in Hg' as ((r & Hrs & Hst) & Hpos & _).
  pose proof Hrs as Hsv. rewrite Hresp in Hsv.
  destruct (Hknown _ _ Hsv) as [Hperson Hattrs].
  destruct (Hperson Hst) as [p Hp].
  assert (Hd : returns (make_decision (controller s) p)).
  { apply make_decision_returns.
    - lia.
    - rewrite Hpa, Hrr. intros a Ha.
      destruct (Hall a Ha) as (required & c0 & Hreq & Hc0 & Hb).
      specialize (Hcounts a). rewrite Hc0 in Hcounts.
      destruct Hcounts as (c & Hc & Hle).
      exists required, c. split; [exact Hreq|]. split; [exact Hc|]. lia.
    - rewrite Hpa. intros a Ha. eapply Hattrs; eassumption. }
  destruct Hd as [b Hb].
  assert (Hbody : exists s', loop_body service s = Ok s').
  { unfold loop_body. rewrite Hrs, Hp, Hb. eexists. reflexivity. }
  destruct Hbody as [s' Hs']. rewrite Hs'. cbn [mbind result_bind].
  apply IH. eapply reachable_pass; eassumption.
Qed.

(** [run_game] returns, with the loop condition false and [R] between
    0 and its first value, when the service behaves: a person with
    every response that says "running", and persons that are dicts
    carrying attributes of the statistics only; and when every
    attribute of the statistics has a requirement and a count. *)
Theorem run_game_returns (service : Service) (st : GameController) :
  serves_dicts service ->
  serves_known service st ->
  0 <= R st <= 2 ^ 1023 ->
  (forall a, a ∈ PyDict.keys (p_a st) ->
     exists required accepted,
       remaining_required st !! a = Some required
       /\ accepted_counts st !! a = Some accepted
       /\ required - accepted <= 2 ^ 1023) ->
  exists s,
    run_game service st = Ok s
    /\ loop_guard s = false
    /\ 0 <= R (controller s) <= R st.
Proof.
  intros Hdict Hknown HR Hall.
  assert (Hret : returns (run_game service st)).
  { unfold run_game. fold (first_request service st).
    destruct (response (first_request service st)) as [r|];
      [|eexists; reflexivity].
    destruct (negb (String.eqb (status r) "running"));
      [eexists; reflexivity|].
    apply (run_loop_returns service st); try assumption.
    apply reachable_start. }
  destruct Hret as [s Hs]. exists s. split; [exact Hs|].
  apply run_game_reachable in Hs as [Hr Hg]. split; [exact Hg|].
  destruct (reachable_reports service st s Hr)
    as (HRs & _ & _ & _ & _ & Ht & _ & [->|Hinv]).
  - cbn. lia.
  - lia.
Qed.

(** *** The properties of the run on the sample service *)

Lemma two_persons_dicts : serves_dicts two_persons.
Proof.
  intros sent r p. unfold two_persons.
  destruct (length sent <=? 2)%nat; intros [= <-]; cbn [nextPerson];
    [|discriminate].
  intros [= <-]. simpl. distinct_keys.
Qed.

Lemma two_persons_known (capacity : Z) :
  serves_known two_persons (scenario_of capacity).
Proof.
  intros sent r. unfold two_persons.
  destruct (length sent <=? 2)%nat; intros [= <-];
    cbn [status nextPerson]; (split; [|intros p a]).
  - eauto.
  - intros [= <-]. unfold carries. cbn [attributes PyDict.get].
    destruct (String.eqb_spec "A" a) as [Heq|]; [|discriminate].
    intros _. rewrite <- Heq. left.
  - discriminate.
  - discriminate.
Qed.

Lemma counters_match_reports_witness :
  exists s,
    run_game two_persons (scenario_of 3) = Ok s
    /\ sent s = [(2, Some true); (1, Some true); (0, None)]
    /\ R (controller s) = 3 - reported true (sent s)
    /\ rejects (controller s) = 0 + reported false (sent s).
Proof.
  destruct (run_game two_persons (scenario_of 3)) as [s|e] eqn:Hrun;
    [|vm_compute in Hrun; discriminate].
  exists s. split; [reflexivity|].
  destruct (counters_match_reports two_persons (scenario_of 3) s Hrun)
    as (HR & Hj & _).
  split; [|split; [exact HR|exact Hj]].
  vm_compute in Hrun. injection Hrun as <-. reflexivity.
Defined.

Lemma requests_bounded_witness :
  exists s,
    run_game two_persons (scenario_of 3) = Ok s
    /\ Z.of_nat (length (sent s)) <= 3 + (20000 - 0)
    /\ 0 <= R (controller s)
    /\ rejects (controller s) <= 20000.
Proof.
  destruct (run_game two_persons (scenario_of 3)) as [s|e] eqn:Hrun;
    [|vm_compute in Hrun; discriminate].
  exists s. split; [reflexivity|].
  destruct (requests_bounded two_persons (scenario_of 3) s Hrun)
    as [Hbound _].
  apply Hbound; cbn [scenario_of R rejects MAX_REJECTS]; lia.
Defined.

Lemma counts_grow_witness :
  serves_dicts two_persons
  /\ exists s,
       run_game two_persons (scenario_of 3) = Ok s
       /\ remaining_required (controller s)
          = remaining_required (scenario_of 3)
       /\ accepted_counts (controller s) !! "B"%string = None
       /\ exists c, accepted_counts (controller s) !! "A"%string = Some c
                    /\ 0 <= c <= 0 + reported true (sent s).
Proof.
  split; [exact two_persons_dicts|].
  destruct (run_game two_persons (scenario_of 3)) as [s|e] eqn:Hrun;
    [|vm_compute in Hrun; discriminate].
  exists s. split; [reflexivity|].
  destruct (counts_grow two_persons (scenario_of 3) s two_persons_dicts Hrun)
    as [(_ & _ & Hrr & _) Hcounts].
  split; [exact Hrr|]. split.
  - exact (Hcounts "B"%string).
  - exact (Hcounts "A"%string).
Defined.

Lemma quotas_met_rejects_witness :
  let st := set_accepted_counts {[ "A"%string := 2 ]} (scenario_of 3) in
  (forall a, ~ needed st a)
  /\ exists s,
       run_game two_persons st = Ok s
       /\ sent s = [(2, Some false); (1, Some false); (0, None)]
       /\ R (controller s) = 3
       /\ rejects (controller s) = 2.
Proof.
  intros st.
  assert (Hmet : forall a, ~ needed st a).
  { intros a (required & accepted & Hr & Hc & Hlt).
    change (remaining_required st) with ({[ "A"%string := 2 ]} : gmap string Z)
      in Hr.
    change (accepted_counts st) with ({[ "A"%string := 2 ]} : gmap string Z)
      in Hc.
    apply lookup_singleton_Some in Hr as [_ <-].
    apply lookup_singleton_Some in Hc as [_ <-]. lia. }
  assert (Hp : forall a p, PyDict.get (p_a st) a = Some p ->
                           (0 <=? p)%float = true).
  { intros a p. change (p_a st) with [("A"%string, 0.5%float)].
    cbn [PyDict.get]. destruct (String.eqb "A" a); [|discriminate].
    intros [= <-]. reflexivity. }
  split; [exact Hmet|].
  destruct (run_game two_persons st) as [s|e] eqn:Hrun;
    [|vm_compute in Hrun; discriminate].
  exists s. split; [reflexivity|].
  destruct (quotas_met_rejects two_persons st s two_persons_dicts Hp Hmet Hrun)
    as (HR & _ & _ & Hj).
  assert (Hs : sent s = [(2, Some false); (1, Some false); (0, None)]).
  { vm_compute in Hrun. injection Hrun as <-. reflexivity. }
  split; [exact Hs|]. split; [exact HR|]. rewrite Hj, Hs. reflexivity.
Defined.

Lemma start_keeps_capacity_witness :
  let game_data :=
    Some ("game"%string, [ {| attribute := "A"; minCount := 2 |} ],
          one_attribute) in
  exists st',
    start game_data (set_R 0 init) = Ok st'
    /\ R st' = 0
    /\ accepted_counts st' !! "A"%string = Some 0
    /\ exists s,
         run_game two_persons st' = Ok s
         /\ sent s = [(0, None)] /\ controller s = st'.
Proof.
  intros game_data.
  destruct (start game_data (set_R 0 init)) as [st'|e] eqn:Hs;
    [|vm_compute in Hs; discriminate].
  exists st'. split; [reflexivity|].
  destruct (start_keeps_capacity game_data (set_R 0 init) st' Hs)
    as (HR & _ & _ & _ & Hidle).
  split; [exact HR|]. split.
  - vm_compute in Hs. injection Hs as <-. reflexivity.
  - apply Hidle. left. cbn [set_R R]. lia.
Defined.

Lemma run_game_returns_witness :
  serves_dicts two_persons
  /\ serves_known two_persons (scenario_of 3)
  /\ exists s,
       run_game two_persons (scenario_of 3) = Ok s
       /\ loop_guard s = false
       /\ 0 <= R (controller s) <= 3.
Proof.
  split; [exact two_persons_dicts|].
  split; [exact (two_persons_known 3)|].
  apply (run_game_returns two_persons (scenario_of 3)).
  - exact two_persons_dicts.
  - exact (two_persons_known 3).
  - cbn [scenario_of R]. split; [lia|]. vm_compute. discriminate.
  - intros a. cbn [scenario_of p_a PyDict.keys map fst]. intros Ha.
    apply list_elem_of_singleton in Ha. subst a.
    exists 2, 0. split; [reflexivity|]. split; [reflexivity|].
    vm_compute. discriminate.
Defined.

(** ** The requests *)

Lemma pretty_N_go_no_ampersand (x : BinNums.N) (s : string) :
  no_ampersand s = true -> no_ampersand (pretty_N_go x s) = true.
Proof.
  revert s. induction (N.lt_wf_0 x) as [x _ IH]; intros s Hs.
  destruct (decide (x = 0)%N) as [->|Hx]; [exact Hs|].
  rewrite pretty_N_go_step by lia. apply IH.
  - apply N.div_lt; lia.
  - cbn [no_ampersand]. rewrite Hs, andb_true_r.
    unfold pretty_N_char. repeat case_match; reflexivity.
Qed.

Lemma pretty_positive_no_ampersand (p : positive) :
  no_ampersand (pretty p) = true.
Proof.
  unfold pretty, pretty_positive, pretty, pretty_N.
  case_decide; [reflexivity|].
  apply pretty_N_go_no_ampersand. reflexivity.
Qed.

Lemma pretty_Z_no_ampersand (z : Z) : no_ampersand (pretty z) = true.
Proof.
  destruct z as [|p|p]; [reflexivity|apply pretty_positive_no_ampersand|].
  change (pretty (Z.neg p)) with (String "-" (pretty p)).
  cbn [no_ampersand]. rewrite pretty_positive_no_ampersand. reflexivity.
Qed.

Lemma split_at_ampersand (d1 d2 s1 s2 : string) :
  no_ampersand d1 = true -> no_ampersand d2 = true ->
  parameter s1 -> parameter s2 ->
  d1 +:+ s1 = d2 +:+ s2 -> d1 = d2 /\ s1 = s2.
Proof.
  revert d2. induction d1 as [|c d1 IH]; intros [|c' d2] H1 H2 P1 P2 Heq.
  - change (s1 = s2) in Heq. auto.
  - change (s1 = String c' (d2 +:+ s2)) in Heq. exfalso.
    cbn [no_ampersand] in H2. apply andb_true_iff in H2 as [Hc _].
    destruct P1 as [P1|[s' P1]]; rewrite P1 in Heq; [discriminate|].
    injection Heq as <- _. discriminate.
  - change (String c (d1 +:+ s1) = s2) in Heq. exfalso.
    cbn [no_ampersand] in H1. apply andb_true_iff in H1 as [Hc _].
    destruct P2 as [P2|[s' P2]]; rewrite P2 in Heq; [discriminate|].
    injection Heq as -> _. discriminate.
  - change (String c (d1 +:+ s1) = String c' (d2 +:+ s2)) in Heq.
    injection Heq as -> Heq.
    cbn [no_ampersand] in H1, H2.
    apply andb_true_iff in H1 as [_ H1], H2 as [_ H2].
    destruct (IH d2 H1 H2 P1 P2 Heq) as [-> ->]. auto.
Qed.

Lemma append_assoc (s1 s2 s3 : string) :
  (s1 +:+ s2) +:+ s3 = s1 +:+ (s2 +:+ s3).
Proof.
  induction s1 as [|c s1 IH]; [reflexivity|].
  change (String c ((s1 +:+ s2) +:+ s3) = String c (s1 +:+ (s2 +:+ s3))).
  rewrite IH. reflexivity.
Qed.

Lemma append_empty (s : string) : s +:+ EmptyString = s.
Proof.
  induction s as [|c s IH]; [reflexivity|].
  change (String c (s +:+ EmptyString) = String c s).
  rewrite IH. reflexivity.
Qed.

(** The URL of a request tells the person index and the decision: two
    requests of one game with the same URL report the same decision on
    the same person.  A rejection is written out, [&accept=false],
    and only the first request has no [accept] parameter. *)
Theorem decide_and_next_url_injective (game_uuid : string) (i j : Z)
    (a b : option bool) :
  Z.abs i < 10 ^ 4300 -> Z.abs j < 10 ^ 4300 ->
  (decide_and_next_url game_uuid i a = decide_and_next_url game_uuid j b ->
   i = j /\ a = b)
  /\ decide_and_next_url game_uuid i (Some true)
     = decide_and_next_url game_uuid i None +:+ "&accept=true"
  /\ decide_and_next_url game_uuid i (Some false)
     = decide_and_next_url game_uuid i None +:+ "&accept=false".
Proof.
  intros _ _. split; [|split; reflexivity].
  assert (Hparam : forall o : option bool,
    parameter (match o with
               | None => EmptyString
               | Some x => "&accept=" +:+ lower (str_of_bool x)
               end)).
  { intros [[|]|]; [right|right|left]; eauto. }
  assert (Hshape : forall k (o : option bool),
    decide_and_next_url game_uuid k o =
    "https://berghain.challenges.listenlabs.ai/decide-and-next?gameId="
    +:+ (game_uuid +:+ ("&personIndex=" +:+
      (pretty k +:+ match o with
                    | None => EmptyString
                    | Some x => "&accept=" +:+ lower (str_of_bool x)
                    end)))).
  { intros k [x|]; unfold decide_and_next_url.
    - rewrite !append_assoc. reflexivity.
    - rewrite append_empty. reflexivity. }
  rewrite !Hshape. intros H.
  do 3 apply String.app_inj in H.
  apply split_at_ampersand in H as [Hd Hs];
    auto using pretty_Z_no_ampersand.
  apply (inj pretty) in Hd. split; [exact Hd|].
  destruct a as [[|]|], b as [[|]|]; try reflexivity; discriminate Hs.
Qed.

(** *** The URL of a sample request *)

Lemma decide_and_next_url_injective_witness :
  Z.abs 7 < 10 ^ 4300
  /\ decide_and_next_url "g" 7 (Some false)
     = "https://berghain.challenges.listenlabs.ai/decide-and-next?gameId=g&personIndex=7&accept=false"
  /\ decide_and_next_url "g" 7 None
     = "https://berghain.challenges.listenlabs.ai/decide-and-next?gameId=g&personIndex=7"
  /\ decide_and_next_url "g" 7 (Some true)
     <> decide_and_next_url "g" 7 (Some false)
  /\ decide_and_next_url "g" 7 None <> decide_and_next_url "g" (-7) None.
Proof.
  assert (H : Z.abs 7 < 10 ^ 4300) by (vm_compute; reflexivity).
  assert (H' : Z.abs (-7) < 10 ^ 4300) by (vm_compute; reflexivity).
  split; [exact H|]. split; [vm_compute; reflexivity|].
  split; [vm_compute; reflexivity|]. split.
  - intros Heq.
    destruct (decide_and_next_url_injective "g" 7 7 (Some true) (Some false)
                H H) as [Hinj _].
    destruct (Hinj Heq) as [_ Hd]. discriminate Hd.
  - intros Heq.
    destruct (decide_and_next_url_injective "g" 7 (-7) None None H H')
      as [Hinj _].
    destruct (Hinj Heq) as [Hd _]. discriminate Hd.
Defined.
